(** * Portfolio valuation and indicator pipeline

    A shallow embedding of [backend/utils/indicators.py],
    [backend/utils/enhanced_indicators.py],
    [backend/utils/data_fetcher.py] and the portfolio endpoint of
    [backend/app.py].

    Conventions of the embedding.
    - Python floats are exact rationals ([Q]): no rounding, no NaN and no
      infinities.  [fillna(0)] is therefore the identity.
    - A date string is either a well-formed ['YYYY-MM-DD'] text, written
      [ISO d] for the calendar day number [d], or some other text that the
      parser applied to it rejects ([Malformed]).  A pandas [Timestamp] and
      a [datetime] are day numbers.
    - A [DataFrame] is kept column-wise.  The reserved labels ['Date'] and
      ['TotalValue'] are record fields; the ticker columns live in a finite
      map.  Tickers are taken to differ from the two reserved labels.
    - A Python [dict] is a [gmap]; a [set] is a [gset], iterated in the
      order of [elements]. *)

From Stdlib Require Import QArith Qabs Lqa ZArith.
From stdpp Require Import gmap strings list fin_maps pretty sorting.

Set Warnings "-clear-no-such-hyp".

(** ** Rationals *)

Global Instance Q_inhabited : Inhabited Q := populate 0%Q.

Definition Qltb (x y : Q) : bool :=
  match (x ?= y)%Q with Lt => true | _ => false end.

Definition Qleb (x y : Q) : bool :=
  match (x ?= y)%Q with Gt => false | _ => true end.

Global Instance Qle_dec : RelDecision Qle.
Proof.
  intros x y. destruct (Qlt_le_dec y x) as [H|H]; [right|left]; auto.
  apply Qlt_not_le; auto.
Defined.

(** Python's [max(a, b)] and [min(a, b)]: the first argument wins a tie. *)
Definition py_max (a b : Q) : Q := if Qltb a b then b else a.
Definition py_min (a b : Q) : Q := if Qltb b a then b else a.

(** [max(list)] and [min(list)]; [None] on the empty list ([ValueError]). *)
Definition list_max (l : list Q) : option Q :=
  match l with [] => None | x :: rest => Some (foldl py_max x rest) end.
Definition list_min (l : list Q) : option Q :=
  match l with [] => None | x :: rest => Some (foldl py_min x rest) end.

(** [sum(...)] over a list of rationals, left to right from [0]. *)
Definition Qsum (l : list Q) : Q := foldl Qplus 0%Q l.

(** ** Data model *)

Inductive date_string :=
| ISO (day : Z)
| Malformed (text : string).

Record Transaction := {
  symbol : string;
  name : string;
  quantity : Q;
  buy_date : date_string;
  buy_price : Q
}.

(** The frame handed from the valuation to the indicators: the ['Date']
    column, the ['TotalValue'] column and one column per ticker. *)
Record frame := {
  Date : list date_string;
  TotalValue : list Q;
  symbol_columns : gmap string (list Q)
}.

(** A price history: the [DatetimeIndex] with its ['Close'] column. *)
Abbreviation prices := (list (Z * Q)).

(** One call of [yf.download(symbol, start=..., end=...)]. *)
Record request := {
  req_symbol : string;
  req_start : date_string;
  req_end : date_string
}.

Definition parse (d : date_string) : option Z :=
  match d with ISO day => Some day | Malformed _ => None end.

(** ** Trading-date resolver *)

(** [stock_df.index[stock_df.index <= date]], then its last entry. *)
Definition find_closest_trading_date (stock_df : prices) (date : Z) : option Z :=
  last (filter (λ d, (d ≤ date)%Z) (stock_df.*1)).

(** What [.loc] hands back for one label of the index: a number when the
    label names a single row, a [Series] of the closes of all its rows when
    the index repeats the label. *)
Inductive close_value :=
| Scalar (price : Q)
| Series (closes : list Q).

(** [stock_df.loc[closest_date, 'Close']]; [None] is pandas' [KeyError]. *)
Definition loc_Close (stock_df : prices) (d : Z) : option close_value :=
  match (filter (λ p : Z * Q, p.1 = d) stock_df).*2 with
  | [] => None
  | [close] => Some (Scalar close)
  | closes => Some (Series closes)
  end.

(** ** Valuation aggregator *)

Section Valuation.

(** The market-data provider; [None] stands for a raised exception. *)
Variable yf_download : string → date_string → date_string → option prices.

Definition symbols_of (transactions : list Transaction) : gset string :=
  list_to_set (symbol <$> transactions).

(** [pd.date_range(start, end)]: every calendar day, both ends included. *)
Definition date_range (s e : Z) : list Z :=
  (λ k : nat, (s + Z.of_nat k)%Z) <$> seq 0 (Z.to_nat (e - s + 1)).

(** [portfolio_value[symbol] = 0.0] *)
Definition new_column (rows : nat) (sym : string)
    (cols : gmap string (list Q)) : gmap string (list Q) :=
  <[sym := replicate rows 0%Q]> cols.

(** The download loop, with the requests it issues.  A raised download is
    caught and leaves the ticker out of [stock_data]. *)
Definition download_step (start_date end_date : date_string)
    (acc : list request * gmap string prices) (sym : string)
    : list request * gmap string prices :=
  let log := acc.1 ++ [ {| req_symbol := sym; req_start := start_date;
                           req_end := end_date |} ] in
  match yf_download sym start_date end_date with
  | Some data => (log, <[sym := data]> acc.2)
  | None => (log, acc.2)
  end.

Definition download_all (syms : list string) (start_date end_date : date_string)
    : list request * gmap string prices :=
  foldl (download_step start_date end_date) ([], ∅) syms.

(** The two [.at] updates inside the inner [try]: the ticker cell, then
    the total.  A missing row aborts both ([KeyError], caught). *)
Definition add_value (i : nat) (sym : string) (value : Q)
    (pv : list Q * gmap string (list Q)) : list Q * gmap string (list Q) :=
  let cols := match pv.2 !! sym with
              | Some _ => pv.2
              | None => new_column (length pv.1) sym pv.2
              end in
  match (cols !!! sym) !! i, pv.1 !! i with
  | Some current_value, Some current_total =>
      (<[i := (current_total + value)%Q]> pv.1,
       <[sym := <[i := (current_value + value)%Q]> (cols !!! sym)]> cols)
  | _, _ => (pv.1, cols)
  end.

(** The inner [try] for a [value] that is a [Series]: the column is made
    sure of, then the first [.at] assignment raises ([ValueError], caught)
    and neither the cell nor the total is written. *)
Definition refuse_value (sym : string)
    (pv : list Q * gmap string (list Q)) : list Q * gmap string (list Q) :=
  (pv.1, match pv.2 !! sym with
         | Some _ => pv.2
         | None => new_column (length pv.1) sym pv.2
         end).

(** One day of one transaction.  The price is read outside the inner
    [try]; on a repeated index date it is a [Series], and so is the value. *)
Definition value_day (tx : Transaction) (buy : Z) (stock_df : prices)
    (acc : option (list Q * gmap string (list Q))) (row : nat * Z)
    : option (list Q * gmap string (list Q)) :=
  pv ← acc;
  if decide (buy ≤ row.2)%Z then
    match find_closest_trading_date stock_df row.2 with
    | Some closest_date =>
        price ← loc_Close stock_df closest_date;
        match price with
        | Scalar price =>
            Some (add_value row.1 (symbol tx) (quantity tx * price)%Q pv)
        | Series _ => Some (refuse_value (symbol tx) pv)
        end
    | None => Some pv
    end
  else Some pv.

(** The loop over the transactions.  [datetime.fromisoformat] comes first
    and raises on a malformed buy date, before the data check. *)
Fixpoint value_transactions (stock_data : gmap string prices) (index : list Z)
    (transactions : list Transaction) (pv : list Q * gmap string (list Q))
    : option (list Q * gmap string (list Q)) :=
  match transactions with
  | [] => Some pv
  | tx :: rest =>
      buy ← parse (buy_date tx);
      match stock_data !! symbol tx with
      | None | Some [] => value_transactions stock_data index rest pv
      | Some stock_df =>
          pv' ← foldl (value_day tx buy stock_df) (Some pv)
                      (zip (seq 0 (length index)) index);
          value_transactions stock_data index rest pv'
      end
  end.

(** The body of the outer [try], with the download requests issued before
    it returned or raised. *)
Definition aggregate (transactions : list Transaction)
    (start_date end_date : date_string) : list request * option frame :=
  match parse start_date, parse end_date with
  | Some s, Some e =>
      let index := date_range s e in
      let symbols := elements (symbols_of transactions) in
      let columns :=
        foldl (λ cols sym, new_column (length index) sym cols) ∅ symbols in
      let fetched := download_all symbols start_date end_date in
      (fetched.1,
       pv ← value_transactions fetched.2 index transactions
              (replicate (length index) 0%Q, columns);
       Some {| Date := ISO <$> index; TotalValue := pv.1;
               symbol_columns := pv.2 |})
  | _, _ => ([], None)
  end.

(** The [except] branch: one row at the start date, valued at zero. *)
Definition minimal_frame (transactions : list Transaction)
    (start_date : date_string) : frame :=
  {| Date := [start_date];
     TotalValue := [0%Q];
     symbol_columns :=
       foldl (λ cols sym, <[sym := [0%Q]]> cols) ∅
             (elements (symbols_of transactions)) |}.

Definition calculate_portfolio_value (transactions : list Transaction)
    (start_date end_date : date_string) : frame :=
  match (aggregate transactions start_date end_date).2 with
  | Some portfolio_value => portfolio_value
  | None => minimal_frame transactions start_date
  end.

Definition download_requests (transactions : list Transaction)
    (start_date end_date : date_string) : list request :=
  (aggregate transactions start_date end_date).1.

(** [get_stock_data] of [data_fetcher.py]: the download is asked from
    five days before the start date; any exception gives the empty
    frame. *)
Definition get_stock_data (sym : string) (start_date end_date : date_string)
    : list request * prices :=
  match parse start_date with
  | Some s =>
      let start_date_adj := ISO (s - 5) in
      ([ {| req_symbol := sym; req_start := start_date_adj;
            req_end := end_date |} ],
       default [] (yf_download sym start_date_adj end_date))
  | None => ([], [])
  end.

End Valuation.

(** The sum of the ticker columns on row [i]. *)
Definition symbol_total (cols : gmap string (list Q)) (i : nat) : Q :=
  Qsum ((λ col : list Q, col !!! i) <$> (map_to_list cols).*2).

(** A table of [rows] rows whose total column matches its ticker columns:
    every column has [rows] cells and each total is the sum of the ticker
    cells of its row. *)
Definition consistent (rows : nat) (total : list Q)
    (cols : gmap string (list Q)) : Prop :=
  length total = rows
  ∧ (∀ sym col, cols !! sym = Some col → length col = rows)
  ∧ ∀ i, i < rows → (total !!! i == symbol_total cols i)%Q.

(** ** Indicator report *)

(** A report value: a number printed with a fixed number of decimals and a
    suffix ([f"{x:.2f}%"] is [Fmt 2 x "%"]), a plain text, a number printed
    behind a label ([f"{name}: {x:.2f}%"]), or a nested dictionary. *)
#[warnings="-register-all"] Inductive value :=
| Fmt (decimals : nat) (x : Q) (suffix : string)
| Text (s : string)
| Tagged (label : string) (v : value)
| Group (entries : gmap string value).

(** [np.mean] *)
Definition mean (l : list Q) : Q :=
  (Qsum l / inject_Z (Z.of_nat (length l)))%Q.

(** The variance under [Series.std], which divides by [n - 1]. *)
Definition sample_variance (l : list Q) : Q :=
  (Qsum ((λ x, (x - mean l) * (x - mean l)) <$> l)
   / inject_Z (Z.of_nat (length l) - 1))%Q.

(** The complete windows of [Series.rolling(window)], oldest first.  The
    leading entries of a rolling series, which pandas fills with NaN, take
    no part in [max], [min], [idxmax], [idxmin] or a [> 0] mask and are
    left out. *)
Definition rolling_windows (returns : list Q) (window : nat) : list (list Q) :=
  (λ k, take window (drop k returns)) <$> seq 0 (S (length returns) - window).

(** [f"{window}..."] *)
Definition rolling_key (window : nat) (suffix : string) : string :=
  pretty window +:+ suffix.

(** *** Return and risk calculator *)

(** Lines 178-182: the cost basis, floored to [1.0]. *)
Definition cost_basis (transactions : list Transaction) : Q :=
  Qsum ((λ tx, (quantity tx * buy_price tx)%Q) <$> transactions).

Definition initial_investment (transactions : list Transaction) : Q :=
  let initial_investment := cost_basis transactions in
  if Qleb initial_investment 0 then 1%Q else initial_investment.

(** Lines 185-193: the last total, clamped at zero. *)
Definition final_value (total_values : list Q) : Q :=
  match last total_values with
  | Some final_value => if Qltb final_value 0 then 0%Q else final_value
  | None => 0%Q
  end.

(** [np.where(a > 0)[0]] *)
Definition np_where_positive (a : list Q) : list nat :=
  filter (λ i, Qltb 0 (a !!! i)) (seq 0 (length a)).

(** Lines 196-209: the daily simple returns. *)
Definition daily_returns (daily_values : list Q) : list Q :=
  if decide (1 < length daily_values) then
    let valid_indices :=
      np_where_positive (take (length daily_values - 1) daily_values) in
    if decide (0 < length valid_indices) then
      let valid_values_prev := (λ i, daily_values !!! i) <$> valid_indices in
      let valid_values_next := (λ i, daily_values !!! (i + 1)) <$> valid_indices in
      zip_with (λ next prev, ((next - prev) / prev)%Q)
               valid_values_next valid_values_prev
    else []
  else [].

(** The return of section 4.3 in the words of the specification: walk the
    adjacent pairs, keep each pair whose earlier value is positive. *)
Fixpoint spec_daily_returns (V : list Q) : list Q :=
  match V with
  | prev :: (next :: _) as rest =>
      if Qltb 0 prev then ((next - prev) / prev)%Q :: spec_daily_returns rest
      else spec_daily_returns rest
  | _ => []
  end.

(** The return array read off by index: the pairs [(i, i + 1)] whose
    earlier value is positive, in index order. *)
Definition returns_by_index (V : list Q) : list Q :=
  (λ i : nat, ((V !!! (i + 1)%nat - V !!! i) / V !!! i)%Q)
    <$> filter (λ i, Qltb 0 (V !!! i)) (seq 0 (length V - 1)).

(** Lines 213-219: the total return and its entry. *)
Definition total_return (initial_investment final_value : Q) : Q :=
  ((final_value - initial_investment) / initial_investment * 100)%Q.

Definition total_return_entry (initial_investment final_value : Q) : value :=
  if Qltb 0 initial_investment
  then Fmt 2 (total_return initial_investment final_value) "%"
  else Text "N/A (初始投资为零)".

(** Lines 437-463. *)
Definition max_drawdown_step (acc : Q * Q) (value : Q) : Q * Q :=
  let max_so_far := if Qltb acc.1 value then value else acc.1 in
  if Qltb 0 max_so_far
  then (max_so_far, py_max acc.2 ((max_so_far - value) / max_so_far)%Q)
  else (max_so_far, acc.2).

Definition calculate_max_drawdown (values : list Q) : Q :=
  if decide (length values < 2) then 0%Q
  else (foldl max_drawdown_step (values !!! 0%nat, 0%Q) values).2.

(** Lines 349-354: the Calmar entry, inside the branch for a non-empty
    return array. *)
Definition calmar_entry (max_drawdown annualized_return : Q) : value :=
  if Qltb 0 max_drawdown && negb (Qeq_bool annualized_return 0)
  then Fmt 2 (Qabs (annualized_return / max_drawdown)) ""
  else Text "N/A".

(** *** Drawdown analyzer *)

(** One entry of [drawdown_periods]. *)
Record drawdown_period := {
  dd_start : nat;
  dd_end : nat;
  dd_depth : Q
}.

(** The variables of the loop of [calculate_detailed_drawdown_metrics]. *)
Record drawdown_state := {
  peak : Q;
  drawdowns : list Q;
  drawdown_periods : list drawdown_period;
  current_drawdown_start : option nat
}.

(** [max([(peak - portfolio_values[j]) / peak for j in range(lo, hi)])] *)
Definition period_depth (portfolio_values : list Q) (peak : Q) (lo hi : nat) : Q :=
  default 0%Q
    (list_max ((λ j, ((peak - portfolio_values !!! j) / peak)%Q)
               <$> seq lo (hi - lo))).

(** Lines 322-343: one turn of the loop. *)
Definition drawdown_step (portfolio_values : list Q)
    (st : drawdown_state) (row : nat * Q) : drawdown_state :=
  let i := row.1 in
  let value := row.2 in
  if Qltb (peak st) value then
    {| peak := value;
       drawdowns := drawdowns st;
       drawdown_periods := drawdown_periods st;
       current_drawdown_start := None |}
  else if Qltb 0 (peak st) then
    let current_drawdown := ((peak st - value) / peak st)%Q in
    let started :=
      match current_drawdown_start st with
      | None => if Qltb (2 # 100) current_drawdown then Some i else None
      | Some s => Some s
      end in
    match started with
    | Some s =>
        if Qltb current_drawdown (5 # 1000) then
          {| peak := peak st;
             drawdowns := drawdowns st ++ [current_drawdown];
             drawdown_periods :=
               drawdown_periods st ++
               [ {| dd_start := s; dd_end := i;
                    dd_depth := period_depth portfolio_values (peak st) s (i + 1) |} ];
             current_drawdown_start := None |}
        else
          {| peak := peak st;
             drawdowns := drawdowns st ++ [current_drawdown];
             drawdown_periods := drawdown_periods st;
             current_drawdown_start := Some s |}
    | None =>
        {| peak := peak st;
           drawdowns := drawdowns st ++ [current_drawdown];
           drawdown_periods := drawdown_periods st;
           current_drawdown_start := None |}
    end
  else st.

(** Lines 317-351: the loop, then the episode still open at the end. *)
Definition drawdown_scan (portfolio_values : list Q) : drawdown_state :=
  foldl (drawdown_step portfolio_values)
        {| peak := portfolio_values !!! 0%nat; drawdowns := [];
           drawdown_periods := []; current_drawdown_start := None |}
        (zip (seq 0 (length portfolio_values)) portfolio_values).

Definition detect_drawdown_periods (portfolio_values : list Q)
    : list drawdown_period :=
  let st := drawdown_scan portfolio_values in
  match current_drawdown_start st with
  | Some s =>
      drawdown_periods st ++
      [ {| dd_start := s; dd_end := length portfolio_values - 1;
           dd_depth := period_depth portfolio_values (peak st) s
                         (length portfolio_values) |} ]
  | None => drawdown_periods st
  end.

(** [calculate_detailed_drawdown_metrics], as [calculate_indicators] calls
    it: the dates are the strings of the ['Date'] column, so the duration
    and date entries, which want [Timestamp]s, are never written. *)
Definition calculate_detailed_drawdown_metrics (portfolio_values : list Q)
    : gmap string value :=
  if decide (length portfolio_values < 5) then {[ "回撤分析" := Text "数据点不足" ]}
  else
    let drawdowns := drawdowns (drawdown_scan portfolio_values) in
    let drawdown_periods := detect_drawdown_periods portfolio_values in
    match list_max drawdowns with
    | Some deepest =>
        let significant_drawdowns :=
          length (filter (λ d, Qltb (5 # 100) (dd_depth d)) drawdown_periods) in
        <["显著回撤次数(>5%)" := Text (pretty significant_drawdowns)]>
          (<["平均回撤" := Fmt 2 (mean drawdowns * 100) "%"]>
             (<["最大回撤" := Fmt 2 (deepest * 100) "%"]> ∅))
    | None => ∅
    end.

(** The analyzer of section 4.4 in the words of the specification: track
    the running peak; at each point take the drawdown fraction
    [(peak - value) / peak] (zero while the peak is not positive); an episode
    opens when the fraction exceeds 2% and none is open, and closes when the
    fraction is below 0.5%, recording its start, its end and the deepest
    fraction seen.  With [drop_on_new_peak] an open episode is given up,
    unrecorded, at a point that sets a new peak. *)
Record episode_state := {
  ep_peak : Q;
  ep_open : option (nat * Q);
  ep_done : list drawdown_period
}.

Definition episode_step (drop_on_new_peak : bool)
    (st : episode_state) (row : nat * Q) : episode_state :=
  let i := row.1 in
  let value := row.2 in
  let new_peak := Qltb (ep_peak st) value in
  let running_peak := if new_peak then value else ep_peak st in
  let fraction :=
    if Qltb 0 running_peak
    then ((running_peak - value) / running_peak)%Q else 0%Q in
  match ep_open st with
  | None =>
      {| ep_peak := running_peak;
         ep_open := if Qltb (2 # 100) fraction then Some (i, fraction) else None;
         ep_done := ep_done st |}
  | Some (s, depth) =>
      if drop_on_new_peak && new_peak then
        {| ep_peak := running_peak; ep_open := None; ep_done := ep_done st |}
      else if Qltb fraction (5 # 1000) then
        {| ep_peak := running_peak;
           ep_open := None;
           ep_done := ep_done st ++
                      [ {| dd_start := s; dd_end := i;
                           dd_depth := py_max depth fraction |} ] |}
      else
        {| ep_peak := running_peak;
           ep_open := Some (s, py_max depth fraction);
           ep_done := ep_done st |}
  end.

Definition episodes (drop_on_new_peak : bool) (values : list Q)
    : list drawdown_period :=
  let st := foldl (episode_step drop_on_new_peak)
                  {| ep_peak := values !!! 0%nat; ep_open := None; ep_done := [] |}
                  (zip (seq 0 (length values)) values) in
  match ep_open st with
  | Some (s, depth) =>
      ep_done st ++
      [ {| dd_start := s; dd_end := length values - 1; dd_depth := depth |} ]
  | None => ep_done st
  end.

(** The code state and the state of the analyzer of the specification after
    the rows before [k]: same peak, same recorded episodes, and the open
    episode of the one is the open episode of the other, its depth being the
    deepest fraction since its start. *)
Definition drawdown_related (V : list Q) (k : nat)
    (st : drawdown_state) (es : episode_state) : Prop :=
  peak st = ep_peak es
  ∧ drawdown_periods st = ep_done es
  ∧ match ep_open es with
    | None => current_drawdown_start st = None
    | Some (s, depth) =>
        current_drawdown_start st = Some s
        ∧ Qltb 0 (peak st) = true
        ∧ s < k
        ∧ list_max ((λ j, ((peak st - V !!! j) / peak st)%Q) <$> seq s (k - s))
          = Some depth
    end.

(** *** Rolling-window analyzer *)

Section Indicators.

(** The three float functions with irrational results: [x ** y],
    [np.sqrt] and [np.log]. *)
Variable float_pow : Q → Q → Q.
Variable np_sqrt : Q → Q.
Variable np_log : Q → Q.

(** [Series.std] of one window. *)
Definition std (l : list Q) : Q := np_sqrt (sample_variance l).

(** [np.sum(x > 0) / len(x) * 100] *)
Definition win_rate (l : list Q) : Q :=
  (inject_Z (Z.of_nat (length (filter (λ x, Qltb 0 x) l)))
   / inject_Z (Z.of_nat (length l)) * 100)%Q.

(** [calculate_rolling_detailed_metrics] of [enhanced_indicators.py]. *)
Definition calculate_rolling_detailed_metrics (daily_returns : list Q)
    (window : nat) : gmap string value :=
  if decide (length daily_returns < window) then
    {[ rolling_key window "日滚动分析" := Text "数据点不足" ]}
  else
    let windows := rolling_windows daily_returns window in
    let rolling_return := (λ w, (mean w * 252 * 100)%Q) <$> windows in
    let rolling_vol := (λ w, (std w * np_sqrt 252 * 100)%Q) <$> windows in
    let rolling_sharpe :=
      (λ w, ((mean w * 252 - (2 # 100)) / (std w * np_sqrt 252))%Q) <$> windows in
    let rolling_win_rate := win_rate <$> windows in
    <[rolling_key window "日滚动胜率" :=
        Fmt 2 (default 0%Q (last rolling_win_rate)) "%"]>
    (<[rolling_key window "日最低历史波动率" :=
        Fmt 2 (default 0%Q (list_min (filter (λ x, Qltb 0 x) rolling_vol))) "%"]>
    (<[rolling_key window "日最高历史波动率" :=
        Fmt 2 (default 0%Q (list_max rolling_vol)) "%"]>
    (<[rolling_key window "日最低历史收益" :=
        Fmt 2 (default 0%Q (list_min rolling_return)) "%"]>
    (<[rolling_key window "日最高历史收益" :=
        Fmt 2 (default 0%Q (list_max rolling_return)) "%"]>
    (<[rolling_key window "日滚动夏普比率" :=
        Fmt 2 (default 0%Q (last rolling_sharpe)) ""]>
    (<[rolling_key window "日滚动年化波动率" :=
        Fmt 2 (default 0%Q (last rolling_vol)) "%"]>
    (<[rolling_key window "日滚动年化收益" :=
        Fmt 2 (default 0%Q (last rolling_return)) "%"]> ∅))))))).

(** [calculate_rolling_metrics] of [indicators.py].  [None] is the
    [ValueError] of [idxmin] on the empty selection
    [rolling_std[rolling_std > 0]]. *)
Definition calculate_rolling_metrics (daily_returns : list Q)
    (window : nat) : option (gmap string value) :=
  if decide (length daily_returns < window) then
    Some {[ rolling_key window "日滚动分析" := Text "数据点不足" ]}
  else
    let windows := rolling_windows daily_returns window in
    let rolling_mean := mean <$> windows in
    let rolling_std := std <$> windows in
    let latest_rolling_return := (default 0 (last rolling_mean) * 252 * 100)%Q in
    let latest_rolling_volatility :=
      (default 0 (last rolling_std) * np_sqrt 252 * 100)%Q in
    let result :=
      <[rolling_key window "日滚动年化波动率" := Fmt 2 latest_rolling_volatility "%"]>
      (<[rolling_key window "日滚动年化收益" := Fmt 2 latest_rolling_return "%"]> ∅) in
    let max_volatility := list_max rolling_std in
    min_volatility ← list_min (filter (λ x, Qltb 0 x) rolling_std);
    let result :=
      match max_volatility with
      | Some m =>
          <[rolling_key window "日最高历史波动率" :=
              Fmt 2 (m * np_sqrt 252 * 100) "%"]> result
      | None => result
      end in
    Some (<[rolling_key window "日最低历史波动率" :=
              Fmt 2 (min_volatility * np_sqrt 252 * 100) "%"]> result).

(** Lines 280-289 of [calculate_indicators]: both detailed analyses sit
    behind the 60-return gate. *)
Definition add_rolling_detailed (daily_returns : list Q)
    (indicators : gmap string value) : gmap string value :=
  if decide (60 ≤ length daily_returns) then
    <["60日滚动分析" := Group (calculate_rolling_detailed_metrics daily_returns 60)]>
    (<["20日滚动分析" := Group (calculate_rolling_detailed_metrics daily_returns 20)]>
       indicators)
  else indicators.

(** Lines 360-367: [indicators.update(...)] for the two windows. *)
Definition add_rolling (daily_returns : list Q)
    (indicators : gmap string value) : option (gmap string value) :=
  indicators ←
    (if decide (20 ≤ length daily_returns) then
       rolling_20d ← calculate_rolling_metrics daily_returns 20;
       Some (rolling_20d ∪ indicators)
     else Some indicators);
  if decide (60 ≤ length daily_returns) then
    rolling_60d ← calculate_rolling_metrics daily_returns 60;
    Some (rolling_60d ∪ indicators)
  else Some indicators.

(** *** Annualized return (lines 223-241)

    The entry, and the number kept in [annualized_return] for the ratios
    further down. *)
Definition annualized_return (days : Z) (initial_investment final_value : Q)
    : value * Q :=
  if bool_decide (0 < days)%Z && Qltb 0 initial_investment && Qltb 0 final_value
  then
    let years := (inject_Z days / 365)%Q in
    if Qltb initial_investment final_value then
      let annualized_return :=
        ((float_pow (final_value / initial_investment) (1 / years) - 1) * 100)%Q in
      (Fmt 2 annualized_return "%", annualized_return)
    else
      let annualized_return :=
        ((final_value - initial_investment) / initial_investment
         * (365 / inject_Z days) * 100)%Q in
      (Fmt 2 annualized_return "%", annualized_return)
  else (Text "N/A", 0%Q).

(** *** Concentration (lines 489-549) *)

Definition calculate_gini_coefficient (weights : list Q) : Q :=
  let weights := (λ w, (w / 100)%Q) <$> weights in
  let weights := merge_sort Qle weights in
  let n := length weights in
  if decide (n ≤ 1) then 1%Q
  else
    let lorentz_curve_area :=
      (Qsum (imap (λ i weight, (inject_Z (Z.of_nat (i + 1)) * weight)%Q) weights)
       / (inject_Z (Z.of_nat n) * Qsum weights))%Q in
    (1 - 2 * lorentz_curve_area)%Q.

Definition calculate_diversity_score (weights : list Q) : Q :=
  let weights := (λ w, (w / 100)%Q) <$> weights in
  let weights := filter (λ w, Qltb 0 w) weights in
  if decide (length weights ≤ 1) then 0%Q
  else
    let entropy := (- Qsum ((λ w, (w * np_log w)%Q) <$> weights))%Q in
    let max_entropy := np_log (inject_Z (Z.of_nat (length weights))) in
    if Qltb 0 max_entropy then (entropy / max_entropy)%Q else 0%Q.

(** [max(weights.items(), key=lambda x: x[1])]: the first of the largest. *)
Definition max_contributor (items : list (string * Q)) : option (string * Q) :=
  match items with
  | [] => None
  | x :: rest =>
      Some (foldl (λ best item, if Qltb best.2 item.2 then item else best) x rest)
  end.

(** Lines 390-432: weights, Gini coefficient, diversity and the largest
    contributor, from the last row of the ticker columns. *)
Definition portfolio_analysis (df : frame) (final_value : Q)
    (indicators : gmap string value) : gmap string value :=
  let latest_values : gmap string Q :=
    (λ col, default 0%Q (last col)) <$> symbol_columns df in
  if Qltb 0 final_value && bool_decide (latest_values ≠ ∅) then
    let weights := (λ v, (v / final_value * 100)%Q) <$> latest_values in
    let indicators :=
      <["股票权重" := Group ((λ w, Fmt 2 w "%") <$> weights)]> indicators in
    let indicators :=
      if decide (1 < size weights) then
        <["投资多样性(熵值)" :=
            Fmt 2 (calculate_diversity_score (map_to_list weights).*2) ""]>
        (<["投资集中度(基尼系数)" :=
            Fmt 2 (calculate_gini_coefficient (map_to_list weights).*2) ""]>
           indicators)
      else
        <["投资多样性(熵值)" := Text "0.00 (单一投资)"]>
        (<["投资集中度(基尼系数)" := Text "1.00 (单一投资)"]> indicators) in
    match max_contributor (map_to_list weights) with
    | Some best => <["最大贡献" := Tagged best.1 (Fmt 2 best.2 "%")]> indicators
    | None => <["最大贡献" := Text "无"]> indicators
    end
  else
    <["投资多样性(熵值)" := Text "N/A"]>
    (<["投资集中度(基尼系数)" := Text "N/A"]>
    (<["最大贡献" := Text "无 (投资组合价值为0)"]>
    (<["股票权重" := Group ((λ _, Text "0.00%") <$> latest_values)]>
       indicators))).

(** *** The report

    Lines 244-388, for the entries followed here: the maximum drawdown,
    the two detailed rolling analyses, the detailed drawdown analysis,
    the Calmar ratio and the rolling metrics.  The entries left out
    (volatility, the enhanced metrics, Sharpe, Sortino, downside risk,
    streaks, win rate and the like) are written under other keys, or are
    overwritten by [portfolio_analysis]; their calls are taken to
    return. *)
Definition risk_indicators (total_values daily_returns : list Q)
    (annualized_return : Q) (indicators : gmap string value)
    : option (gmap string value) :=
  if decide (0 < length daily_returns) then
    let max_drawdown := (calculate_max_drawdown total_values * 100)%Q in
    let indicators := <["最大回撤" := Fmt 2 max_drawdown "%"]> indicators in
    let indicators := add_rolling_detailed daily_returns indicators in
    let indicators :=
      if decide (30 < length total_values) then
        <["回撤详细分析" := Group (calculate_detailed_drawdown_metrics total_values)]>
          indicators
      else indicators in
    let indicators :=
      <["卡尔玛比率" := calmar_entry max_drawdown annualized_return]> indicators in
    add_rolling daily_returns indicators
  else
    Some (<["卡尔玛比率" := Text "N/A"]> (<["最大回撤" := Text "N/A"]> indicators)).

(** [calculate_indicators]; [None] is an exception that leaves the
    function: [pd.to_datetime] on a malformed date, or the [ValueError]
    of [calculate_rolling_metrics]. *)
Definition calculate_indicators (portfolio_value_df : frame)
    (transactions : list Transaction) : option (gmap string value) :=
  if decide (length (Date portfolio_value_df) < 2) then
    Some {[ "信息" := Text "数据点不足，无法计算有意义的指标" ]}
  else
    let total_values := TotalValue portfolio_value_df in
    dates ← mapM parse (Date portfolio_value_df);
    let first_date : Z := dates !!! 0%nat in
    let last_date : Z := dates !!! (length dates - 1)%nat in
    let initial_investment := initial_investment transactions in
    let final_value := final_value total_values in
    let daily_returns := daily_returns total_values in
    let indicators : gmap string value :=
      {[ "总收益率" := total_return_entry initial_investment final_value ]} in
    let days := (last_date - first_date)%Z in
    let annualized := annualized_return days initial_investment final_value in
    let indicators := <["年化收益率" := annualized.1]> indicators in
    indicators ← risk_indicators total_values daily_returns annualized.2 indicators;
    Some (portfolio_analysis portfolio_value_df final_value indicators).

End Indicators.

(** *** Keys and derived quantities named in the statements *)

(** The keys [calculate_rolling_metrics] can write for a window: the
    marker of a short series, then the four metrics. *)
Definition rolling_value_keys (window : nat) : list string :=
  [ rolling_key window "日滚动年化收益";
    rolling_key window "日滚动年化波动率";
    rolling_key window "日最高历史波动率";
    rolling_key window "日最低历史波动率" ].

Definition rolling_keys (window : nat) : list string :=
  rolling_key window "日滚动分析" :: rolling_value_keys window.

(** The other keys of the risk block and those of the portfolio block. *)
Definition risk_keys : list string :=
  [ "最大回撤"; "20日滚动分析"; "60日滚动分析"; "回撤详细分析"; "卡尔玛比率" ].

Definition portfolio_keys : list string :=
  [ "股票权重"; "投资集中度(基尼系数)"; "投资多样性(熵值)"; "最大贡献" ].

(** [(last_date - first_date).days] *)
Definition elapsed_days (dates : list Z) : Z :=
  (dates !!! (length dates - 1)%nat - dates !!! 0%nat)%Z.

(** ** What a position is worth on a day (the loop body of lines 61-89) *)

(** The cell of ticker [sym] on row [i]; zero where there is no such cell. *)
Definition cell (cols : gmap string (list Q)) (sym : string) (i : nat) : Q :=
  (cols !!! sym) !!! i.

(** What a position bought on [buy] is worth on [date] against a price
    history: the quantity times the close of the latest trading day up to
    [date]; nothing before the buy date, before the first close, or when the
    index repeats the date of that trading day (the update is refused). *)
Definition day_value (tx : Transaction) (buy : Z) (stock_df : prices)
    (date : Z) : Q :=
  if decide (buy ≤ date)%Z then
    match find_closest_trading_date stock_df date with
    | Some closest_date =>
        match loc_Close stock_df closest_date with
        | Some (Scalar close) => (quantity tx * close)%Q
        | _ => 0%Q
        end
    | None => 0%Q
    end
  else 0%Q.

(** The same against the fetched histories: nothing for a ticker without
    data. *)
Definition tx_value (stock_data : gmap string prices) (tx : Transaction)
    (date : Z) : Q :=
  match parse (buy_date tx), stock_data !! symbol tx with
  | Some buy, Some (p :: history) => day_value tx buy (p :: history) date
  | _, _ => 0%Q
  end.

Section Positions.

Variable yf_download : string → date_string → date_string → option prices.

(** What one transaction is worth on one day: the quantity times the close
    of the latest trading day up to that day, among the prices fetched for
    its ticker; nothing before the buy date, before the first fetched close,
    on a trading day that the fetched index repeats, or for a ticker whose
    download raised or came back empty. *)
Definition position_value (start_date end_date : date_string)
    (date : Z) (tx : Transaction) : Q :=
  match parse (buy_date tx), yf_download (symbol tx) start_date end_date with
  | Some buy, Some (p :: history) => day_value tx buy (p :: history) date
  | _, _ => 0%Q
  end.

End Positions.

(** *** Streaks *)

(** [np.where(daily_returns > 0, 1, 0)] and [np.where(daily_returns < 0, 1, 0)]
    (lines 330-331). *)
Definition up_days (daily_returns : list Q) : list Z :=
  (λ r, if Qltb 0 r then 1%Z else 0%Z) <$> daily_returns.

Definition down_days (daily_returns : list Q) : list Z :=
  (λ r, if Qltb r 0 then 1%Z else 0%Z) <$> daily_returns.

(** [calculate_max_streak] of [indicators.py] (lines 466-486): the pair is
    [(max_streak, current_streak)]. *)
Definition max_streak_step (acc : nat * nat) (value : Z) : nat * nat :=
  if decide (value = 1%Z) then
    let current_streak := acc.2 + 1 in
    (acc.1 `max` current_streak, current_streak)
  else (acc.1, 0).

Definition calculate_max_streak (binary_array : list Z) : nat :=
  (foldl max_streak_step (0, 0) binary_array).1.

(** [calculate_streak_metrics] of [enhanced_indicators.py] (lines 226-257):
    the pair is [(streaks, current_streak)]; the result is the dictionary
    with the two keys ['max_streak'] and ['avg_streak']. *)
Record streak_metrics := {
  max_streak : nat;
  avg_streak : Q
}.

Definition streak_step (acc : list nat * nat) (value : bool) : list nat * nat :=
  if value then (acc.1, acc.2 + 1)
  else if decide (0 < acc.2) then (acc.1 ++ [acc.2], 0)
  else acc.

Definition streaks_of (binary_array : list bool) : list nat :=
  let acc := foldl streak_step ([], 0) binary_array in
  if decide (0 < acc.2) then acc.1 ++ [acc.2] else acc.1.

Definition calculate_streak_metrics (binary_array : list bool) : streak_metrics :=
  let streaks := streaks_of binary_array in
  match streaks with
  | [] => {| max_streak := 0; avg_streak := 0 |}
  | _ :: _ =>
      {| max_streak := max_list streaks;
         avg_streak := mean ((λ n, inject_Z (Z.of_nat n)) <$> streaks) |}
  end.

(** The entries of [l] from [k] to [k + n - 1] are all [1]. *)
Definition run_of_ones (l : list Z) (k n : nat) : Prop :=
  ∀ j, k ≤ j < k + n → l !! j = Some 1%Z.

(** *** The loop of the maximum drawdown *)

(** The state of the loop of [calculate_max_drawdown] after the values of a
    prefix [p] of the series: the running maximum is a value of the prefix
    and bounds it; the drawdown kept is zero or the decline between two
    values of the prefix, bounds every such decline to a non-negative
    value, and is positive once a value has fallen below an earlier
    positive one. *)
Definition drawdown_invariant (v0 : Q) (p : list Q) (acc : Q * Q) : Prop :=
  (∀ x, x ∈ p → (x <= acc.1)%Q)
  ∧ (p = [] ∧ acc.1 = v0 ∨ acc.1 ∈ p)
  ∧ (0 <= acc.2)%Q
  ∧ (∀ i j vi vj, i ≤ j → p !! i = Some vi → p !! j = Some vj →
       (0 < vi)%Q → (0 <= vj)%Q → ((vi - vj) / vi <= acc.2)%Q)
  ∧ (∀ i j vi vj, i ≤ j → p !! i = Some vi → p !! j = Some vj →
       (0 < vi)%Q → (vj < vi)%Q → (0 < acc.2)%Q)
  ∧ (acc.2 = 0%Q
     ∨ ∃ i j vi vj, i ≤ j ∧ p !! i = Some vi ∧ p !! j = Some vj
         ∧ (0 < vi)%Q ∧ acc.2 = ((vi - vj) / vi)%Q).

(** *** Drawdown metrics of [indicators.py] (lines 646-748) *)

(** An entry of the dictionary of [calculate_drawdown_metrics]: a date
    printed by [strftime('%Y-%m-%d')], a number of days printed as
    [f"{n}天"], or a report value. *)
Inductive metric :=
| DateStr (day : Z)
| DaysStr (n : Z)
| Plain (v : value).

Module DrawdownMetrics.

(** The variables of the loop. *)
Record state := {
  peak_value : Q;
  peak_idx : nat;
  current_drawdown : Q;
  max_drawdown : Q;
  max_drawdown_start_idx : nat;
  max_drawdown_end_idx : nat;
  drawdowns : list Q
}.

(** Lines 675-693: one turn of the loop. *)
Definition step (st : state) (row : nat * Q) : state :=
  let i := row.1 in
  let value := row.2 in
  let new_peak := Qltb (peak_value st) value in
  let peak := if new_peak then value else peak_value st in
  let current := if Qltb 0 peak then ((peak - value) / peak)%Q else 0%Q in
  let deeper := Qltb (max_drawdown st) current in
  {| peak_value := peak;
     peak_idx := if new_peak then i else peak_idx st;
     current_drawdown := current;
     max_drawdown := if deeper then current else max_drawdown st;
     max_drawdown_start_idx :=
       if deeper then (if new_peak then i else peak_idx st)
       else max_drawdown_start_idx st;
     max_drawdown_end_idx := if deeper then i else max_drawdown_end_idx st;
     drawdowns := drawdowns st ++ [current] |}.

(** Lines 664-693. *)
Definition scan (portfolio_values : list Q) : state :=
  foldl step
        {| peak_value := portfolio_values !!! 0%nat; peak_idx := 0;
           current_drawdown := 0; max_drawdown := 0;
           max_drawdown_start_idx := 0; max_drawdown_end_idx := 0;
           drawdowns := [] |}
        (zip (seq 0 (length portfolio_values)) portfolio_values).

(** Lines 709-713: the first index after the trough whose value is back at
    the value of the peak. *)
Definition recovery_idx (portfolio_values : list Q) (start_idx end_idx : nat)
    : option nat :=
  snd <$> list_find
            (λ i, (portfolio_values !!! start_idx <= portfolio_values !!! i)%Q)
            (seq (end_idx + 1) (length portfolio_values - (end_idx + 1))).

(** The state of the loop after the rows of a prefix [p] of the series. *)
Definition window_invariant (v0 : Q) (p : list Q) (st : state) : Prop :=
  (p = [] ∧ peak_value st = v0 ∧ peak_idx st = 0
   ∨ p !! peak_idx st = Some (peak_value st))
  ∧ (∀ j x, p !! j = Some x → (x <= peak_value st)%Q)
  ∧ (∀ j x, j < peak_idx st → p !! j = Some x → (x < peak_value st)%Q)
  ∧ (0 <= max_drawdown st)%Q
  ∧ length (drawdowns st) = length p
  ∧ (max_drawdown st = 0%Q
     ∨ ∃ vs ve,
         p !! max_drawdown_start_idx st = Some vs
         ∧ p !! max_drawdown_end_idx st = Some ve
         ∧ max_drawdown_start_idx st ≤ max_drawdown_end_idx st
         ∧ (0 < vs)%Q ∧ (ve < vs)%Q
         ∧ max_drawdown st = ((vs - ve) / vs)%Q
         ∧ (∀ j x, j ≤ max_drawdown_end_idx st → p !! j = Some x → (x <= vs)%Q)
         ∧ (∀ j x, j < max_drawdown_start_idx st → p !! j = Some x → (x < vs)%Q)).

End DrawdownMetrics.

(** [calculate_drawdown_metrics], as [calculate_indicators] calls it: the
    dates are the [Timestamp]s of [dates.tolist()], here day numbers. *)
Definition calculate_drawdown_metrics (portfolio_values : list Q)
    (dates : list Z) : gmap string metric :=
  if decide (length portfolio_values < 5) then
    {[ "回撤分析" := Plain (Text "数据点不足") ]}
  else
    let st := DrawdownMetrics.scan portfolio_values in
    let max_drawdown_start_idx := DrawdownMetrics.max_drawdown_start_idx st in
    let max_drawdown_end_idx := DrawdownMetrics.max_drawdown_end_idx st in
    let drawdowns := DrawdownMetrics.drawdowns st in
    let result : gmap string metric := ∅ in
    let result :=
      if Qltb 0 (DrawdownMetrics.max_drawdown st)
         && bool_decide (max_drawdown_start_idx < length dates)
         && bool_decide (max_drawdown_end_idx < length dates)
      then
        let max_dd_start_date := dates !!! max_drawdown_start_idx in
        let max_dd_end_date := dates !!! max_drawdown_end_idx in
        let dd_duration := (max_dd_end_date - max_dd_start_date)%Z in
        let result :=
          <["最大回撤持续时间" := DaysStr dd_duration]>
          (<["最大回撤结束日期" := DateStr max_dd_end_date]>
          (<["最大回撤开始日期" := DateStr max_dd_start_date]> result)) in
        match DrawdownMetrics.recovery_idx portfolio_values
                max_drawdown_start_idx max_drawdown_end_idx with
        | Some recovery_idx =>
            if decide (recovery_idx ≠ 0 ∧ recovery_idx < length dates) then
              let recovery_date := dates !!! recovery_idx in
              let recovery_duration := (recovery_date - max_dd_end_date)%Z in
              let total_cycle := (dd_duration + recovery_duration)%Z in
              <["完整回撤周期" := DaysStr total_cycle]>
              (<["回撤恢复时间" := DaysStr recovery_duration]>
              (<["回撤恢复日期" := DateStr recovery_date]> result))
            else <["回撤恢复" := Plain (Text "尚未恢复到峰值")]> result
        | None => <["回撤恢复" := Plain (Text "尚未恢复到峰值")]> result
        end
      else result in
    match drawdowns with
    | [] => result
    | _ :: _ =>
        let avg_drawdown := (mean drawdowns * 100)%Q in
        let result := <["平均回撤" := Plain (Fmt 2 avg_drawdown "%")]> result in
        let significant_drawdowns :=
          length (filter (λ dd, Qltb (2 # 100) dd) drawdowns) in
        let result :=
          <["显著回撤次数(>2%)" := Plain (Text (pretty significant_drawdowns))]>
            result in
        if decide (1 < length dates) then
          let first_date := dates !!! 0%nat in
          let last_date := dates !!! (length dates - 1)%nat in
          let years := (inject_Z (last_date - first_date) / 365)%Q in
          if Qltb 0 years then
            let annual_dd_freq :=
              (inject_Z (Z.of_nat significant_drawdowns) / years)%Q in
            <["年化显著回撤频率" := Plain (Fmt 2 annual_dd_freq "次/年")]> result
          else result
        else result
    end.

(** *** The episodes of the detailed drawdown analysis *)

(** An episode that starts no later than it ends, lies inside the series
    and is deeper than 2%. *)
Definition well_formed (V : list Q) (d : drawdown_period) : Prop :=
  dd_start d ≤ dd_end d ∧ dd_end d < length V ∧ (2 # 100 < dd_depth d)%Q.

(** The state of the loop of [calculate_detailed_drawdown_metrics] after
    the first [k] rows: the recorded episodes lie before row [k], one after
    the other, each deeper than 2%; an open episode started before row [k],
    after every recorded one, under the current peak and deeper than 2%
    there. *)
Definition episodes_invariant (V : list Q) (k : nat) (st : drawdown_state) : Prop :=
  Forall (λ d, well_formed V d ∧ dd_end d < k) (drawdown_periods st)
  ∧ (∀ i d1 d2, drawdown_periods st !! i = Some d1 →
       drawdown_periods st !! S i = Some d2 → dd_end d1 < dd_start d2)
  ∧ ∀ s, current_drawdown_start st = Some s →
      s < k ∧ (0 < peak st)%Q
      ∧ (2 # 100 < (peak st - V !!! s) / peak st)%Q
      ∧ Forall (λ d, dd_end d < s) (drawdown_periods st).

(** *** Win and loss metrics of [indicators.py] (lines 552-598)

    [None] is the [ZeroDivisionError] of [len(positive_returns) /
    len(daily_returns)] on an empty array. *)
Definition calculate_win_loss_metrics (daily_returns : list Q)
    : option (gmap string value) :=
  let positive_returns := filter (λ r, Qltb 0 r) daily_returns in
  let negative_returns := filter (λ r, Qltb r 0) daily_returns in
  if decide (length daily_returns = 0) then None
  else
    let win_rate :=
      (inject_Z (Z.of_nat (length positive_returns))
       / inject_Z (Z.of_nat (length daily_returns)) * 100)%Q in
    let result : gmap string value := {[ "详细胜率" := Fmt 2 win_rate "%" ]} in
    let avg_gain :=
      if decide (0 < length positive_returns)
      then (mean positive_returns * 100)%Q else 0%Q in
    let result :=
      if decide (0 < length positive_returns)
      then <["平均收益(盈利日)" := Fmt 4 avg_gain "%"]> result
      else <["平均收益(盈利日)" := Text "N/A"]> result in
    let avg_loss :=
      if decide (0 < length negative_returns)
      then (mean negative_returns * 100)%Q else 0%Q in
    let result :=
      if decide (0 < length negative_returns)
      then <["平均损失(亏损日)" := Fmt 4 avg_loss "%"]> result
      else <["平均损失(亏损日)" := Text "N/A"]> result in
    let result :=
      if negb (Qeq_bool avg_loss 0)
      then <["收益/损失比" := Fmt 2 (Qabs (avg_gain / avg_loss)) ""]> result
      else <["收益/损失比" := Text "N/A (无损失)"]> result in
    let expectancy :=
      (win_rate / 100 * avg_gain / 100 + (1 - win_rate / 100) * avg_loss / 100)%Q in
    Some (<["每日期望收益" := Fmt 4 (expectancy * 100) "%"]> result).

(** *** The ranks of the concentration coefficient *)

(** [sum((i + 1) * weight for i, weight in enumerate(weights))], counting
    from [k]. *)
Definition rank_sum (k : nat) (l : list Q) : Q :=
  Qsum (imap (λ i weight, (inject_Z (Z.of_nat (k + i + 1)) * weight)%Q) l).

(** *** Time-weighted return of [enhanced_indicators.py] (lines 51-56) *)

(** [np.prod] *)
Definition np_prod (l : list Q) : Q := foldl Qmult 1%Q l.

Definition time_weighted_return (daily_returns : list Q) : value :=
  if decide (0 < length daily_returns) then
    let twr := (np_prod ((λ r, (1 + r)%Q) <$> daily_returns) - 1)%Q in
    Fmt 2 (twr * 100) "%"
  else Text "N/A".

(** ** The endpoint [calculate_portfolio_values] of [app.py] (lines 79-134) *)

Module App.

(** The body of the request. *)
Record PortfolioData := {
  transactions : list Transaction;
  start_date : option date_string;
  end_date : option date_string
}.

(** The answer of the endpoint. *)
Record response := {
  portfolio_value : frame;
  indicators : gmap string value
}.

(** The value of an optional string under [not ...] and [... or ...]:
    [None] and the empty string count as missing. *)
Definition given (d : option date_string) : option date_string :=
  match d with
  | Some (Malformed "") => None
  | _ => d
  end.

(** [min(dates)]; [None] on the empty list. *)
Definition min_date (dates : list Z) : option Z :=
  match dates with
  | [] => None
  | d :: rest => Some (foldl Z.min d rest)
  end.

Section Endpoint.

Variable yf_download : string → date_string → date_string → option prices.
Variable float_pow : Q → Q → Q.
Variable np_sqrt : Q → Q.
Variable np_log : Q → Q.

(** [datetime.now().strftime("%Y-%m-%d")] and the text [str(e)] of an
    exception raised by [calculate_indicators]. *)
Variable today : Z.
Variable str_e : string.

(** Lines 92-98: the start date, defaulting to the earliest buy date.
    [None] is an exception: [fromisoformat] on a malformed buy date, or the
    [ValueError] for a portfolio without transactions. *)
Definition request_start (portfolio_data : PortfolioData) : option date_string :=
  match given (start_date portfolio_data) with
  | Some start_date => Some start_date
  | None =>
      dates ← mapM (λ tx, parse (buy_date tx)) (transactions portfolio_data);
      earliest ← min_date dates;
      Some (ISO earliest)
  end.

(** Line 101. *)
Definition request_end (portfolio_data : PortfolioData) : date_string :=
  default (ISO today) (given (end_date portfolio_data)).

(** The endpoint; [None] is the [HTTPException] with status 500. *)
Definition calculate_portfolio_values (portfolio_data : PortfolioData)
    : option response :=
  start_date ← request_start portfolio_data;
  let end_date := request_end portfolio_data in
  let portfolio_value_df :=
    calculate_portfolio_value yf_download (transactions portfolio_data)
                              start_date end_date in
  let indicators :=
    match calculate_indicators float_pow np_sqrt np_log portfolio_value_df
                               (transactions portfolio_data) with
    | Some indicators => indicators
    | None => {[ "计算错误" := Text str_e ]}
    end in
  Some {| portfolio_value := portfolio_value_df; indicators := indicators |}.

End Endpoint.

End App.

(** ** Sample inputs *)

Definition sample_tx : Transaction :=
  {| symbol := "AAPL"; name := "Apple"; quantity := 1; buy_date := ISO 0;
     buy_price := 100 |}.

Definition sample_frame (total_values : list Q) : frame :=
  {| Date := ISO <$> (Z.of_nat <$> seq 0 (length total_values));
     TotalValue := total_values;
     symbol_columns := {[ "AAPL" := total_values ]} |}.

(** A provider that serves the days it is asked for, the end excluded, out
    of a fixed price history. *)
Definition market (history : prices) (sym : string)
    (start_date end_date : date_string) : option prices :=
  match parse start_date, parse end_date with
  | Some s, Some e =>
      Some (filter (λ p : Z * Q, (s ≤ p.1 ∧ p.1 < e)%Z) history)
  | _, _ => None
  end.

(** Closes on days 3 and 4, none on days 5 and 6, closes again on 7 and 8. *)
Definition weekend_history : prices :=
  [ (3%Z, 100%Q); (4%Z, 100%Q); (7%Z, 110%Q); (8%Z, 110%Q) ].

(** A purchase on day 8, and the provider that serves the whole history
    whatever the range asked for. *)
Definition late_tx : Transaction :=
  {| symbol := "AAPL"; name := "Apple"; quantity := 2; buy_date := ISO 8;
     buy_price := 110 |}.

Definition full_history (sym : string) (start_date end_date : date_string)
    : option prices :=
  Some weekend_history.

(** A fall of 30%, a partial recovery, then a new high. *)
Definition dip_series : list Q := [100; 70; 80; 105; 105]%Q.

(** A provider whose close is 100 on each of the days 0 to 21, and the
    frame of one share held over these 22 days. *)
Definition flat_market (sym : string) (start_date end_date : date_string)
    : option prices :=
  Some ((λ k : nat, (Z.of_nat k, 100%Q)) <$> seq 0 22).

Definition flat_frame : frame :=
  calculate_portfolio_value flat_market [sample_tx] (ISO 0) (ISO 21).

(** * Properties *)

(** ** Comparisons on rationals *)

Lemma Qltb_lt x y : Qltb x y = true ↔ (x < y)%Q.
Proof.
  unfold Qltb. rewrite Qlt_alt. destruct (x ?= y)%Q; split; congruence.
Qed.

Lemma Qltb_ge x y : Qltb x y = false ↔ (y <= x)%Q.
Proof.
  unfold Qltb. rewrite Qle_alt, <- Qgt_alt, Qlt_alt.
  destruct (x ?= y)%Q; split; congruence.
Qed.

Lemma Qleb_le x y : Qleb x y = true ↔ (x <= y)%Q.
Proof.
  unfold Qleb. rewrite Qle_alt. destruct (x ?= y)%Q; split; congruence.
Qed.

Lemma Qleb_gt x y : Qleb x y = false ↔ (y < x)%Q.
Proof.
  unfold Qleb. rewrite Qgt_alt. destruct (x ?= y)%Q; split; congruence.
Qed.

(** ** Daily returns *)

Lemma filter_ext_Forall {A} (P1 P2 : A → Prop)
    `{!∀ x, Decision (P1 x), !∀ x, Decision (P2 x)} (l : list A) :
  Forall (λ x, P1 x ↔ P2 x) l → filter P1 l = filter P2 l.
Proof.
  induction 1 as [|x l Hx _ IH]; [done|].
  rewrite !filter_cons, IH. destruct (decide (P1 x)), (decide (P2 x)); tauto.
Qed.

Lemma filter_fmap_comm {A B} (f : A → B) (P : B → Prop)
    `{!∀ x, Decision (P x)} (l : list A) :
  filter P (f <$> l) = f <$> filter (P ∘ f) l.
Proof.
  induction l as [|x l IH]; [done|].
  rewrite fmap_cons, !filter_cons, IH. simpl.
  destruct (decide (P (f x))); done.
Qed.

Lemma np_where_positive_take (V : list Q) (n : nat) :
  n ≤ length V →
  np_where_positive (take n V) = filter (λ i, Qltb 0 (V !!! i)) (seq 0 n).
Proof.
  intros Hn. unfold np_where_positive.
  rewrite length_take, Nat.min_l by done.
  apply filter_ext_Forall.
  apply Forall_forall. intros i Hi%elem_of_seq.
  rewrite lookup_total_take_lt by lia. done.
Qed.

Lemma daily_returns_by_index (V : list Q) :
  daily_returns V = returns_by_index V.
Proof.
  unfold daily_returns, returns_by_index.
  case_decide as Hlen.
  - rewrite np_where_positive_take by lia.
    generalize (filter (λ i : nat, Qltb 0 (V !!! i)) (seq 0 (length V - 1))).
    intros idx. case_decide as Hidx.
    + induction idx as [|i idx IH]; simpl; [done|].
      f_equal. destruct idx; [done|]. apply IH. simpl. lia.
    + destruct idx; [done | simpl in Hidx; lia].
  - replace (length V - 1) with 0 by lia. done.
Qed.

Lemma returns_by_index_cons (a b : Q) (W : list Q) :
  returns_by_index (a :: b :: W) =
  if Qltb 0 a then ((b - a) / a)%Q :: returns_by_index (b :: W)
  else returns_by_index (b :: W).
Proof.
  unfold returns_by_index.
  replace (length (a :: b :: W) - 1) with (S (length (b :: W) - 1))
    by (simpl; lia).
  rewrite <- cons_seq, <- fmap_S_seq.
  rewrite filter_cons, filter_fmap_comm.
  change ((a :: b :: W) !!! 0) with a.
  assert (∀ l : list nat,
    (λ i : nat, (((a :: b :: W) !!! (i + 1)%nat - (a :: b :: W) !!! i)
            / (a :: b :: W) !!! i)%Q)
      <$> (S <$> filter ((λ i, Qltb 0 ((a :: b :: W) !!! i)) ∘ S) l)
    = (λ i : nat, (((b :: W) !!! (i + 1)%nat - (b :: W) !!! i) / (b :: W) !!! i)%Q)
      <$> filter (λ i, Qltb 0 ((b :: W) !!! i)) l) as Hshift.
  { intros l. rewrite <- list_fmap_compose. done. }
  rewrite <- Hshift.
  case_decide as Ha; simpl in Ha.
  - apply Is_true_true in Ha. rewrite Ha. done.
  - apply Is_true_false in Ha. rewrite Ha. done.
Qed.

Lemma spec_daily_returns_by_index (V : list Q) :
  spec_daily_returns V = returns_by_index V.
Proof.
  induction V as [|a [|b W] IH]; [done | done |].
  rewrite returns_by_index_cons.
  change (spec_daily_returns (a :: b :: W)) with
    (if Qltb 0 a then ((b - a) / a)%Q :: spec_daily_returns (b :: W)
     else spec_daily_returns (b :: W)).
  rewrite IH. done.
Qed.

(** C8.  For every total-value series [V] the daily-return array holds
    [(V[i+1] - V[i]) / V[i]] for exactly the index pairs whose earlier value
    [V[i]] is positive, in index order; a pair whose earlier value is zero or
    negative contributes nothing (no division, no substituted zero).  The
    array is also the one obtained by walking the adjacent pairs as section
    4.3 describes. *)
Theorem daily_returns_positive_pairs (V : list Q) :
  daily_returns V = returns_by_index V
  ∧ daily_returns V = spec_daily_returns V.
Proof.
  split; [apply daily_returns_by_index|].
  rewrite spec_daily_returns_by_index. apply daily_returns_by_index.
Qed.

(** ** Keys of the report *)

Section ReportKeys.

Variable float_pow : Q → Q → Q.
Variable np_sqrt : Q → Q.
Variable np_log : Q → Q.

Lemma calculate_rolling_metrics_value_keys daily_returns window m k :
  window ≤ length daily_returns →
  calculate_rolling_metrics np_sqrt daily_returns window = Some m →
  k ∉ rolling_value_keys window → m !! k = None.
Proof.
  unfold calculate_rolling_metrics, rolling_value_keys. intros Hlen Hm Hk.
  rewrite !not_elem_of_cons in Hk. destruct Hk as (H1 & H2 & H3 & H4 & _).
  case_decide; [lia|].
  destruct (list_min _) as [mn|]; simpl in Hm; [|done].
  destruct (list_max _) as [mx|]; simplify_eq;
    rewrite ?lookup_insert_ne by done; apply lookup_empty.
Qed.

Lemma add_rolling_other daily_returns (indicators m : gmap string value) k :
  add_rolling np_sqrt daily_returns indicators = Some m →
  k ∉ rolling_value_keys 20 → k ∉ rolling_value_keys 60 →
  m !! k = indicators !! k.
Proof.
  unfold add_rolling. intros Hm H20 H60.
  destruct (decide (20 ≤ length daily_returns)).
  - destruct (calculate_rolling_metrics np_sqrt daily_returns 20) as [r20|] eqn:E20;
      simpl in Hm; [|done].
    destruct (decide (60 ≤ length daily_returns)).
    + destruct (calculate_rolling_metrics np_sqrt daily_returns 60) as [r60|] eqn:E60;
        simplify_eq/=.
      rewrite !lookup_union_r; eauto using calculate_rolling_metrics_value_keys.
    + simplify_eq/=.
      rewrite lookup_union_r; eauto using calculate_rolling_metrics_value_keys.
  - simpl in Hm. destruct (decide (60 ≤ length daily_returns)); [lia|].
    by simplify_eq.
Qed.

End ReportKeys.

Ltac by_compute := apply (bool_decide_unpack _); vm_compute; exact I.

Ltac fresh_key :=
  unfold rolling_value_keys, rolling_keys;
  rewrite ?not_elem_of_cons; repeat split;
  try (by vm_compute); try apply not_elem_of_nil.

Section Report.

Variable float_pow : Q → Q → Q.
Variable np_sqrt : Q → Q.
Variable np_log : Q → Q.

Lemma add_rolling_detailed_other daily_returns (indicators : gmap string value) k :
  k ≠ "20日滚动分析" → k ≠ "60日滚动分析" →
  add_rolling_detailed np_sqrt daily_returns indicators !! k = indicators !! k.
Proof.
  intros. unfold add_rolling_detailed. case_decide; [|done].
  by rewrite !lookup_insert_ne.
Qed.

Lemma risk_indicators_other total_values daily_returns ar
    (indicators m : gmap string value) k :
  risk_indicators np_sqrt total_values daily_returns ar indicators = Some m →
  k ∉ risk_keys → k ∉ rolling_value_keys 20 → k ∉ rolling_value_keys 60 →
  m !! k = indicators !! k.
Proof.
  unfold risk_indicators, risk_keys. intros Hm Hk H20 H60.
  rewrite !not_elem_of_cons in Hk. destruct Hk as (H0 & H1 & H2 & H3 & H4 & _).
  case_decide.
  - rewrite (add_rolling_other _ _ _ _ _ Hm H20 H60).
    rewrite lookup_insert_ne by done.
    case_decide; rewrite ?lookup_insert_ne by done;
      rewrite add_rolling_detailed_other by done;
      by rewrite lookup_insert_ne.
  - simplify_eq. by rewrite !lookup_insert_ne.
Qed.

Lemma portfolio_analysis_other df fv (indicators : gmap string value) k :
  k ∉ portfolio_keys →
  portfolio_analysis np_log df fv indicators !! k = indicators !! k.
Proof.
  unfold portfolio_analysis, portfolio_keys. intros Hk.
  rewrite !not_elem_of_cons in Hk. destruct Hk as (H0 & H1 & H2 & H3 & _).
  destruct (_ && _).
  - destruct (max_contributor _); case_decide; by rewrite !lookup_insert_ne.
  - by rewrite !lookup_insert_ne.
Qed.

Lemma risk_indicators_calmar total_values daily_returns ar
    (indicators m : gmap string value) :
  risk_indicators np_sqrt total_values daily_returns ar indicators = Some m →
  m !! "卡尔玛比率" =
  Some (if decide (0 < length daily_returns)
        then calmar_entry (calculate_max_drawdown total_values * 100) ar
        else Text "N/A").
Proof.
  unfold risk_indicators. intros Hm. case_decide.
  - rewrite (add_rolling_other _ _ _ _ _ Hm) by fresh_key.
    by rewrite lookup_insert_eq.
  - simplify_eq. by rewrite lookup_insert_eq.
Qed.

Lemma calculate_indicators_short df txs :
  length (Date df) < 2 →
  calculate_indicators float_pow np_sqrt np_log df txs =
  Some {[ "信息" := Text "数据点不足，无法计算有意义的指标" ]}.
Proof. intros. unfold calculate_indicators. by rewrite decide_True. Qed.

Lemma calculate_indicators_entries df txs r :
  2 ≤ length (Date df) →
  calculate_indicators float_pow np_sqrt np_log df txs = Some r →
  ∃ dates, mapM parse (Date df) = Some dates ∧
    let init := initial_investment txs in
    let fv := final_value (TotalValue df) in
    let ar := annualized_return float_pow (elapsed_days dates) init fv in
    r !! "总收益率" = Some (total_return_entry init fv) ∧
    r !! "年化收益率" = Some ar.1 ∧
    r !! "卡尔玛比率" =
      Some (if decide (0 < length (daily_returns (TotalValue df)))
            then calmar_entry (calculate_max_drawdown (TotalValue df) * 100) ar.2
            else Text "N/A").
Proof.
  intros Hrows. unfold calculate_indicators. rewrite decide_False by lia.
  destruct (mapM parse (Date df)) as [dates|]; [simpl|done].
  fold (elapsed_days dates).
  destruct (risk_indicators _ _ _ _ _) as [m|] eqn:Hm; [simpl|done].
  intros [= <-]. exists dates. split; [done|].
  rewrite !portfolio_analysis_other by (unfold portfolio_keys; fresh_key).
  rewrite !(risk_indicators_other _ _ _ _ _ _ Hm)
    by (unfold risk_keys; fresh_key).
  rewrite (risk_indicators_calmar _ _ _ _ _ Hm).
  rewrite lookup_insert_ne by done. rewrite lookup_singleton_eq.
  by rewrite lookup_insert_eq.
Qed.

End Report.

(** ** Initial investment and total return *)

Lemma initial_investment_floor txs :
  (cost_basis txs <= 0)%Q → initial_investment txs = 1%Q.
Proof.
  intros H%Qleb_le. unfold initial_investment. by rewrite H.
Qed.

Lemma initial_investment_cost_basis txs :
  (0 < cost_basis txs)%Q → initial_investment txs = cost_basis txs.
Proof.
  intros H%Qleb_gt. unfold initial_investment. by rewrite H.
Qed.

Lemma initial_investment_pos txs : (0 < initial_investment txs)%Q.
Proof.
  unfold initial_investment.
  destruct (Qleb (cost_basis txs) 0) eqn:E; [reflexivity|].
  by apply Qleb_gt.
Qed.

Lemma total_return_entry_numeric txs fv :
  total_return_entry (initial_investment txs) fv =
  Fmt 2 (total_return (initial_investment txs) fv) "%".
Proof.
  unfold total_return_entry.
  by rewrite (proj2 (Qltb_lt _ _) (initial_investment_pos txs)).
Qed.

(** The initial investment is floored to [1.0] whenever the cost basis is
    zero or negative, so it is always positive, the guard of the
    total-return division always holds and the "N/A" branch is never taken:
    whenever a report is returned for a frame of at least two rows, its
    total-return entry is a number printed as a percentage. *)
Lemma total_return_entry_reported float_pow np_sqrt np_log df txs r :
  2 ≤ length (Date df) →
  calculate_indicators float_pow np_sqrt np_log df txs = Some r →
  ((cost_basis txs <= 0)%Q → initial_investment txs = 1%Q)
  ∧ (0 < initial_investment txs)%Q
  ∧ (∀ fv, total_return_entry (initial_investment txs) fv ≠ Text "N/A (初始投资为零)")
  ∧ r !! "总收益率" =
      Some (Fmt 2 (total_return (initial_investment txs)
                                (final_value (TotalValue df))) "%").
Proof.
  intros Hrows Hr.
  split; [apply initial_investment_floor|].
  split; [apply initial_investment_pos|].
  split; [intros fv; by rewrite total_return_entry_numeric|].
  destruct (calculate_indicators_entries _ _ _ _ _ _ Hrows Hr)
    as (dates & _ & Htotal & _).
  by rewrite Htotal, total_return_entry_numeric.
Qed.

Ltac report_returned :=
  match goal with
  | |- is_Some ?c =>
      let H := fresh in
      assert (bool_decide (is_Some c) = true) as H by (vm_compute; reflexivity);
      exact (bool_decide_eq_true_1 _ H)
  end.

(** ** Annualized return *)

Section Annualized.

Variable float_pow : Q → Q → Q.
Variable np_sqrt : Q → Q.
Variable np_log : Q → Q.

Lemma annualized_return_compound days initial final :
  (0 < days)%Z → (0 < initial)%Q → (initial < final)%Q →
  annualized_return float_pow days initial final =
  let r := ((float_pow (final / initial) (1 / (inject_Z days / 365)) - 1) * 100)%Q in
  (Fmt 2 r "%", r).
Proof.
  intros Hd Hi Hf. unfold annualized_return.
  rewrite bool_decide_eq_true_2 by done.
  rewrite (proj2 (Qltb_lt _ _) Hi), (proj2 (Qltb_lt _ _) Hf).
  assert (0 < final)%Q as Hpos%Qltb_lt by lra.
  by rewrite Hpos.
Qed.

Lemma annualized_return_simple days initial final :
  (0 < days)%Z → (0 < initial)%Q → (0 < final)%Q → (final <= initial)%Q →
  annualized_return float_pow days initial final =
  let r := ((final - initial) / initial * (365 / inject_Z days) * 100)%Q in
  (Fmt 2 r "%", r).
Proof.
  intros Hd Hi Hpos Hf. unfold annualized_return.
  rewrite bool_decide_eq_true_2 by done.
  rewrite (proj2 (Qltb_lt _ _) Hi), (proj2 (Qltb_lt _ _) Hpos).
  by rewrite (proj2 (Qltb_ge _ _) Hf).
Qed.

Lemma annualized_return_unavailable days initial final :
  (days ≤ 0)%Z ∨ (initial <= 0)%Q ∨ (final <= 0)%Q →
  annualized_return float_pow days initial final = (Text "N/A", 0%Q).
Proof.
  unfold annualized_return. intros [H|[H|H]].
  - by rewrite bool_decide_eq_false_2 by lia.
  - rewrite (proj2 (Qltb_ge _ _) H). by rewrite andb_false_r.
  - rewrite (proj2 (Qltb_ge _ _) H). by rewrite andb_false_r.
Qed.

(** C4, amended.  For a frame with elapsed days above zero and a
    transaction list with a positive cost basis, the annualized-return entry
    goes by branch.  With the final value above the initial investment it is
    the compound rate [(final/initial)^(1/years) - 1], [years = days/365].
    With the final value positive and at most the initial investment it is
    the pro-rated simple rate [(final - initial)/initial * (365/days)].  With
    a final value of zero (or below) the entry is "N/A".  The rates are
    printed as percentages. *)
Theorem annualized_return_by_branch df txs r dates :
  2 ≤ length (Date df) →
  mapM parse (Date df) = Some dates →
  calculate_indicators float_pow np_sqrt np_log df txs = Some r →
  (0 < elapsed_days dates)%Z →
  (0 < cost_basis txs)%Q →
  let days := inject_Z (elapsed_days dates) in
  let initial := cost_basis txs in
  let final := final_value (TotalValue df) in
  ((initial < final)%Q →
     r !! "年化收益率" =
     Some (Fmt 2 ((float_pow (final / initial) (1 / (days / 365)) - 1) * 100)%Q "%"))
  ∧ ((0 < final)%Q → (final <= initial)%Q →
     r !! "年化收益率" =
     Some (Fmt 2 ((final - initial) / initial * (365 / days) * 100)%Q "%"))
  ∧ ((final <= 0)%Q → r !! "年化收益率" = Some (Text "N/A")).
Proof.
  intros Hrows Hdates Hr Hdays Hcost days initial final.
  destruct (calculate_indicators_entries _ _ _ _ _ _ Hrows Hr)
    as (dates' & Hdates' & _ & Hann & _).
  assert (dates' = dates) as -> by congruence.
  rewrite (initial_investment_cost_basis _ Hcost) in Hann.
  fold initial final in Hann. rewrite Hann. clear Hann.
  split; [|split].
  - intros Hgt. by rewrite annualized_return_compound.
  - intros Hpos Hle. by rewrite annualized_return_simple.
  - intros Hzero. rewrite annualized_return_unavailable; auto.
Qed.

End Annualized.

Lemma annualized_return_by_branch_witness :
  let df := sample_frame [100; 120]%Q in
  let float_pow := λ base exponent : Q, (base * base)%Q in
  let report := calculate_indicators float_pow id id df [sample_tx] in
  let initial := cost_basis [sample_tx] in
  let final := final_value (TotalValue df) in
  2 ≤ length (Date df)
  ∧ mapM parse (Date df) = Some [0; 1]%Z
  ∧ is_Some report
  ∧ (0 < elapsed_days [0; 1])%Z
  ∧ (0 < initial)%Q
  ∧ (initial < final)%Q
  ∧ report ≫= (.!! "年化收益率") =
      Some (Fmt 2 ((float_pow (final / initial)
                      (1 / (inject_Z (elapsed_days [0; 1]%Z) / 365)) - 1) * 100)%Q "%").
Proof.
  intros df float_pow report initial final.
  assert (is_Some report) as [r Hr] by report_returned.
  split; [simpl; lia|]. split; [reflexivity|]. split; [by exists r|].
  split; [vm_compute; reflexivity|]. split; [vm_compute; reflexivity|].
  split; [vm_compute; reflexivity|].
  rewrite Hr. simpl.
  apply (annualized_return_by_branch float_pow id id df [sample_tx] r [0; 1]%Z);
    [simpl; lia | reflexivity | exact Hr
    | vm_compute; reflexivity | vm_compute; reflexivity | vm_compute; reflexivity].
Defined.

(** A ticker without price data: every total is zero.  The elapsed days
    and the cost basis are positive and the final value is at most the
    initial investment, yet the entry is "N/A" and not the pro-rated simple
    rate, which would be [-100% * 365/10]. *)
Lemma annualized_return_zero_final_counterexample :
  let txs := [sample_tx] in
  let df := calculate_portfolio_value (λ _ _ _, Some []) txs (ISO 0) (ISO 10) in
  let initial := cost_basis txs in
  let final := final_value (TotalValue df) in
  mapM parse (Date df) = Some (Z.of_nat <$> seq 0 11)
  ∧ (0 < elapsed_days (Z.of_nat <$> seq 0 11))%Z
  ∧ (0 < initial)%Q
  ∧ (final <= initial)%Q
  ∧ ∀ float_pow np_sqrt np_log,
      calculate_indicators float_pow np_sqrt np_log df txs ≫= (.!! "年化收益率")
      = Some (Text "N/A")
      ∧ Text "N/A" ≠ Fmt 2 ((final - initial) / initial * (365 / 10) * 100)%Q "%".
Proof.
  intros txs df initial final.
  split; [reflexivity|]. split; [vm_compute; reflexivity|].
  split; [vm_compute; reflexivity|]. split; [vm_compute; discriminate|].
  intros float_pow np_sqrt np_log.
  split; [vm_compute; reflexivity | discriminate].
Qed.

(** ** Calmar ratio *)

Lemma py_max_ge_l a b : (a <= py_max a b)%Q.
Proof.
  unfold py_max. destruct (Qltb a b) eqn:E.
  - apply Qltb_lt in E. lra.
  - lra.
Qed.

Lemma max_drawdown_step_nonneg acc value :
  (0 <= acc.2)%Q → (0 <= (max_drawdown_step acc value).2)%Q.
Proof.
  intros H. unfold max_drawdown_step.
  destruct (Qltb 0 _); simpl; [|done].
  pose proof (py_max_ge_l acc.2
    ((((if Qltb acc.1 value then value else acc.1) - value)
      / (if Qltb acc.1 value then value else acc.1))%Q)).
  lra.
Qed.

Lemma foldl_max_drawdown_step_nonneg values acc :
  (0 <= acc.2)%Q → (0 <= (foldl max_drawdown_step acc values).2)%Q.
Proof.
  revert acc. induction values as [|x l IH]; intros acc Hacc; simpl; [done|].
  apply IH. by apply max_drawdown_step_nonneg.
Qed.

Lemma calculate_max_drawdown_nonneg values :
  (0 <= calculate_max_drawdown values)%Q.
Proof.
  unfold calculate_max_drawdown. case_decide; [lra|].
  apply foldl_max_drawdown_step_nonneg. simpl. lra.
Qed.

Section Calmar.

Variable float_pow : Q → Q → Q.
Variable np_sqrt : Q → Q.
Variable np_log : Q → Q.

Lemma calmar_entry_ratio mdd ar :
  (0 < mdd)%Q → ¬ (ar == 0)%Q →
  calmar_entry mdd ar = Fmt 2 (Qabs (ar / mdd)) "".
Proof.
  intros Hm%Qltb_lt Ha. unfold calmar_entry. rewrite Hm.
  destruct (Qeq_bool ar 0) eqn:E; [|done].
  by apply Qeq_bool_iff in E.
Qed.

Lemma calmar_entry_unavailable mdd ar :
  (mdd <= 0)%Q ∨ (ar == 0)%Q → calmar_entry mdd ar = Text "N/A".
Proof.
  unfold calmar_entry. intros [H|H].
  - by rewrite (proj2 (Qltb_ge _ _) H).
  - rewrite (proj2 (Qeq_bool_iff _ _) H). by rewrite andb_false_r.
Qed.

(** C7, amended.  When the daily-return array is not empty, the maximum
    drawdown is positive and the annualized return is not zero, the Calmar
    entry is [|annualized return / max drawdown|].  It is "N/A" in every
    other case: with a maximum drawdown of zero, and also with an annualized
    return of zero or without daily returns.  The maximum drawdown is never
    negative. *)
Theorem calmar_entry_cases df txs r dates :
  2 ≤ length (Date df) →
  mapM parse (Date df) = Some dates →
  calculate_indicators float_pow np_sqrt np_log df txs = Some r →
  let max_drawdown := (calculate_max_drawdown (TotalValue df) * 100)%Q in
  let annualized :=
    (annualized_return float_pow (elapsed_days dates) (initial_investment txs)
       (final_value (TotalValue df))).2 in
  (0 <= max_drawdown)%Q
  ∧ (daily_returns (TotalValue df) ≠ [] → (0 < max_drawdown)%Q →
     ¬ (annualized == 0)%Q →
     r !! "卡尔玛比率" = Some (Fmt 2 (Qabs (annualized / max_drawdown)) ""))
  ∧ (daily_returns (TotalValue df) = [] ∨ (max_drawdown == 0)%Q
     ∨ (annualized == 0)%Q →
     r !! "卡尔玛比率" = Some (Text "N/A")).
Proof.
  intros Hrows Hdates Hr max_drawdown annualized.
  destruct (calculate_indicators_entries _ _ _ _ _ _ Hrows Hr)
    as (dates' & Hdates' & _ & _ & Hcalmar).
  assert (dates' = dates) as -> by congruence.
  fold max_drawdown annualized in Hcalmar. rewrite Hcalmar. clear Hcalmar.
  split.
  { pose proof (calculate_max_drawdown_nonneg (TotalValue df)).
    unfold max_drawdown. lra. }
  split.
  - intros Hne Hm Ha. rewrite decide_True.
    + by rewrite calmar_entry_ratio.
    + destruct (daily_returns (TotalValue df)); [done | simpl; lia].
  - intros [Hnil|[Hm|Ha]].
    + rewrite Hnil. by rewrite decide_False by (simpl; lia).
    + case_decide; [|done]. rewrite calmar_entry_unavailable; [done|].
      left. lra.
    + case_decide; [|done]. rewrite calmar_entry_unavailable; auto.
Qed.

End Calmar.

Lemma calmar_entry_cases_witness :
  let df := sample_frame [100; 90; 120]%Q in
  let float_pow := λ base exponent : Q, (base * base)%Q in
  let report := calculate_indicators float_pow id id df [sample_tx] in
  let max_drawdown := (calculate_max_drawdown (TotalValue df) * 100)%Q in
  let annualized :=
    (annualized_return float_pow (elapsed_days [0; 1; 2]%Z)
       (initial_investment [sample_tx]) (final_value (TotalValue df))).2 in
  2 ≤ length (Date df)
  ∧ mapM parse (Date df) = Some [0; 1; 2]%Z
  ∧ is_Some report
  ∧ daily_returns (TotalValue df) ≠ []
  ∧ (0 < max_drawdown)%Q
  ∧ ¬ (annualized == 0)%Q
  ∧ report ≫= (.!! "卡尔玛比率") = Some (Fmt 2 (Qabs (annualized / max_drawdown)) "").
Proof.
  intros df float_pow report max_drawdown annualized.
  assert (is_Some report) as [r Hr] by report_returned.
  assert (daily_returns (TotalValue df) ≠ []) as Hreturns
    by (vm_compute; discriminate).
  assert (0 < max_drawdown)%Q as Hdrawdown by (vm_compute; reflexivity).
  assert (¬ (annualized == 0)%Q) as Hannualized by (vm_compute; discriminate).
  split; [simpl; lia|]. split; [reflexivity|]. split; [by exists r|].
  split; [exact Hreturns|]. split; [exact Hdrawdown|]. split; [exact Hannualized|].
  rewrite Hr. simpl.
  apply (calmar_entry_cases float_pow id id df [sample_tx] r [0; 1; 2]%Z);
    [simpl; lia | reflexivity | exact Hr | exact Hreturns | exact Hdrawdown
    | exact Hannualized].
Defined.

(** A path that falls by 10% and comes back to the amount invested: the
    maximum drawdown is 10, not zero, and the Calmar entry is "N/A" all the
    same, because the annualized return is zero. *)
Lemma calmar_unavailable_counterexample :
  let df := sample_frame [100; 90; 100]%Q in
  (calculate_max_drawdown (TotalValue df) * 100 == 10)%Q
  ∧ daily_returns (TotalValue df) ≠ []
  ∧ ∀ float_pow np_sqrt np_log,
      calculate_indicators float_pow np_sqrt np_log df [sample_tx]
        ≫= (.!! "卡尔玛比率") = Some (Text "N/A").
Proof.
  intros df.
  split; [vm_compute; reflexivity|]. split; [vm_compute; discriminate|].
  intros float_pow np_sqrt np_log. vm_compute. reflexivity.
Qed.

(** ** Concentration of a single holding *)

Section Concentration.

Variable float_pow : Q → Q → Q.
Variable np_sqrt : Q → Q.
Variable np_log : Q → Q.

Lemma calculate_gini_coefficient_single w :
  calculate_gini_coefficient [w] = 1%Q.
Proof. reflexivity. Qed.

Lemma calculate_diversity_score_single w :
  calculate_diversity_score np_log [w] = 0%Q.
Proof.
  unfold calculate_diversity_score. simpl.
  rewrite filter_cons, filter_nil.
  destruct (decide (Qltb 0 (w / 100))); rewrite decide_True; simpl; done || lia.
Qed.

Lemma portfolio_analysis_single df fv (indicators : gmap string value) :
  size (symbol_columns df) = 1 → (0 < fv)%Q →
  let report := portfolio_analysis np_log df fv indicators in
  report !! "投资集中度(基尼系数)" = Some (Text "1.00 (单一投资)")
  ∧ report !! "投资多样性(熵值)" = Some (Text "0.00 (单一投资)").
Proof.
  intros Hsize Hfv%Qltb_lt. unfold portfolio_analysis. rewrite Hfv. simpl.
  set (latest := (λ col : list Q, default 0%Q (last col)) <$> symbol_columns df).
  assert (size latest = 1) as Hlatest by (unfold latest; by rewrite map_size_fmap).
  rewrite bool_decide_eq_true_2; last first.
  { intros ->. by rewrite map_size_empty in Hlatest. }
  rewrite decide_False by (rewrite map_size_fmap; lia).
  destruct (max_contributor _); rewrite lookup_insert_ne by done;
    rewrite lookup_insert_ne by done; rewrite lookup_insert_eq;
    rewrite lookup_insert_ne by done; by rewrite lookup_insert_eq.
Qed.

(** Whenever a report is returned for a frame whose final value is positive
    and that holds exactly one ticker column, it gives the Gini coefficient
    as 1.00 and the entropy diversity as 0.00 (both marked as a single
    holding); these are also the values the two functions return on a single
    weight. *)
Lemma single_holding_concentration_reported df txs r :
  2 ≤ length (Date df) →
  calculate_indicators float_pow np_sqrt np_log df txs = Some r →
  size (symbol_columns df) = 1 →
  (0 < final_value (TotalValue df))%Q →
  r !! "投资集中度(基尼系数)" = Some (Text "1.00 (单一投资)")
  ∧ r !! "投资多样性(熵值)" = Some (Text "0.00 (单一投资)")
  ∧ ∀ w, calculate_gini_coefficient [w] = 1%Q
         ∧ calculate_diversity_score np_log [w] = 0%Q.
Proof.
  intros Hrows Hr Hsize Hfv.
  assert (∃ m, r = portfolio_analysis np_log df (final_value (TotalValue df)) m)
    as [m ->].
  { revert Hr. unfold calculate_indicators. rewrite decide_False by lia.
    destruct (mapM parse (Date df)); [simpl|done].
    destruct (risk_indicators _ _ _ _ _) as [m|]; [simpl|done].
    intros [= <-]. by exists m. }
  destruct (portfolio_analysis_single df _ m Hsize Hfv) as [Hg Hd].
  split; [done|]. split; [done|].
  intros w. split;
    [apply calculate_gini_coefficient_single | apply calculate_diversity_score_single].
Qed.

End Concentration.

(** ** Rolling-window metrics *)

Lemma string_app_inj (s a b : string) : s +:+ a = s +:+ b → a = b.
Proof. induction s as [|c s IH]; simpl; intros H; [done|]. injection H. auto. Qed.

Lemma rolling_key_inj window a b :
  rolling_key window a = rolling_key window b → a = b.
Proof. apply string_app_inj. Qed.

Lemma rolling_key_ne window a b : a ≠ b → rolling_key window a ≠ rolling_key window b.
Proof. intros Hab H. by apply Hab, (rolling_key_inj window). Qed.

Section Rolling.

Variable float_pow : Q → Q → Q.
Variable np_sqrt : Q → Q.
Variable np_log : Q → Q.

Lemma calculate_rolling_detailed_metrics_marker daily_returns window :
  calculate_rolling_detailed_metrics np_sqrt daily_returns window =
    {[ rolling_key window "日滚动分析" := Text "数据点不足" ]}
  ↔ length daily_returns < window.
Proof.
  unfold calculate_rolling_detailed_metrics. split.
  - case_decide as Hshort; [done|]. intros H.
    apply (f_equal (.!! rolling_key window "日滚动胜率")) in H.
    rewrite lookup_insert_eq in H.
    rewrite lookup_singleton_ne in H by (by apply rolling_key_ne).
    done.
  - intros H. by rewrite decide_True.
Qed.

Lemma calculate_rolling_metrics_marker daily_returns window :
  calculate_rolling_metrics np_sqrt daily_returns window =
    Some {[ rolling_key window "日滚动分析" := Text "数据点不足" ]}
  ↔ length daily_returns < window.
Proof.
  unfold calculate_rolling_metrics. split.
  - case_decide as Hshort; [done|].
    destruct (list_min _) as [mn|]; simpl; [|done].
    intros [= H].
    apply (f_equal (.!! rolling_key window "日最低历史波动率")) in H.
    rewrite lookup_insert_eq in H.
    rewrite lookup_singleton_ne in H by (by apply rolling_key_ne).
    done.
  - intros H. by rewrite decide_True.
Qed.

(** A returned flat result for a long enough series holds the rolling
    return. *)
Lemma calculate_rolling_metrics_return daily_returns window m :
  window ≤ length daily_returns →
  calculate_rolling_metrics np_sqrt daily_returns window = Some m →
  is_Some (m !! rolling_key window "日滚动年化收益")
  ∧ is_Some (m !! rolling_key window "日滚动年化波动率").
Proof.
  unfold calculate_rolling_metrics. intros Hlen. rewrite decide_False by lia.
  destruct (list_min _) as [mn|]; simpl; [|done].
  intros [= <-].
  destruct (list_max _) as [mx|];
    rewrite ?(lookup_insert_ne _ (rolling_key window "日最低历史波动率"))
      by (by apply rolling_key_ne);
    rewrite ?(lookup_insert_ne _ (rolling_key window "日最高历史波动率"))
      by (by apply rolling_key_ne);
    rewrite lookup_insert_eq;
    rewrite lookup_insert_ne by (by apply rolling_key_ne);
    rewrite lookup_insert_eq; eauto.
Qed.

Lemma add_rolling_detailed_20 daily_returns (indicators : gmap string value) :
  indicators !! "20日滚动分析" = None →
  add_rolling_detailed np_sqrt daily_returns indicators !! "20日滚动分析" =
  if decide (60 ≤ length daily_returns)
  then Some (Group (calculate_rolling_detailed_metrics np_sqrt daily_returns 20))
  else None.
Proof.
  intros Hnone. unfold add_rolling_detailed. case_decide; [|done].
  rewrite lookup_insert_ne by done. by rewrite lookup_insert_eq.
Qed.

Lemma add_rolling_detailed_60 daily_returns (indicators : gmap string value) :
  indicators !! "60日滚动分析" = None →
  add_rolling_detailed np_sqrt daily_returns indicators !! "60日滚动分析" =
  if decide (60 ≤ length daily_returns)
  then Some (Group (calculate_rolling_detailed_metrics np_sqrt daily_returns 60))
  else None.
Proof.
  intros Hnone. unfold add_rolling_detailed. case_decide; [|done].
  by rewrite lookup_insert_eq.
Qed.

Lemma add_rolling_flat daily_returns (indicators m : gmap string value)
    window suffix :
  window = 20 ∨ window = 60 →
  suffix = "日滚动年化收益" ∨ suffix = "日滚动年化波动率" →
  indicators !! rolling_key window suffix = None →
  add_rolling np_sqrt daily_returns indicators = Some m →
  is_Some (m !! rolling_key window suffix) ↔ window ≤ length daily_returns.
Proof.
  intros Hw Hs Hnone. unfold add_rolling. intros Hm.
  destruct (decide (20 ≤ length daily_returns)) as [H20|H20].
  - destruct (calculate_rolling_metrics np_sqrt daily_returns 20) as [r20|] eqn:E20;
      simpl in Hm; [|done].
    destruct (calculate_rolling_metrics_return _ _ _ H20 E20) as [Hret20 Hvol20].
    destruct (decide (60 ≤ length daily_returns)) as [H60|H60].
    + destruct (calculate_rolling_metrics np_sqrt daily_returns 60) as [r60|] eqn:E60;
        simplify_eq/=.
      destruct (calculate_rolling_metrics_return _ _ _ H60 E60) as [Hret60 Hvol60].
      split; [destruct Hw; subst; lia|]. intros _.
      destruct Hw as [->| ->].
      * rewrite lookup_union_r
          by (apply (calculate_rolling_metrics_value_keys _ _ _ _ _ H60 E60);
              destruct Hs; subst; fresh_key).
        apply lookup_union_is_Some. left. by destruct Hs; subst.
      * apply lookup_union_is_Some. left. by destruct Hs; subst.
    + simplify_eq/=. destruct Hw as [->| ->].
      * split; [done|]. intros _.
        apply lookup_union_is_Some. left. by destruct Hs; subst.
      * rewrite lookup_union_r
          by (apply (calculate_rolling_metrics_value_keys _ _ _ _ _ H20 E20);
              destruct Hs; subst; fresh_key).
        rewrite Hnone. split; [by intros []|lia].
  - simpl in Hm. rewrite decide_False in Hm by lia. simplify_eq.
    rewrite Hnone. split; [by intros []|]. destruct Hw; subst; lia.
Qed.

Lemma risk_indicators_rolling total_values daily_returns ar
    (indicators m : gmap string value) :
  (∀ k, k ∈ risk_keys ++ rolling_value_keys 20 ++ rolling_value_keys 60 →
        indicators !! k = None) →
  risk_indicators np_sqrt total_values daily_returns ar indicators = Some m →
  m !! "20日滚动分析" =
    (if decide (60 ≤ length daily_returns)
     then Some (Group (calculate_rolling_detailed_metrics np_sqrt daily_returns 20))
     else None)
  ∧ m !! "60日滚动分析" =
    (if decide (60 ≤ length daily_returns)
     then Some (Group (calculate_rolling_detailed_metrics np_sqrt daily_returns 60))
     else None)
  ∧ ∀ window suffix,
      window = 20 ∨ window = 60 →
      suffix = "日滚动年化收益" ∨ suffix = "日滚动年化波动率" →
      (is_Some (m !! rolling_key window suffix) ↔ window ≤ length daily_returns).
Proof.
  intros Hfresh. unfold risk_indicators. case_decide as Hne; intros Hm.
  - split; [|split].
    + rewrite (add_rolling_other _ _ _ _ _ Hm) by fresh_key.
      rewrite lookup_insert_ne by done.
      case_decide; rewrite ?lookup_insert_ne by done;
        apply add_rolling_detailed_20; rewrite lookup_insert_ne by done;
        apply Hfresh; by_compute.
    + rewrite (add_rolling_other _ _ _ _ _ Hm) by fresh_key.
      rewrite lookup_insert_ne by done.
      case_decide; rewrite ?lookup_insert_ne by done;
        apply add_rolling_detailed_60; rewrite lookup_insert_ne by done;
        apply Hfresh; by_compute.
    + intros window suffix Hw Hs.
      refine (add_rolling_flat _ _ _ _ _ Hw Hs _ Hm).
      assert (rolling_key window suffix
              ∈ rolling_value_keys 20 ++ rolling_value_keys 60) as Hin.
      { destruct Hw as [->| ->], Hs as [->| ->]; by_compute. }
      assert (rolling_key window suffix ∉ risk_keys) as Hout.
      { destruct Hw as [->| ->], Hs as [->| ->]; unfold risk_keys; fresh_key. }
      unfold risk_keys in Hout. rewrite !not_elem_of_cons in Hout.
      destruct Hout as (H0 & H1 & H2 & H3 & H4 & _).
      rewrite lookup_insert_ne by done.
      case_decide; rewrite ?lookup_insert_ne by done;
        rewrite add_rolling_detailed_other by done;
        rewrite lookup_insert_ne by done; apply Hfresh;
        apply elem_of_app; right; exact Hin.
  - simplify_eq. assert (length daily_returns = 0) as Hlen by lia.
    rewrite Hlen. split; [|split].
    + rewrite !lookup_insert_ne by done. apply Hfresh. by_compute.
    + rewrite !lookup_insert_ne by done. apply Hfresh. by_compute.
    + intros window suffix Hw Hs.
      assert (rolling_key window suffix
              ∈ rolling_value_keys 20 ++ rolling_value_keys 60) as Hin.
      { destruct Hw as [->| ->], Hs as [->| ->]; by_compute. }
      assert (rolling_key window suffix ∉ risk_keys) as Hout.
      { destruct Hw as [->| ->], Hs as [->| ->]; unfold risk_keys; fresh_key. }
      unfold risk_keys in Hout. rewrite !not_elem_of_cons in Hout.
      destruct Hout as (H0 & H1 & H2 & H3 & H4 & _).
      rewrite !lookup_insert_ne by done.
      rewrite Hfresh by (apply elem_of_app; right; exact Hin).
      split; [by intros []|]. destruct Hw; subst; lia.
Qed.

Lemma calculate_indicators_rolling df txs r :
  2 ≤ length (Date df) →
  calculate_indicators float_pow np_sqrt np_log df txs = Some r →
  let daily_returns := daily_returns (TotalValue df) in
  r !! "20日滚动分析" =
    (if decide (60 ≤ length daily_returns)
     then Some (Group (calculate_rolling_detailed_metrics np_sqrt daily_returns 20))
     else None)
  ∧ r !! "60日滚动分析" =
    (if decide (60 ≤ length daily_returns)
     then Some (Group (calculate_rolling_detailed_metrics np_sqrt daily_returns 60))
     else None)
  ∧ ∀ window suffix,
      window = 20 ∨ window = 60 →
      suffix = "日滚动年化收益" ∨ suffix = "日滚动年化波动率" →
      (is_Some (r !! rolling_key window suffix) ↔ window ≤ length daily_returns).
Proof.
  intros Hrows. unfold calculate_indicators. rewrite decide_False by lia.
  destruct (mapM parse (Date df)) as [dates|]; [simpl|done].
  destruct (risk_indicators _ _ _ _ _) as [m|] eqn:Hm; [simpl|done].
  intros [= <-].
  apply risk_indicators_rolling in Hm as (H20 & H60 & Hflat).
  - split; [|split].
    + by rewrite portfolio_analysis_other by (unfold portfolio_keys; fresh_key).
    + by rewrite portfolio_analysis_other by (unfold portfolio_keys; fresh_key).
    + intros window suffix Hw Hs.
      rewrite portfolio_analysis_other; [by apply Hflat|].
      destruct Hw as [->| ->], Hs as [->| ->]; unfold portfolio_keys; fresh_key.
  - intros k Hk.
    assert ("年化收益率" ∉ risk_keys ++ rolling_value_keys 20 ++ rolling_value_keys 60)
      as H1 by (unfold risk_keys; simpl; fresh_key).
    assert ("总收益率" ∉ risk_keys ++ rolling_value_keys 20 ++ rolling_value_keys 60)
      as H2 by (unfold risk_keys; simpl; fresh_key).
    rewrite lookup_insert_ne by (by intros <-).
    by rewrite lookup_singleton_ne by (by intros <-).
Qed.

End Rolling.

(** C6, amended.  Each rolling function answers with the single
    "insufficient data" entry exactly when the series is shorter than the
    window it is given.  [calculate_indicators] itself never reports that
    marker: it asks for the 20-day rolling return and volatility only with
    at least 20 daily returns and for the 60-day ones only with at least 60,
    and it asks for the detailed analyses of both windows only with at least
    60 daily returns; a series too short for a call gets no entry for it. *)
Theorem rolling_metrics_gates float_pow np_sqrt np_log df txs r :
  2 ≤ length (Date df) →
  calculate_indicators float_pow np_sqrt np_log df txs = Some r →
  let returns := daily_returns (TotalValue df) in
  (∀ series window,
     calculate_rolling_detailed_metrics np_sqrt series window =
       {[ rolling_key window "日滚动分析" := Text "数据点不足" ]}
     ↔ length series < window)
  ∧ (∀ series window,
     calculate_rolling_metrics np_sqrt series window =
       Some {[ rolling_key window "日滚动分析" := Text "数据点不足" ]}
     ↔ length series < window)
  ∧ r !! "20日滚动分析" =
      (if decide (60 ≤ length returns)
       then Some (Group (calculate_rolling_detailed_metrics np_sqrt returns 20))
       else None)
  ∧ r !! "60日滚动分析" =
      (if decide (60 ≤ length returns)
       then Some (Group (calculate_rolling_detailed_metrics np_sqrt returns 60))
       else None)
  ∧ (∀ window suffix,
       window = 20 ∨ window = 60 →
       suffix = "日滚动年化收益" ∨ suffix = "日滚动年化波动率" →
       (is_Some (r !! rolling_key window suffix) ↔ window ≤ length returns)).
Proof.
  intros Hrows Hr returns.
  split; [apply calculate_rolling_detailed_metrics_marker|].
  split; [apply calculate_rolling_metrics_marker|].
  apply (calculate_indicators_rolling _ _ _ _ _ _ Hrows Hr).
Qed.

Lemma rolling_metrics_gates_witness :
  let df := sample_frame [100; 120]%Q in
  2 ≤ length (Date df)
  ∧ ∃ r, calculate_indicators (λ _ _, 1%Q) id id df [sample_tx] = Some r
         ∧ r !! "20日滚动分析" =
             (if decide (60 ≤ length (daily_returns (TotalValue df)))
              then Some (Group (calculate_rolling_detailed_metrics id
                                  (daily_returns (TotalValue df)) 20))
              else None).
Proof.
  intros df.
  assert (is_Some (calculate_indicators (λ _ _, 1%Q) id id df [sample_tx]))
    as [r Hr] by report_returned.
  split; [simpl; lia|]. exists r. split; [exact Hr|].
  apply (rolling_metrics_gates (λ _ _, 1%Q) id id df [sample_tx] r);
    [simpl; lia | exact Hr].
Defined.

(** A path of 21 values that doubles every other day has 20 daily returns:
    the series is not shorter than the 20-day window, yet no report holds the
    detailed 20-day analysis (nor a marker in its place), while the 20-day
    rolling return is there.  A path of three values has two daily returns: both windows are
    skipped, and the report holds no "insufficient data" marker for them. *)
Lemma rolling_gate_counterexample :
  let rising := (λ k : nat, inject_Z (2 ^ Z.of_nat (k `div` 2))) <$> seq 0 21 in
  let short := [100; 110; 120]%Q in
  length (daily_returns rising) = 20
  ∧ is_Some (calculate_indicators (λ _ _, 1%Q) id id (sample_frame rising) [sample_tx])
  ∧ (∀ float_pow np_sqrt np_log r,
       calculate_indicators float_pow np_sqrt np_log (sample_frame rising) [sample_tx]
         = Some r →
       r !! "20日滚动分析" = None ∧ is_Some (r !! "20日滚动年化收益"))
  ∧ length (daily_returns short) = 2
  ∧ (∀ float_pow np_sqrt np_log,
       let report :=
         calculate_indicators float_pow np_sqrt np_log (sample_frame short) [sample_tx] in
       is_Some report
       ∧ report ≫= (.!! "20日滚动分析") = None
       ∧ report ≫= (.!! "60日滚动分析") = None
       ∧ report ≫= (.!! "20日滚动年化收益") = None).
Proof.
  intros rising short.
  assert (length (daily_returns rising) = 20) as Hlen by (vm_compute; reflexivity).
  split; [exact Hlen|]. split; [report_returned|]. split.
  - intros float_pow np_sqrt np_log r Hr.
    assert (2 ≤ length (Date (sample_frame rising))) as Hrows by (simpl; lia).
    destruct (calculate_indicators_rolling _ _ _ _ _ _ Hrows Hr) as (H20 & _ & Hflat).
    cbn [TotalValue sample_frame] in H20, Hflat. rewrite Hlen in H20, Hflat.
    split; [exact H20|].
    apply (Hflat 20 "日滚动年化收益"); [by left | by left | lia].
  - split; [vm_compute; reflexivity|].
    intros float_pow np_sqrt np_log report.
    split; [unfold report; report_returned|].
    repeat split; vm_compute; reflexivity.
Qed.

(** ** Sums of rationals *)

Lemma foldl_Qplus_acc (l : list Q) (a : Q) :
  (foldl Qplus a l == a + Qsum l)%Q.
Proof.
  unfold Qsum. revert a.
  induction l as [|x l IH]; intros a; simpl.
  - ring.
  - rewrite (IH (a + x)%Q), (IH (0 + x)%Q). ring.
Qed.

Lemma Qsum_cons x l : (Qsum (x :: l) == x + Qsum l)%Q.
Proof. unfold Qsum at 1. simpl. rewrite foldl_Qplus_acc. ring. Qed.

Lemma Qsum_perm l l' : l ≡ₚ l' → (Qsum l == Qsum l')%Q.
Proof.
  induction 1 as [|x l l' _ IH|x y l|l l' l'' _ IH1 _ IH2].
  - reflexivity.
  - rewrite !Qsum_cons, IH. reflexivity.
  - rewrite !Qsum_cons. ring.
  - by rewrite IH1.
Qed.

Lemma Qsum_zeros l : Forall (λ x, x = 0%Q) l → (Qsum l == 0)%Q.
Proof.
  induction 1 as [|x l -> _ IH]; [reflexivity|].
  rewrite Qsum_cons, IH. ring.
Qed.

(** ** The ticker columns of one row *)

Lemma symbol_total_insert_fresh (cols : gmap string (list Q)) sym col i :
  cols !! sym = None →
  (symbol_total (<[sym := col]> cols) i == col !!! i + symbol_total cols i)%Q.
Proof.
  intros Hfresh. unfold symbol_total.
  rewrite (Qsum_perm _ ((λ c : list Q, c !!! i) <$> ((sym, col) :: map_to_list cols).*2)).
  - simpl. apply Qsum_cons.
  - by rewrite (map_to_list_insert cols sym col Hfresh).
Qed.

Lemma symbol_total_insert (cols : gmap string (list Q)) sym old col i :
  cols !! sym = Some old →
  (symbol_total (<[sym := col]> cols) i
   == symbol_total cols i + (col !!! i - old !!! i))%Q.
Proof.
  intros Hold.
  rewrite <- (insert_delete_eq cols sym col).
  rewrite <- (insert_delete_id cols sym old Hold) at 2.
  rewrite !symbol_total_insert_fresh by apply lookup_delete_eq.
  ring.
Qed.

Lemma symbol_total_zero (cols : gmap string (list Q)) rows i :
  (∀ sym col, cols !! sym = Some col → col = replicate rows 0%Q) →
  (symbol_total cols i == 0)%Q.
Proof.
  intros Hzero. unfold symbol_total. apply Qsum_zeros.
  apply Forall_fmap, Forall_fmap, Forall_forall. intros [sym col] Hin. simpl.
  apply elem_of_map_to_list in Hin. rewrite (Hzero _ _ Hin).
  destruct (decide (i < rows)).
  - by rewrite lookup_total_replicate_2.
  - rewrite list_lookup_total_alt, lookup_ge_None_2; [done|].
    rewrite length_replicate. lia.
Qed.

(** ** The valuation keeps totals and columns in step *)

Lemma new_column_consistent rows total (cols : gmap string (list Q)) sym :
  consistent rows total cols → cols !! sym = None →
  consistent rows total (new_column rows sym cols).
Proof.
  intros (Hlen & Hcols & Hsum) Hfresh. unfold new_column.
  split; [done|]. split.
  - intros s col. rewrite lookup_insert. case_decide.
    + intros [= <-]. apply length_replicate.
    + apply Hcols.
  - intros i Hi. rewrite symbol_total_insert_fresh by done.
    rewrite lookup_total_replicate_2 by done. rewrite (Hsum i Hi). ring.
Qed.

Lemma add_value_consistent rows i sym value (pv : list Q * gmap string (list Q)) :
  consistent rows pv.1 pv.2 →
  consistent rows (add_value i sym value pv).1 (add_value i sym value pv).2.
Proof.
  destruct pv as [total cols0]. simpl. intros Hcons. unfold add_value. simpl.
  set (cols := match cols0 !! sym with
               | Some _ => cols0
               | None => new_column (length total) sym cols0
               end).
  assert (consistent rows total cols ∧ is_Some (cols !! sym)) as [Hc [col Hcol]].
  { unfold cols. destruct (cols0 !! sym) as [c|] eqn:E.
    - split; [done|]. by exists c.
    - destruct Hcons as (Hlen & ?). rewrite Hlen. split.
      + apply new_column_consistent; [|done]. by split.
      + unfold new_column. rewrite lookup_insert_eq. eauto. }
  rewrite (lookup_total_correct _ _ _ Hcol).
  destruct (col !! i) as [cur|] eqn:Hcur; [|done].
  destruct (total !! i) as [tot|] eqn:Htot; [simpl|done].
  destruct Hc as (Hlen & Hcols & Hsum).
  split; [by rewrite length_insert|]. split.
  - intros s c. rewrite lookup_insert. case_decide.
    + intros [= <-]. rewrite length_insert. by apply (Hcols sym).
    + apply Hcols.
  - intros j Hj. rewrite (symbol_total_insert _ _ col) by done.
    destruct (decide (i = j)) as [->|Hne].
    + rewrite !list_lookup_total_insert_eq
        by (rewrite ?Hlen, ?(Hcols _ _ Hcol); done).
      rewrite (list_lookup_total_correct _ _ _ Hcur).
      pose proof (Hsum j Hj) as Hrow.
      rewrite (list_lookup_total_correct _ _ _ Htot) in Hrow.
      rewrite <- Hrow. ring.
    + rewrite !list_lookup_total_insert_ne by done.
      rewrite (Hsum j Hj). ring.
Qed.

Lemma refuse_value_add_value sym (pv : list Q * gmap string (list Q)) :
  refuse_value sym pv = add_value (length pv.1) sym 0%Q pv.
Proof.
  unfold refuse_value, add_value.
  rewrite (lookup_ge_None_2 pv.1 (length pv.1)) by lia.
  by destruct (_ !! length pv.1).
Qed.

Lemma refuse_value_consistent rows sym (pv : list Q * gmap string (list Q)) :
  consistent rows pv.1 pv.2 →
  consistent rows (refuse_value sym pv).1 (refuse_value sym pv).2.
Proof. rewrite refuse_value_add_value. apply add_value_consistent. Qed.

Lemma value_day_consistent rows tx buy stock_df acc row pv' :
  (∀ pv, acc = Some pv → consistent rows pv.1 pv.2) →
  value_day tx buy stock_df acc row = Some pv' →
  consistent rows pv'.1 pv'.2.
Proof.
  intros Hacc. unfold value_day.
  destruct acc as [pv|]; simpl; [|done].
  specialize (Hacc pv eq_refl).
  case_decide; [|by intros [= <-]].
  destruct (find_closest_trading_date _ _); [|by intros [= <-]].
  destruct (loc_Close _ _) as [[price|closes]|]; simpl; [| |done].
  - intros [= <-]. by apply add_value_consistent.
  - intros [= <-]. by apply refuse_value_consistent.
Qed.

Lemma foldl_value_day_consistent rows tx buy stock_df days acc pv' :
  (∀ pv, acc = Some pv → consistent rows pv.1 pv.2) →
  foldl (value_day tx buy stock_df) acc days = Some pv' →
  consistent rows pv'.1 pv'.2.
Proof.
  revert acc. induction days as [|row days IH]; intros acc Hacc; simpl.
  - apply Hacc.
  - apply IH. intros pv Hpv. by eapply value_day_consistent.
Qed.

Lemma value_transactions_consistent rows stock_data index txs pv pv' :
  consistent rows pv.1 pv.2 →
  value_transactions stock_data index txs pv = Some pv' →
  consistent rows pv'.1 pv'.2.
Proof.
  revert pv. induction txs as [|tx txs IH]; intros pv Hpv; simpl.
  - by intros [= <-].
  - destruct (parse (buy_date tx)) as [buy|]; simpl; [|done].
    destruct (stock_data !! symbol tx) as [[|p stock_df]|]; [by apply IH| |by apply IH].
    destruct (foldl _ _ _) as [pv1|] eqn:E; simpl; [|done].
    apply IH. eapply foldl_value_day_consistent; [|exact E].
    by intros ? [= <-].
Qed.

Lemma zero_columns_lookup rows (syms : list string) (base : gmap string (list Q)) sym col :
  (∀ s c, base !! s = Some c → c = replicate rows 0%Q) →
  foldl (λ cols s, new_column rows s cols) base syms !! sym = Some col →
  col = replicate rows 0%Q.
Proof.
  revert base. induction syms as [|s syms IH]; intros base Hbase; simpl.
  - apply Hbase.
  - apply IH. intros s' c. unfold new_column. rewrite lookup_insert.
    case_decide; [by intros [= <-] | apply Hbase].
Qed.

Lemma zero_table_consistent rows (cols : gmap string (list Q)) :
  (∀ s c, cols !! s = Some c → c = replicate rows 0%Q) →
  consistent rows (replicate rows 0%Q) cols.
Proof.
  intros Hzero. split; [apply length_replicate|]. split.
  - intros s c Hc. rewrite (Hzero _ _ Hc). apply length_replicate.
  - intros i Hi. rewrite lookup_total_replicate_2 by done.
    by rewrite (symbol_total_zero _ rows).
Qed.


(** ** Download requests *)

Section Requests.

Variable yf_download : string → date_string → date_string → option prices.

Lemma foldl_download_step_log start_date end_date syms acc :
  (foldl (download_step yf_download start_date end_date) acc syms).1 =
  acc.1 ++ ((λ sym, {| req_symbol := sym; req_start := start_date;
                       req_end := end_date |}) <$> syms).
Proof.
  revert acc. induction syms as [|sym syms IH]; intros acc; simpl.
  - by rewrite app_nil_r.
  - rewrite IH. unfold download_step.
    destruct (yf_download sym start_date end_date); simpl;
      by rewrite <- app_assoc.
Qed.

Lemma download_requests_parsed transactions s e :
  download_requests yf_download transactions (ISO s) (ISO e) =
  (λ sym, {| req_symbol := sym; req_start := ISO s; req_end := ISO e |})
    <$> elements (symbols_of transactions).
Proof.
  unfold download_requests, aggregate, download_all. simpl.
  by rewrite foldl_download_step_log.
Qed.

Lemma filter_eq_absent (syms : list string) sym :
  sym ∉ syms → filter (λ s, s = sym) syms = [].
Proof.
  induction syms as [|s syms IH]; [done|].
  rewrite not_elem_of_cons, filter_cons. intros [Hne Hnotin].
  rewrite decide_False by done. by apply IH.
Qed.

Lemma count_once (syms : list string) sym :
  NoDup syms → sym ∈ syms →
  length (filter (λ s, s = sym) syms) = 1.
Proof.
  induction 1 as [|s syms Hnotin Hnodup IH]; [by intros ?%elem_of_nil|].
  rewrite filter_cons. intros [->|Hin]%elem_of_cons.
  - rewrite decide_True by done. simpl. by rewrite filter_eq_absent.
  - rewrite decide_False by (intros ->; done). by apply IH.
Qed.

(** With a parseable date range [calculate_portfolio_value] asks the
    provider once for every distinct ticker of the transactions and for
    nothing else, and every request runs from the start date itself to the
    end date: no request starts five days before the start date. *)
Lemma download_requests_exact transactions s e :
  let log := download_requests yf_download transactions (ISO s) (ISO e) in
  (∀ sym, sym ∈ symbols_of transactions →
     length (filter (λ r, req_symbol r = sym) log) = 1)
  ∧ (∀ r, r ∈ log →
       req_symbol r ∈ symbols_of transactions
       ∧ req_start r = ISO s ∧ req_end r = ISO e)
  ∧ (∀ r, r ∈ log → req_start r ≠ ISO (s - 5)).
Proof.
  intros log. unfold log. rewrite download_requests_parsed.
  set (mk := λ sym, {| req_symbol := sym; req_start := ISO s; req_end := ISO e |}).
  split; [|split].
  - intros sym Hsym.
    rewrite (filter_fmap_comm mk).  rewrite length_fmap.
    apply (count_once (elements (symbols_of transactions)) sym).
    + apply NoDup_elements.
    + by apply elem_of_elements.
  - intros r (sym & -> & Hsym)%list_elem_of_fmap. simpl.
    split; [by apply elem_of_elements|done].
  - intros r (sym & -> & Hsym)%list_elem_of_fmap. simpl.
    intros [= H]. lia.
Qed.

End Requests.

(** C3, at a start date on a weekend.  One ticker, closes on days 3, 4, 7
    and 8, a range that starts on day 5.  [calculate_portfolio_value] asks
    the provider once, for the days from 5 on: not from day 0, five days
    earlier, as [get_stock_data] does.  So the close of day 4 is never
    fetched, and the rows of days 5 and 6 resolve to no trading date and stay
    at zero. *)
Theorem weekend_start_without_lookback :
  download_requests (market weekend_history) [sample_tx] (ISO 5) (ISO 9)
    = [ {| req_symbol := "AAPL"; req_start := ISO 5; req_end := ISO 9 |} ]
  ∧ (get_stock_data (market weekend_history) "AAPL" (ISO 5) (ISO 9)).1
    = [ {| req_symbol := "AAPL"; req_start := ISO 0; req_end := ISO 9 |} ]
  ∧ find_closest_trading_date
      (default [] (market weekend_history "AAPL" (ISO 5) (ISO 9))) 6 = None
  ∧ find_closest_trading_date
      (default [] (market weekend_history "AAPL" (ISO 0) (ISO 9))) 6 = Some 4%Z
  ∧ TotalValue (calculate_portfolio_value (market weekend_history)
                  [sample_tx] (ISO 5) (ISO 9))
    = [0; 0; 1 * 110; 1 * 110; 1 * 110]%Q.
Proof. repeat split; vm_compute; reflexivity. Qed.

(** ** The fallback frame *)

Lemma loc_Close_elem_of (stock_df : prices) d :
  d ∈ stock_df.*1 → is_Some (loc_Close stock_df d).
Proof.
  intros ([d' close] & -> & Hin)%list_elem_of_fmap. unfold loc_Close.
  assert (close ∈ (filter (λ p : Z * Q, p.1 = (d', close).1) stock_df).*2)
    as Hclose.
  { apply list_elem_of_fmap. exists (d', close). split; [done|].
    by apply list_elem_of_filter. }
  destruct (_.*2) as [|c [|c' closes]]; [|eauto..].
  by apply elem_of_nil in Hclose.
Qed.

Lemma find_closest_trading_date_priced (stock_df : prices) date closest :
  find_closest_trading_date stock_df date = Some closest →
  is_Some (loc_Close stock_df closest).
Proof.
  unfold find_closest_trading_date. intros H%last_Some_elem_of.
  apply loc_Close_elem_of. by apply list_elem_of_filter in H as [_ H].
Qed.

Lemma value_day_returns tx buy stock_df pv row :
  is_Some (value_day tx buy stock_df (Some pv) row).
Proof.
  unfold value_day. simpl. case_decide; [|eauto].
  destruct (find_closest_trading_date _ _) as [closest|] eqn:E; [|eauto].
  destruct (find_closest_trading_date_priced _ _ _ E) as [[price|closes] ->];
    simpl; eauto.
Qed.

Lemma foldl_value_day_returns tx buy stock_df days pv :
  is_Some (foldl (value_day tx buy stock_df) (Some pv) days).
Proof.
  revert pv. induction days as [|row days IH]; intros pv; cbn [foldl]; [eauto|].
  destruct (value_day_returns tx buy stock_df pv row) as [pv' ->]. apply IH.
Qed.

Lemma value_transactions_raises stock_data index txs pv :
  value_transactions stock_data index txs pv = None
  ↔ Exists (λ tx, parse (buy_date tx) = None) txs.
Proof.
  revert pv. induction txs as [|tx txs IH]; intros pv; simpl.
  - split; [done|by intros ?%Exists_nil].
  - rewrite Exists_cons.
    destruct (parse (buy_date tx)) as [buy|]; simpl; [|by split; auto].
    destruct (stock_data !! symbol tx) as [[|p stock_df]|].
    + rewrite IH. split; [auto|by intros [|]].
    + destruct (foldl_value_day_returns tx buy (p :: stock_df)
                  (zip (seq 0 (length index)) index) pv) as [pv' ->].
      simpl. rewrite IH. split; [auto|by intros [|]].
    + rewrite IH. split; [auto|by intros [|]].
Qed.

Section Fallback.

Variable yf_download : string → date_string → date_string → option prices.

(** The body of the [try] raises exactly on a date that does not parse: the
    start or end date of the range, or the buy date of a transaction. *)
Lemma aggregate_raises transactions start_date end_date :
  (aggregate yf_download transactions start_date end_date).2 = None
  ↔ parse start_date = None ∨ parse end_date = None
    ∨ Exists (λ tx, parse (buy_date tx) = None) transactions.
Proof.
  unfold aggregate.
  destruct (parse start_date) as [s|]; [|simpl; by split; auto].
  destruct (parse end_date) as [e|]; [|simpl; by split; auto].
  simpl.
  destruct (value_transactions _ _ _ _) as [pv|] eqn:E; simpl.
  - split; [done|]. intros [|[|H]]; [done|done|].
    eapply value_transactions_raises in H. rewrite E in H. done.
  - apply value_transactions_raises in E. split; auto.
Qed.

Lemma zero_row_columns (syms : list string) (base : gmap string (list Q)) sym :
  foldl (λ cols s, <[s := [0%Q]]> cols) base syms !! sym =
  if decide (sym ∈ syms) then Some [0%Q] else base !! sym.
Proof.
  revert base. induction syms as [|s syms IH]; intros base; cbn [foldl].
  - destruct (decide (sym ∈ [])) as [H|H]; [by apply elem_of_nil in H|done].
  - rewrite IH. rewrite lookup_insert.
    destruct (decide (sym ∈ syms)) as [Hin|Hnotin],
             (decide (sym ∈ s :: syms)) as [Hin'|Hnotin']; try done.
    + exfalso. apply Hnotin'. by right.
    + apply elem_of_cons in Hin' as [->|?]; [|done]. by rewrite decide_True.
    + rewrite decide_False; [done|]. intros ->. apply Hnotin'. by left.
Qed.


End Fallback.


(** ** Drawdown episodes *)

Lemma list_max_snoc l x depth :
  list_max l = Some depth → list_max (l ++ [x]) = Some (py_max depth x).
Proof.
  destruct l as [|a l]; [done|]. simpl. intros [= <-].
  by rewrite foldl_app.
Qed.

Lemma fraction_at_peak v : Qltb (2 # 100) ((v - v) / v) = false.
Proof.
  apply Qltb_ge.
  assert ((v - v) / v == 0)%Q as H by (unfold Qdiv; ring).
  rewrite H. lra.
Qed.

Lemma drawdown_step_related V k st es :
  k < length V →
  drawdown_related V k st es →
  drawdown_related V (S k) (drawdown_step V st (k, V !!! k))
                           (episode_step true es (k, V !!! k)).
Proof.
  intros Hk (Hpeak & Hdone & Hopen).
  unfold drawdown_step, episode_step. simpl.
  rewrite <- Hpeak, <- Hdone.
  destruct (Qltb (peak st) (V !!! k)) eqn:Hnew.
  - (* a new peak *)
    destruct (ep_open es) as [[s depth]|]; simpl.
    + by repeat split.
    + destruct (Qltb 0 (V !!! k)); [rewrite fraction_at_peak|]; by repeat split.
  - destruct (Qltb 0 (peak st)) eqn:Hpos.
    + set (fraction := ((peak st - V !!! k) / peak st)%Q).
      destruct (ep_open es) as [[s depth]|].
      * destruct Hopen as (Hstart & _ & Hs & Hdepth).
        rewrite Hstart. simpl.
        assert (list_max ((λ j, ((peak st - V !!! j) / peak st)%Q)
                            <$> seq s (S k - s)) = Some (py_max depth fraction))
          as Hdepth'.
        { replace (S k - s) with (S (k - s)) by lia.
          rewrite seq_S, fmap_app. simpl.
          replace (s + (k - s)) with k by lia.
          by apply list_max_snoc. }
        destruct (Qltb fraction (5 # 1000)); simpl.
        -- split; [done|]. split; [|done].
           do 3 f_equal. unfold period_depth.
           replace (k + 1 - s) with (S k - s) by lia. by rewrite Hdepth'.
        -- repeat split; try done. lia.
      * rewrite Hopen. simpl.
        destruct (Qltb (2 # 100) fraction) eqn:Hdeep; simpl.
        -- assert (Qltb fraction (5 # 1000) = false) as ->.
           { apply Qltb_ge. apply Qltb_lt in Hdeep. lra. }
           simpl. repeat split; try done; [lia|].
           replace (S k - k) with 1 by lia. done.
        -- by repeat split.
    + (* the peak is not positive: nothing moves *)
      destruct (ep_open es) as [[s depth]|].
      * destruct Hopen as (_ & Hpos' & _). congruence.
      * simpl. by repeat split.
Qed.

Lemma drawdown_scan_related V rest k st es :
  k ≤ length V →
  drop k V = rest →
  drawdown_related V k st es →
  drawdown_related V (length V)
    (foldl (drawdown_step V) st (zip (seq k (length rest)) rest))
    (foldl (episode_step true) es (zip (seq k (length rest)) rest)).
Proof.
  revert k st es. induction rest as [|x rest IH]; intros k st es Hle Hdrop Hrel.
  - simpl. apply drop_nil_inv in Hdrop.
    by replace (length V) with k by lia.
  - assert (V !! k = Some x) as Hx.
    { rewrite <- (Nat.add_0_r k), <- lookup_drop, Hdrop. done. }
    assert (k < length V) as Hk by (by apply lookup_lt_Some in Hx).
    assert (drop (S k) V = rest) as Hdrop'.
    { apply (f_equal (drop 1)) in Hdrop. rewrite drop_drop in Hdrop.
      by rewrite Nat.add_1_r in Hdrop. }
    simpl. rewrite <- (list_lookup_total_correct _ _ _ Hx).
    apply IH; [lia|done|]. by apply drawdown_step_related.
Qed.

(** The episodes the code records are those of the analyzer of the
    specification with one more rule: an episode open at a point that sets a
    new peak is dropped, unrecorded. *)
Lemma detect_drawdown_periods_episodes V :
  detect_drawdown_periods V = episodes true V.
Proof.
  unfold detect_drawdown_periods, episodes, drawdown_scan.
  pose proof (drawdown_scan_related V V 0
    {| peak := V !!! 0%nat; drawdowns := []; drawdown_periods := [];
       current_drawdown_start := None |}
    {| ep_peak := V !!! 0%nat; ep_open := None; ep_done := [] |}) as Hrel.
  destruct Hrel as (Hpeak & Hdone & Hopen); [lia|done|by repeat split|].
  simpl. rewrite <- Hdone.
  destruct (ep_open _) as [[s depth]|].
  - destruct Hopen as (-> & _ & _ & Hdepth). do 3 f_equal.
    unfold period_depth. by rewrite Hdepth.
  - by rewrite Hopen.
Qed.

(** C5, at a drawdown that ends on a new peak.  The path falls by 30% and
    then rises above its old peak.  The drawdown fraction exceeds 2% at index
    1, so an episode opens there, and it is back below 0.5% at index 2; the
    analyzer of the specification records the episode [1, 2] with depth 30/100.
    The code records no episode at all: it reports a maximum drawdown of 30%
    next to a count of zero drawdowns deeper than 5%. *)
Theorem new_peak_drops_episode :
  let V := [100; 70; 105; 105; 105]%Q in
  detect_drawdown_periods V = []
  ∧ episodes false V = [ {| dd_start := 1; dd_end := 2; dd_depth := 30 # 100 |} ]
  ∧ calculate_detailed_drawdown_metrics V !! "最大回撤" = Some (Fmt 2 ((30 # 100) * 100) "%")
  ∧ calculate_detailed_drawdown_metrics V !! "显著回撤次数(>5%)" = Some (Text "0").
Proof. repeat split; vm_compute; reflexivity. Qed.

(** ** The column set of a frame *)

Lemma add_value_dom i sym value (pv : list Q * gmap string (list Q)) :
  dom (add_value i sym value pv).2 = {[sym]} ∪ dom pv.2.
Proof.
  destruct pv as [total cols0]. unfold add_value. simpl.
  set (cols := match cols0 !! sym with
               | Some _ => cols0
               | None => new_column (length total) sym cols0
               end).
  assert (dom cols = {[sym]} ∪ dom cols0) as Hcols.
  { unfold cols. destruct (cols0 !! sym) eqn:E.
    - apply elem_of_dom_2 in E. set_solver.
    - unfold new_column. by rewrite dom_insert_L. }
  destruct (_ !! i); [|done]. destruct (total !! i); [simpl|done].
  rewrite dom_insert_L, Hcols. set_solver.
Qed.

Lemma foldl_value_day_dom (S : gset string) tx buy stock_df days acc pv' :
  symbol tx ∈ S →
  (∀ pv, acc = Some pv → dom pv.2 = S) →
  foldl (value_day tx buy stock_df) acc days = Some pv' →
  dom pv'.2 = S.
Proof.
  intros Hsym. revert acc. induction days as [|row days IH]; intros acc Hacc; simpl.
  - apply Hacc.
  - apply IH. intros pv. unfold value_day.
    destruct acc as [pv0|]; simpl; [|done].
    specialize (Hacc pv0 eq_refl).
    case_decide; [|by intros [= <-]].
    destruct (find_closest_trading_date _ _); [|by intros [= <-]].
    destruct (loc_Close _ _) as [[price|closes]|]; simpl; [| |done].
    + intros [= <-]. rewrite add_value_dom, Hacc. set_solver.
    + intros [= <-]. rewrite refuse_value_add_value, add_value_dom, Hacc.
      set_solver.
Qed.

Lemma value_transactions_dom (S : gset string) stock_data index txs pv pv' :
  Forall (λ tx, symbol tx ∈ S) txs →
  dom pv.2 = S →
  value_transactions stock_data index txs pv = Some pv' →
  dom pv'.2 = S.
Proof.
  intros Hall. revert pv.
  induction Hall as [|tx txs Htx _ IH]; intros pv Hpv; simpl.
  - by intros [= <-].
  - destruct (parse (buy_date tx)) as [buy|]; simpl; [|done].
    destruct (stock_data !! symbol tx) as [[|p stock_df]|]; [by apply IH| |by apply IH].
    destruct (foldl _ _ _) as [pv1|] eqn:E; simpl; [|done].
    apply IH. eapply foldl_value_day_dom; [exact Htx| |exact E].
    by intros ? [= <-].
Qed.

Lemma foldl_insert_dom {A} (f : string → A) (syms : list string)
    (base : gmap string A) :
  dom (foldl (λ cols sym, <[sym := f sym]> cols) base syms)
  = list_to_set syms ∪ dom base.
Proof.
  revert base. induction syms as [|s syms IH]; intros base; simpl.
  - set_solver.
  - rewrite IH, dom_insert_L. set_solver.
Qed.

(** Every frame has one column per distinct ticker of the transactions and
    no other ticker column. *)
Lemma calculate_portfolio_value_columns yf_download transactions start_date end_date :
  dom (symbol_columns
         (calculate_portfolio_value yf_download transactions start_date end_date))
  = symbols_of transactions.
Proof.
  assert (∀ A (f : string → A),
    dom (foldl (λ cols sym, <[sym := f sym]> cols) (∅ : gmap string A)
           (elements (symbols_of transactions))) = symbols_of transactions)
    as Hinit.
  { intros A f. rewrite foldl_insert_dom, dom_empty_L.
    rewrite list_to_set_elements_L. apply (right_id_L ∅ (∪)). }
  unfold calculate_portfolio_value, aggregate.
  destruct (parse start_date) as [s|]; [destruct (parse end_date) as [e|]|];
    simpl; try apply (Hinit _ (λ _, [0%Q])).
  destruct (value_transactions _ _ _ _) as [pv|] eqn:E; simpl;
    [|apply (Hinit _ (λ _, [0%Q]))].
  eapply value_transactions_dom; [| |exact E].
  - apply Forall_forall. intros tx Htx. unfold symbols_of.
    apply elem_of_list_to_set, list_elem_of_fmap. eauto.
  - simpl. apply (Hinit _ (λ _, replicate (length (date_range s e)) 0%Q)).
Qed.

(** A portfolio of a single transaction holds exactly one ticker. *)
Lemma single_transaction_one_column yf_download tx start_date end_date :
  size (symbol_columns
          (calculate_portfolio_value yf_download [tx] start_date end_date)) = 1.
Proof.
  rewrite <- size_dom, calculate_portfolio_value_columns.
  assert (symbols_of [tx] = {[symbol tx]}) as ->
    by (unfold symbols_of; simpl; apply (right_id_L ∅ (∪))).
  apply size_singleton.
Qed.

(** ** The trading-date resolver *)

Lemma find_closest_trading_date_Some (stock_df : prices) date d :
  find_closest_trading_date stock_df date = Some d →
  d ∈ stock_df.*1 ∧ (d ≤ date)%Z.
Proof.
  unfold find_closest_trading_date. intros H%last_Some_elem_of.
  by apply list_elem_of_filter in H as [? ?].
Qed.

Lemma find_closest_trading_date_None (stock_df : prices) date :
  find_closest_trading_date stock_df date = None
  ↔ ∀ d, d ∈ stock_df.*1 → (date < d)%Z.
Proof.
  unfold find_closest_trading_date. rewrite last_None. split.
  - intros Hnil d Hd. destruct (decide (d ≤ date)%Z) as [Hle|]; [|lia].
    exfalso. eapply (filter_nil_not_elem_of _ _ d Hnil); done.
  - intros Hall. destruct (filter _ _) as [|d l] eqn:E; [done|].
    assert (d ∈ filter (λ d, (d ≤ date)%Z) (stock_df.*1)) as Hd
      by (rewrite E; left).
    apply list_elem_of_filter in Hd as [Hle Hin]. specialize (Hall d Hin). lia.
Qed.

Lemma last_filter_greatest (l : list Z) date d :
  StronglySorted Z.lt l →
  last (filter (λ x, (x ≤ date)%Z) l) = Some d →
  ∀ d', d' ∈ l → (d' ≤ date)%Z → (d' ≤ d)%Z.
Proof.
  induction 1 as [|x l Hsorted IH Hx]; [done|].
  rewrite filter_cons. rewrite Forall_forall in Hx.
  case_decide as Hle.
  - rewrite last_cons.
    destruct (last (filter _ l)) as [y|] eqn:Hy.
    + intros [= ->] d' [->|Hin]%elem_of_cons Hd'; [|by apply IH].
      apply last_Some_elem_of, list_elem_of_filter in Hy as [_ Hy].
      specialize (Hx d Hy). lia.
    + intros [= ->] d' [->|Hin]%elem_of_cons Hd'; [lia|].
      apply last_None in Hy. exfalso.
      eapply (filter_nil_not_elem_of _ _ d' Hy); done.
  - intros Hlast d' [->|Hin]%elem_of_cons Hd'; [lia|by apply IH].
Qed.

(** X1.  The resolver returns a date of the price history that is not after
    the target; on a history with increasing dates it is the latest such date.
    It returns nothing exactly when every date of the history (if any) is
    after the target. *)
Theorem find_closest_trading_date_latest (stock_df : prices) date :
  StronglySorted Z.lt (stock_df.*1) →
  match find_closest_trading_date stock_df date with
  | Some d =>
      d ∈ stock_df.*1 ∧ (d ≤ date)%Z
      ∧ ∀ d', d' ∈ stock_df.*1 → (d' ≤ date)%Z → (d' ≤ d)%Z
  | None => ∀ d, d ∈ stock_df.*1 → (date < d)%Z
  end.
Proof.
  intros Hsorted.
  destruct (find_closest_trading_date stock_df date) as [d|] eqn:E.
  - destruct (find_closest_trading_date_Some _ _ _ E) as [Hin Hle].
    split; [done|]. split; [done|].
    by apply (last_filter_greatest _ date).
  - by apply find_closest_trading_date_None.
Qed.

Lemma find_closest_trading_date_latest_witness :
  StronglySorted Z.lt (weekend_history.*1)
  ∧ ∀ d, d ∈ weekend_history.*1 → (d ≤ 6)%Z → (d ≤ 4)%Z.
Proof.
  assert (StronglySorted Z.lt (weekend_history.*1)) as Hsorted.
  { simpl. repeat constructor; lia. }
  split; [exact Hsorted|].
  pose proof (find_closest_trading_date_latest weekend_history 6 Hsorted) as H.
  change (find_closest_trading_date weekend_history 6) with (Some 4%Z) in H.
  apply H.
Defined.

(** A date of the history resolves to itself. *)
Lemma find_closest_trading_date_fixed (stock_df : prices) d :
  StronglySorted Z.lt (stock_df.*1) → d ∈ stock_df.*1 →
  find_closest_trading_date stock_df d = Some d.
Proof.
  intros Hsorted Hin.
  destruct (find_closest_trading_date stock_df d) as [d'|] eqn:E.
  - destruct (find_closest_trading_date_Some _ _ _ E) as [Hin' Hle].
    pose proof (last_filter_greatest _ d d' Hsorted E d Hin). f_equal. lia.
  - pose proof (proj1 (find_closest_trading_date_None _ _) E d Hin). lia.
Qed.

(** ** What the valuation computes *)

Lemma replicate_zero_lookup_total rows i : replicate rows 0%Q !!! i = 0%Q.
Proof.
  destruct (decide (i < rows)).
  - by rewrite lookup_total_replicate_2.
  - rewrite list_lookup_total_alt, lookup_ge_None_2; [done|].
    rewrite length_replicate. lia.
Qed.

Lemma add_value_cells rows i sym value (pv : list Q * gmap string (list Q)) j sym' :
  consistent rows pv.1 pv.2 → i < rows →
  ((add_value i sym value pv).1 !!! j
     == pv.1 !!! j + (if decide (j = i) then value else 0))%Q
  ∧ (cell (add_value i sym value pv).2 sym' j
     == cell pv.2 sym' j + (if decide (sym' = sym ∧ j = i) then value else 0))%Q.
Proof.
  destruct pv as [total cols0]. simpl. intros (Hlen & Hcols & _) Hi.
  unfold add_value. simpl.
  set (cols := match cols0 !! sym with
               | Some _ => cols0
               | None => new_column (length total) sym cols0
               end).
  assert (∃ col, cols !! sym = Some col ∧ length col = rows
                 ∧ (∀ j, col !!! j = cell cols0 sym j)
                 ∧ ∀ s, s ≠ sym → cols !!! s = cols0 !!! s)
    as (col & Hcol & Hcollen & Hcell & Hother).
  { unfold cols, cell. destruct (cols0 !! sym) as [c|] eqn:E.
    - exists c. rewrite (lookup_total_correct _ _ _ E). eauto.
    - exists (replicate rows 0%Q). rewrite Hlen. unfold new_column.
      rewrite lookup_insert_eq. split; [done|]. split; [apply length_replicate|].
      split.
      + intros j'. rewrite replicate_zero_lookup_total.
        rewrite lookup_total_alt, E. simpl. by destruct j'.
      + intros s Hs. by rewrite lookup_total_insert_ne. }
  rewrite (lookup_total_correct _ _ _ Hcol).
  destruct (lookup_lt_is_Some_2 col i) as [cur Hcur]; [lia|].
  destruct (lookup_lt_is_Some_2 total i) as [tot Htot]; [lia|].
  rewrite Hcur, Htot. simpl. split.
  - destruct (decide (j = i)) as [->|Hne].
    + rewrite list_lookup_total_insert_eq by lia.
      by rewrite (list_lookup_total_correct _ _ _ Htot).
    + rewrite list_lookup_total_insert_ne by done. ring.
  - unfold cell. destruct (decide (sym' = sym)) as [->|Hsym].
    + rewrite lookup_total_insert_eq. fold (cell cols0 sym j).
      rewrite <- Hcell.
      destruct (decide (j = i)) as [->|Hne].
      * rewrite decide_True by done.
        rewrite list_lookup_total_insert_eq by lia.
        by rewrite (list_lookup_total_correct _ _ _ Hcur).
      * rewrite decide_False by (intros [_ ?]; done).
        rewrite list_lookup_total_insert_ne by done. ring.
    + rewrite decide_False by (intros [? _]; done).
      rewrite lookup_total_insert_ne by done. rewrite Hother by done. ring.
Qed.

Lemma refuse_value_cell sym (pv : list Q * gmap string (list Q)) sym' j :
  cell (refuse_value sym pv).2 sym' j = cell pv.2 sym' j.
Proof.
  unfold refuse_value, cell. simpl.
  destruct (pv.2 !! sym) eqn:E; [done|]. unfold new_column.
  destruct (decide (sym' = sym)) as [->|Hne].
  - rewrite lookup_total_insert_eq, replicate_zero_lookup_total.
    rewrite lookup_total_alt, E. simpl. by rewrite list_lookup_total_alt.
  - by rewrite lookup_total_insert_ne.
Qed.

Lemma value_day_cells rows tx buy stock_df (pv : list Q * gmap string (list Q)) k d :
  consistent rows pv.1 pv.2 → k < rows →
  ∃ pv1, value_day tx buy stock_df (Some pv) (k, d) = Some pv1
    ∧ consistent rows pv1.1 pv1.2
    ∧ ∀ j sym',
        (pv1.1 !!! j
           == pv.1 !!! j + (if decide (j = k) then day_value tx buy stock_df d else 0))%Q
        ∧ (cell pv1.2 sym' j
           == cell pv.2 sym' j
              + (if decide (sym' = symbol tx ∧ j = k)
                 then day_value tx buy stock_df d else 0))%Q.
Proof.
  intros Hcons Hk. unfold value_day, day_value. simpl.
  assert (∀ j sym',
    (pv.1 !!! j == pv.1 !!! j + (if decide (j = k) then 0 else 0))%Q
    ∧ (cell pv.2 sym' j
       == cell pv.2 sym' j + (if decide (sym' = symbol tx ∧ j = k) then 0 else 0))%Q)
    as Hsame.
  { intros j sym'. split; case_decide; ring. }
  case_decide as Hbuy; [|by exists pv].
  destruct (find_closest_trading_date stock_df d) as [closest|] eqn:E;
    [|by exists pv].
  destruct (find_closest_trading_date_priced _ _ _ E) as [[price|closes] ->];
    simpl.
  - eexists. split; [done|]. split; [by apply add_value_consistent|].
    intros j sym'. by apply (add_value_cells rows).
  - eexists. split; [done|]. split; [by apply refuse_value_consistent|].
    intros j sym'. rewrite refuse_value_cell. apply Hsame.
Qed.

Lemma foldl_value_day_cells rows tx buy stock_df index rest k
    (pv pv' : list Q * gmap string (list Q)) :
  length index = rows → drop k index = rest →
  consistent rows pv.1 pv.2 →
  foldl (value_day tx buy stock_df) (Some pv) (zip (seq k (length rest)) rest)
    = Some pv' →
  consistent rows pv'.1 pv'.2
  ∧ ∀ j sym', j < rows →
      (pv'.1 !!! j
         == pv.1 !!! j
            + (if decide (k ≤ j) then day_value tx buy stock_df (index !!! j) else 0))%Q
      ∧ (cell pv'.2 sym' j
         == cell pv.2 sym' j
            + (if decide (sym' = symbol tx ∧ k ≤ j)
               then day_value tx buy stock_df (index !!! j) else 0))%Q.
Proof.
  intros Hrows. revert k pv.
  induction rest as [|d rest IH]; intros k pv Hdrop Hcons.
  - simpl. intros [= <-]. split; [done|]. intros j sym' Hj.
    apply drop_nil_inv in Hdrop.
    rewrite !decide_False by lia. split; ring.
  - assert (index !! k = Some d) as Hd.
    { rewrite <- (Nat.add_0_r k), <- lookup_drop, Hdrop. done. }
    assert (k < rows) as Hk by (apply lookup_lt_Some in Hd; lia).
    assert (drop (S k) index = rest) as Hdrop'.
    { apply (f_equal (drop 1)) in Hdrop. rewrite drop_drop in Hdrop.
      by rewrite Nat.add_1_r in Hdrop. }
    cbn [length seq zip zip_with foldl].
    destruct (value_day_cells rows tx buy stock_df pv k d Hcons Hk)
      as (pv1 & -> & Hcons1 & Hstep).
    intros Hfold. destruct (IH (S k) pv1 Hdrop' Hcons1 Hfold) as [Hcons' Hrest].
    split; [done|]. intros j sym' Hj.
    destruct (Hrest j sym' Hj) as [Ht Hc]. destruct (Hstep j sym') as [Ht1 Hc1].
    rewrite Ht, Hc, Ht1, Hc1.
    destruct (decide (j = k)) as [->|Hne].
    + rewrite (list_lookup_total_correct _ _ _ Hd).
      rewrite (decide_False (P := S k ≤ k)) by lia.
      rewrite (decide_True (P := k ≤ k)) by lia.
      split; [ring|].
      destruct (decide (sym' = symbol tx)) as [->|Hsym].
      * rewrite (decide_True (P := _ ∧ k = k)) by done.
        rewrite (decide_False (P := _ ∧ S k ≤ k)) by lia.
        rewrite (decide_True (P := _ ∧ k ≤ k)) by done. ring.
      * rewrite !(decide_False (P := sym' = symbol tx ∧ _)) by tauto. ring.
    + destruct (decide (k ≤ j)) as [Hle|Hgt].
      * rewrite (decide_True (P := S k ≤ j)) by lia. split; [ring|].
        destruct (decide (sym' = symbol tx)) as [->|Hsym].
        -- rewrite (decide_False (P := _ ∧ j = k)) by tauto.
           rewrite !(decide_True (P := symbol tx = symbol tx ∧ _)) by (split; [done|lia]).
           ring.
        -- rewrite !(decide_False (P := sym' = symbol tx ∧ _)) by tauto. ring.
      * rewrite (decide_False (P := S k ≤ j)) by lia. split; [ring|].
        rewrite !(decide_False (P := sym' = symbol tx ∧ _)) by lia. ring.
Qed.

Lemma Qsum_filter_cons {A} (f : A → Q) (P : A → Prop) `{!∀ x, Decision (P x)}
    (x : A) (l : list A) :
  (Qsum (f <$> filter P (x :: l))
   == (if decide (P x) then f x else 0) + Qsum (f <$> filter P l))%Q.
Proof.
  rewrite filter_cons. destruct (decide (P x)).
  - rewrite fmap_cons. apply Qsum_cons.
  - ring.
Qed.

Lemma value_transactions_cells rows stock_data index txs
    (pv pv' : list Q * gmap string (list Q)) :
  length index = rows →
  consistent rows pv.1 pv.2 →
  value_transactions stock_data index txs pv = Some pv' →
  ∀ j sym', j < rows →
    (pv'.1 !!! j
       == pv.1 !!! j
          + Qsum ((λ tx, tx_value stock_data tx (index !!! j)) <$> txs))%Q
    ∧ (cell pv'.2 sym' j
       == cell pv.2 sym' j
          + Qsum ((λ tx, tx_value stock_data tx (index !!! j))
                    <$> filter (λ tx, symbol tx = sym') txs))%Q.
Proof.
  intros Hrows. revert pv.
  induction txs as [|tx txs IH]; intros pv Hcons; simpl.
  - intros [= <-] j sym' Hj. split; unfold Qsum; simpl; ring.
  - destruct (parse (buy_date tx)) as [buy|] eqn:Hbuy; simpl; [|done].
    assert (∀ pv1 : list Q * gmap string (list Q),
      consistent rows pv1.1 pv1.2 →
      (∀ j sym', j < rows →
        (pv1.1 !!! j == pv.1 !!! j + tx_value stock_data tx (index !!! j))%Q
        ∧ (cell pv1.2 sym' j
           == cell pv.2 sym' j
              + (if decide (symbol tx = sym')
                 then tx_value stock_data tx (index !!! j) else 0))%Q) →
      value_transactions stock_data index txs pv1 = Some pv' →
      ∀ j sym', j < rows →
        (pv'.1 !!! j
           == pv.1 !!! j
              + Qsum ((λ tx, tx_value stock_data tx (index !!! j)) <$> tx :: txs))%Q
        ∧ (cell pv'.2 sym' j
           == cell pv.2 sym' j
              + Qsum ((λ tx, tx_value stock_data tx (index !!! j))
                        <$> filter (λ tx, symbol tx = sym') (tx :: txs)))%Q)
      as Hnext.
    { intros pv1 Hcons1 Hstep Hrest j sym' Hj.
      destruct (IH pv1 Hcons1 Hrest j sym' Hj) as [Ht Hc].
      destruct (Hstep j sym' Hj) as [Ht1 Hc1].
      rewrite Ht, Hc, Ht1, Hc1, fmap_cons, Qsum_cons.
      rewrite (Qsum_filter_cons (λ tx, tx_value stock_data tx (index !!! j))).
      split; ring. }
    assert (∀ j sym',
      (pv.1 !!! j == pv.1 !!! j + 0)%Q
      ∧ (cell pv.2 sym' j
         == cell pv.2 sym' j + (if decide (symbol tx = sym') then 0 else 0))%Q)
      as Hsame.
    { intros j sym'. split; [|case_decide]; ring. }
    destruct (stock_data !! symbol tx) as [[|p history]|] eqn:Hdata.
    + apply Hnext; [done|]. intros j sym' _. unfold tx_value.
      rewrite Hbuy, Hdata. apply Hsame.
    + destruct (foldl _ _ _) as [pv1|] eqn:Hfold; simpl; [|done].
      apply (foldl_value_day_cells rows tx buy (p :: history) index index 0)
        in Hfold as [Hcons1 Hstep]; [|done..].
      apply Hnext; [done|]. intros j sym' Hj.
      destruct (Hstep j sym' Hj) as [Ht Hc]. rewrite Ht, Hc.
      unfold tx_value. rewrite Hbuy, Hdata.
      rewrite (decide_True (P := 0 ≤ j)) by lia. split; [ring|].
      destruct (decide (symbol tx = sym')) as [<-|Hne].
      * rewrite decide_True by (split; [done|lia]). ring.
      * rewrite decide_False by (intros [-> _]; done). ring.
    + apply Hnext; [done|]. intros j sym' _. unfold tx_value.
      rewrite Hbuy, Hdata. apply Hsame.
Qed.

Section ValuationFormula.

Variable yf_download : string → date_string → date_string → option prices.

Lemma foldl_download_step_data start_date end_date syms acc sym :
  (foldl (download_step yf_download start_date end_date) acc syms).2 !! sym =
  match (if decide (sym ∈ syms) then yf_download sym start_date end_date else None) with
  | Some data => Some data
  | None => acc.2 !! sym
  end.
Proof.
  revert acc. induction syms as [|s syms IH]; intros acc; cbn [foldl].
  - rewrite decide_False by apply not_elem_of_nil. done.
  - rewrite IH. destruct (decide (sym ∈ syms)) as [Hin|Hnotin].
    + rewrite (decide_True (P := sym ∈ s :: syms)) by (by right).
      destruct (yf_download sym start_date end_date) eqn:E; [done|].
      unfold download_step.
      destruct (yf_download s start_date end_date) eqn:Es; simpl; [|done].
      rewrite lookup_insert_ne; [done|]. intros ->. congruence.
    + unfold download_step. destruct (decide (s = sym)) as [->|Hne].
      * rewrite (decide_True (P := sym ∈ sym :: syms)) by (by left).
        destruct (yf_download sym start_date end_date); simpl; [|done].
        by rewrite lookup_insert_eq.
      * rewrite (decide_False (P := sym ∈ s :: syms))
          by (by intros [?|?]%elem_of_cons).
        destruct (yf_download s start_date end_date); simpl; [|done].
        by rewrite lookup_insert_ne.
Qed.

Lemma download_all_data transactions start_date end_date tx :
  tx ∈ transactions →
  (download_all yf_download (elements (symbols_of transactions))
     start_date end_date).2 !! symbol tx
  = yf_download (symbol tx) start_date end_date.
Proof.
  intros Htx. unfold download_all. rewrite foldl_download_step_data.
  rewrite decide_True.
  - simpl. rewrite lookup_empty. by destruct (yf_download _ _ _).
  - apply elem_of_elements. unfold symbols_of.
    apply elem_of_list_to_set, list_elem_of_fmap. eauto.
Qed.

Lemma zero_columns_cell rows (syms : list string) sym i :
  cell (foldl (λ cols s, new_column rows s cols) ∅ syms) sym i = 0%Q.
Proof.
  unfold cell. rewrite lookup_total_alt.
  destruct (foldl _ _ _ !! sym) as [col|] eqn:E; simpl.
  - apply zero_columns_lookup in E as ->; [apply replicate_zero_lookup_total|].
    intros ? ?. by rewrite lookup_empty.
  - by destruct i.
Qed.

Lemma Qsum_fmap_ext {A} (f g : A → Q) (l : list A) :
  (∀ x, x ∈ l → f x = g x) → Qsum (f <$> l) = Qsum (g <$> l).
Proof.
  intros H. f_equal. apply list_fmap_ext. intros i x Hx. apply H.
  by apply list_elem_of_lookup_2 in Hx.
Qed.

Lemma calculate_portfolio_value_cells transactions s e i date :
  Forall (λ tx, is_Some (parse (buy_date tx))) transactions →
  date_range s e !! i = Some date →
  let portfolio_value :=
    calculate_portfolio_value yf_download transactions (ISO s) (ISO e) in
  Date portfolio_value !! i = Some (ISO date)
  ∧ (TotalValue portfolio_value !!! i
     == Qsum (position_value yf_download (ISO s) (ISO e) date <$> transactions))%Q
  ∧ ∀ sym,
      (cell (symbol_columns portfolio_value) sym i
       == Qsum (position_value yf_download (ISO s) (ISO e) date
                  <$> filter (λ tx, symbol tx = sym) transactions))%Q.
Proof.
  intros Hparse Hdate. unfold calculate_portfolio_value, aggregate. simpl.
  set (index := date_range s e) in *.
  set (stock_data := (download_all _ _ _ _).2).
  destruct (value_transactions _ _ _ _) as [pv|] eqn:E; simpl.
  - split; [by rewrite list_lookup_fmap, Hdate|].
    assert (i < length index) as Hi by (by apply lookup_lt_Some in Hdate).
    assert (consistent (length index) (replicate (length index) 0%Q)
              (foldl (λ cols sym, new_column (length index) sym cols) ∅
                 (elements (symbols_of transactions)))) as Hinit.
    { apply zero_table_consistent. intros sym col.
      apply zero_columns_lookup. intros ? ?. by rewrite lookup_empty. }
    pose proof (value_transactions_cells (length index) _ _ _ (_, _) _ eq_refl Hinit E)
      as Hcells.
    assert (∀ l : list Transaction, (∀ tx, tx ∈ l → tx ∈ transactions) →
      Qsum ((λ tx, tx_value stock_data tx (index !!! i)) <$> l)
      = Qsum (position_value yf_download (ISO s) (ISO e) date <$> l)) as Hsum.
    { intros l Hl. apply Qsum_fmap_ext. intros tx Htx.
      unfold tx_value, position_value, stock_data.
      rewrite (download_all_data _ _ _ _ (Hl tx Htx)).
      by rewrite (list_lookup_total_correct _ _ _ Hdate). }
    split.
    + destruct (Hcells i "" Hi) as [Ht _]. simpl in Ht.
      rewrite Ht, replicate_zero_lookup_total, Hsum by done. ring.
    + intros sym. destruct (Hcells i sym Hi) as [_ Hc]. simpl in Hc.
      rewrite Hc, zero_columns_cell, Hsum; [ring|].
      intros tx Htx. by apply list_elem_of_filter in Htx as [_ ?].
  - apply value_transactions_raises in E.
    rewrite Forall_forall in Hparse. apply Exists_exists in E as (tx & Htx & Hnone).
    destruct (Hparse tx Htx) as [? ?]. congruence.
Qed.

Lemma minimal_frame_cells transactions start_date i sym :
  TotalValue (minimal_frame transactions start_date) !!! i = 0%Q
  ∧ cell (symbol_columns (minimal_frame transactions start_date)) sym i = 0%Q.
Proof.
  unfold minimal_frame, cell. simpl. split; [by destruct i as [|[|i]]|].
  rewrite lookup_total_alt, zero_row_columns, lookup_empty.
  case_decide; simpl; by destruct i as [|[|i]].
Qed.

(** The two ways out of [calculate_portfolio_value]: the fallback frame, on
    a malformed date, or one row per day of the range. *)
Lemma calculate_portfolio_value_cases transactions start_date end_date :
  let portfolio_value :=
    calculate_portfolio_value yf_download transactions start_date end_date in
  (portfolio_value = minimal_frame transactions start_date
   ∧ (parse start_date = None ∨ parse end_date = None
      ∨ Exists (λ tx, parse (buy_date tx) = None) transactions))
  ∨ (∃ s e, start_date = ISO s ∧ end_date = ISO e
      ∧ Forall (λ tx, is_Some (parse (buy_date tx))) transactions
      ∧ Date portfolio_value = ISO <$> date_range s e).
Proof.
  simpl.
  destruct ((aggregate yf_download transactions start_date end_date).2)
    as [f|] eqn:E.
  - right. unfold calculate_portfolio_value. rewrite E.
    assert (¬ (parse start_date = None ∨ parse end_date = None
               ∨ Exists (λ tx, parse (buy_date tx) = None) transactions)) as Hok.
    { intros H. apply (aggregate_raises yf_download) in H. rewrite E in H. done. }
    destruct start_date as [s|]; [|exfalso; apply Hok; by left].
    destruct end_date as [e|]; [|exfalso; apply Hok; right; by left].
    exists s, e. split; [done|]. split; [done|]. split.
    + apply Forall_forall. intros tx Htx.
      destruct (parse (buy_date tx)) eqn:Hp; [eauto|].
      exfalso. apply Hok. right. right. apply Exists_exists. eauto.
    + unfold aggregate in E. simpl in E.
      destruct (value_transactions _ _ _ _); simplify_eq/=. done.
  - left. unfold calculate_portfolio_value. rewrite E. split; [done|].
    by apply aggregate_raises in E.
Qed.

End ValuationFormula.

Lemma Qsum_nonneg l : Forall (λ x, (0 <= x)%Q) l → (0 <= Qsum l)%Q.
Proof.
  induction 1 as [|x l Hx _ IH]; [unfold Qsum; simpl; lra|].
  rewrite Qsum_cons. lra.
Qed.

Lemma loc_Close_Some (stock_df : prices) d price :
  loc_Close stock_df d = Some (Scalar price) → (d, price) ∈ stock_df.
Proof.
  unfold loc_Close. intros H.
  assert (price ∈ (filter (λ p : Z * Q, p.1 = d) stock_df).*2) as Hin.
  { destruct (_.*2) as [|c [|c' closes]]; [done| |done].
    injection H as ->. by left. }
  apply list_elem_of_fmap in Hin as ([d' close] & -> & Hp).
  apply list_elem_of_filter in Hp as [Hd Hp]. simpl in Hd. by subst.
Qed.

Lemma day_value_before_buy tx buy stock_df date :
  (date < buy)%Z → day_value tx buy stock_df date = 0%Q.
Proof. intros H. unfold day_value. by rewrite decide_False by lia. Qed.

Lemma day_value_nonneg tx buy stock_df date :
  (0 <= quantity tx)%Q →
  (∀ d price, (d, price) ∈ stock_df → (0 <= price)%Q) →
  (0 <= day_value tx buy stock_df date)%Q.
Proof.
  intros Hq Hp. unfold day_value. case_decide; [|lra].
  destruct (find_closest_trading_date _ _) as [closest|]; [|lra].
  destruct (loc_Close stock_df closest) as [[price|closes]|] eqn:E; [|lra..].
  apply loc_Close_Some, Hp in E. by apply Qmult_le_0_compat.
Qed.

Lemma day_value_carried tx buy stock_df date date' :
  (date' ≤ date)%Z →
  ¬ (date' < buy ≤ date)%Z →
  (∀ t, t ∈ stock_df.*1 → ¬ (date' < t ≤ date)%Z) →
  day_value tx buy stock_df date = day_value tx buy stock_df date'.
Proof.
  intros Hle Hbuy Hquiet. unfold day_value.
  assert (find_closest_trading_date stock_df date
          = find_closest_trading_date stock_df date') as ->.
  { unfold find_closest_trading_date. f_equal. apply filter_ext_Forall.
    apply Forall_forall. intros t Ht. specialize (Hquiet t Ht). lia. }
  destruct (decide (buy ≤ date)%Z), (decide (buy ≤ date')%Z); try done; lia.
Qed.

Section ValuationProperties.

Variable yf_download : string → date_string → date_string → option prices.


(** Row [i] of a frame, read through the two ways out of the valuation:
    all zero, or the sums of the day of that row. *)
Lemma calculate_portfolio_value_row transactions start_date end_date i :
  let portfolio_value :=
    calculate_portfolio_value yf_download transactions start_date end_date in
  i < length (Date portfolio_value) →
  (TotalValue portfolio_value !!! i = 0%Q
   ∧ ∀ sym, cell (symbol_columns portfolio_value) sym i = 0%Q)
  ∨ ∃ date, Date portfolio_value !! i = Some (ISO date)
      ∧ (TotalValue portfolio_value !!! i
         == Qsum (position_value yf_download start_date end_date date
                    <$> transactions))%Q
      ∧ ∀ sym,
          (cell (symbol_columns portfolio_value) sym i
           == Qsum (position_value yf_download start_date end_date date
                      <$> filter (λ tx, symbol tx = sym) transactions))%Q.
Proof.
  intros f Hi.
  destruct (calculate_portfolio_value_cases yf_download transactions
              start_date end_date) as [[Hf _]|(s & e & -> & -> & Hparse & Hdate)].
  - left. unfold f. rewrite Hf. split; [|intros sym];
      apply (minimal_frame_cells transactions start_date i).
    exact "".
  - right. fold f in Hdate. rewrite Hdate, length_fmap in Hi.
    destruct (lookup_lt_is_Some_2 (date_range s e) i Hi) as [date Hd].
    exists date. by apply calculate_portfolio_value_cells.
Qed.

(** X3.  A ticker is worth nothing on a day that lies before the buy date of
    every transaction of that ticker. *)
Theorem cell_zero_before_buy_date transactions start_date end_date i date sym :
  let portfolio_value :=
    calculate_portfolio_value yf_download transactions start_date end_date in
  Date portfolio_value !! i = Some (ISO date) →
  (∀ tx buy, tx ∈ transactions → symbol tx = sym →
             parse (buy_date tx) = Some buy → (date < buy)%Z) →
  (cell (symbol_columns portfolio_value) sym i == 0)%Q.
Proof.
  intros f Hdate Hbuy.
  assert (i < length (Date f)) as Hi by (by apply lookup_lt_Some in Hdate).
  destruct (calculate_portfolio_value_row transactions start_date end_date i Hi)
    as [[_ Hzero]|(date' & Hdate' & _ & Hcell)].
  - fold f in Hzero. by rewrite Hzero.
  - fold f in Hdate', Hcell. assert (date' = date) as -> by congruence.
    rewrite Hcell. apply Qsum_zeros.
    apply Forall_fmap, Forall_forall. intros tx [Hsym Htx]%list_elem_of_filter.
    simpl. unfold position_value.
    destruct (parse (buy_date tx)) as [buy|] eqn:Hp; [|done].
    destruct (yf_download _ _ _) as [[|p history]|]; try done.
    apply day_value_before_buy. by apply (Hbuy tx).
Qed.

(** X4.  A ticker whose download raised or came back empty is worth nothing
    on every row of the frame. *)
Theorem cell_zero_without_data transactions start_date end_date i sym :
  let portfolio_value :=
    calculate_portfolio_value yf_download transactions start_date end_date in
  yf_download sym start_date end_date = None
  ∨ yf_download sym start_date end_date = Some [] →
  i < length (Date portfolio_value) →
  (cell (symbol_columns portfolio_value) sym i == 0)%Q.
Proof.
  intros f Hdata Hi.
  destruct (calculate_portfolio_value_row transactions start_date end_date i Hi)
    as [[_ Hzero]|(date & _ & _ & Hcell)].
  - fold f in Hzero. by rewrite Hzero.
  - fold f in Hcell. rewrite Hcell. apply Qsum_zeros.
    apply Forall_fmap, Forall_forall. intros tx [Hsym Htx]%list_elem_of_filter.
    simpl. unfold position_value. rewrite Hsym.
    destruct (parse (buy_date tx)); [|done].
    by destruct Hdata as [-> | ->].
Qed.

(** X5.  With no negative quantity and no negative close among the fetched
    prices, no cell and no total of the frame is negative. *)
Theorem frame_values_nonnegative transactions start_date end_date i sym :
  let portfolio_value :=
    calculate_portfolio_value yf_download transactions start_date end_date in
  Forall (λ tx, (0 <= quantity tx)%Q) transactions →
  (∀ ticker data d price,
     yf_download ticker start_date end_date = Some data →
     (d, price) ∈ data → (0 <= price)%Q) →
  i < length (Date portfolio_value) →
  (0 <= TotalValue portfolio_value !!! i)%Q
  ∧ (0 <= cell (symbol_columns portfolio_value) sym i)%Q.
Proof.
  intros f Hq Hp Hi. rewrite Forall_forall in Hq.
  destruct (calculate_portfolio_value_row transactions start_date end_date i Hi)
    as [[Htotal Hzero]|(date & _ & Htotal & Hcell)].
  - fold f in Htotal, Hzero. rewrite Htotal, Hzero. split; lra.
  - fold f in Htotal, Hcell. rewrite Htotal, Hcell.
    assert (∀ tx, tx ∈ transactions →
      (0 <= position_value yf_download start_date end_date date tx)%Q) as Hpos.
    { intros tx Htx. unfold position_value.
      destruct (parse (buy_date tx)); [|lra].
      destruct (yf_download _ _ _) as [[|p history]|] eqn:E; try lra.
      apply day_value_nonneg; [by apply Hq|].
      intros d price. by apply (Hp (symbol tx)). }
    split; apply Qsum_nonneg, Forall_fmap, Forall_forall.
    + intros tx Htx. by apply Hpos.
    + intros tx [_ Htx]%list_elem_of_filter. by apply Hpos.
Qed.

(** X6.  Between two days of the range with no purchase and no fetched
    trading day after the earlier one and up to the later one, nothing
    moves: the later row carries the total and every cell of the earlier
    row. *)
Theorem value_carried_forward transactions s e i i' date date' :
  let portfolio_value :=
    calculate_portfolio_value yf_download transactions (ISO s) (ISO e) in
  Forall (λ tx, is_Some (parse (buy_date tx))) transactions →
  date_range s e !! i = Some date →
  date_range s e !! i' = Some date' →
  (date' ≤ date)%Z →
  (∀ tx buy, tx ∈ transactions → parse (buy_date tx) = Some buy →
             ¬ (date' < buy ≤ date)%Z) →
  (∀ tx data t, tx ∈ transactions →
     yf_download (symbol tx) (ISO s) (ISO e) = Some data →
     t ∈ data.*1 → ¬ (date' < t ≤ date)%Z) →
  (TotalValue portfolio_value !!! i == TotalValue portfolio_value !!! i')%Q
  ∧ ∀ sym,
      (cell (symbol_columns portfolio_value) sym i
       == cell (symbol_columns portfolio_value) sym i')%Q.
Proof.
  intros f Hparse Hd Hd' Hle Hbuy Hquiet.
  destruct (calculate_portfolio_value_cells yf_download transactions s e i date
              Hparse Hd) as (_ & Htotal & Hcell).
  destruct (calculate_portfolio_value_cells yf_download transactions s e i' date'
              Hparse Hd') as (_ & Htotal' & Hcell').
  fold f in Htotal, Hcell, Htotal', Hcell'.
  assert (∀ tx, tx ∈ transactions →
    position_value yf_download (ISO s) (ISO e) date tx
    = position_value yf_download (ISO s) (ISO e) date' tx) as Hsame.
  { intros tx Htx. unfold position_value.
    destruct (parse (buy_date tx)) as [buy|] eqn:Hp; [|done].
    destruct (yf_download _ _ _) as [[|p history]|] eqn:E; try done.
    apply day_value_carried; [done|by apply (Hbuy tx)|].
    intros t. by apply (Hquiet tx). }
  split.
  - rewrite Htotal, Htotal'. by rewrite (Qsum_fmap_ext _ _ _ Hsame).
  - intros sym. rewrite Hcell, Hcell'.
    rewrite (Qsum_fmap_ext _ (position_value yf_download (ISO s) (ISO e) date'));
      [done|].
    intros tx [_ Htx]%list_elem_of_filter. by apply Hsame.
Qed.

End ValuationProperties.

Section FrameShape.

Variable yf_download : string → date_string → date_string → option prices.


(** X8.  Every frame, the fallback included, has exactly one ticker column
    per distinct ticker of the transactions. *)
Theorem calculate_portfolio_value_column_set transactions start_date end_date sym :
  is_Some (symbol_columns
             (calculate_portfolio_value yf_download transactions start_date end_date)
           !! sym)
  ↔ ∃ tx, tx ∈ transactions ∧ symbol tx = sym.
Proof.
  rewrite <- elem_of_dom, calculate_portfolio_value_columns.
  unfold symbols_of. rewrite elem_of_list_to_set, list_elem_of_fmap.
  split; intros (tx & ? & ?); eauto.
Qed.

(** X9.  The valuation asks the provider only after the date range has
    parsed: with a malformed start or end date no request is made.  With a
    parseable range it makes one request per distinct ticker, each over the
    start and end dates as given, whether or not the buy dates parse. *)
Theorem download_requests_per_ticker transactions start_date end_date :
  let log := download_requests yf_download transactions start_date end_date in
  (parse start_date = None ∨ parse end_date = None → log = [])
  ∧ (is_Some (parse start_date) → is_Some (parse end_date) →
     NoDup (req_symbol <$> log)
     ∧ ∀ r, r ∈ log ↔
            (∃ tx, tx ∈ transactions ∧ symbol tx = req_symbol r)
            ∧ req_start r = start_date ∧ req_end r = end_date).
Proof.
  intros log. split.
  - unfold log, download_requests, aggregate.
    intros [-> | ->]; [done|]. by destruct (parse start_date).
  - intros [s Hs] [e He].
    destruct start_date as [s'|]; [|done]. destruct end_date as [e'|]; [|done].
    unfold log. rewrite download_requests_parsed.
    split.
    + rewrite <- list_fmap_compose.
      replace (_ <$> elements (symbols_of transactions))
        with (elements (symbols_of transactions)); [apply NoDup_elements|].
      induction (elements (symbols_of transactions)) as [|? ? IH]; [done|].
      simpl. f_equal. exact IH.
    + intros r. rewrite list_elem_of_fmap. setoid_rewrite elem_of_elements.
      unfold symbols_of. setoid_rewrite elem_of_list_to_set.
      setoid_rewrite list_elem_of_fmap. split.
      * intros (sym & -> & tx & -> & Htx). simpl. eauto.
      * intros ((tx & Htx & Hsym) & Hstart & Hend).
        exists (symbol tx). split; [|eauto].
        destruct r. simpl in *. by subst.
Qed.

End FrameShape.

(** ** The valuation on the sample history *)


Lemma cell_zero_before_buy_date_witness :
  let portfolio_value :=
    calculate_portfolio_value full_history [late_tx] (ISO 3) (ISO 9) in
  Date portfolio_value !! 4%nat = Some (ISO 7)
  ∧ (∀ tx buy, tx ∈ [late_tx] → symbol tx = "AAPL" →
               parse (buy_date tx) = Some buy → (7 < buy)%Z)
  ∧ (cell (symbol_columns portfolio_value) "AAPL" 4 == 0)%Q.
Proof.
  intros portfolio_value.
  assert (Date portfolio_value !! 4%nat = Some (ISO 7)) as Hdate
    by (vm_compute; reflexivity).
  assert (∀ tx buy, tx ∈ [late_tx] → symbol tx = "AAPL" →
                    parse (buy_date tx) = Some buy → (7 < buy)%Z) as Hbuy.
  { intros tx buy ->%list_elem_of_singleton _ [= <-]. lia. }
  split; [exact Hdate|]. split; [exact Hbuy|].
  exact (cell_zero_before_buy_date full_history [late_tx] (ISO 3) (ISO 9) 4 7
           "AAPL" Hdate Hbuy).
Defined.

Lemma cell_zero_without_data_witness :
  let portfolio_value :=
    calculate_portfolio_value (λ _ _ _, None) [sample_tx] (ISO 3) (ISO 9) in
  2 < length (Date portfolio_value)
  ∧ (cell (symbol_columns portfolio_value) "AAPL" 2 == 0)%Q.
Proof.
  intros portfolio_value.
  assert (2 < length (Date portfolio_value)) as Hrow by by_compute.
  split; [exact Hrow|].
  exact (cell_zero_without_data (λ _ _ _, None) [sample_tx] (ISO 3) (ISO 9) 2
           "AAPL" (or_introl eq_refl) Hrow).
Defined.

Lemma frame_values_nonnegative_witness :
  let portfolio_value :=
    calculate_portfolio_value full_history [sample_tx; late_tx] (ISO 3) (ISO 9) in
  Forall (λ tx, (0 <= quantity tx)%Q) [sample_tx; late_tx]
  ∧ (∀ ticker data d price,
       full_history ticker (ISO 3) (ISO 9) = Some data →
       (d, price) ∈ data → (0 <= price)%Q)
  ∧ 5 < length (Date portfolio_value)
  ∧ (0 <= TotalValue portfolio_value !!! 5%nat)%Q.
Proof.
  intros portfolio_value.
  assert (Forall (λ tx, (0 <= quantity tx)%Q) [sample_tx; late_tx]) as Hq.
  { repeat constructor; simpl; by vm_compute. }
  assert (∀ ticker data d price,
            full_history ticker (ISO 3) (ISO 9) = Some data →
            (d, price) ∈ data → (0 <= price)%Q) as Hp.
  { intros ticker data d price [= <-] Hin. unfold weekend_history in Hin.
    repeat (apply elem_of_cons in Hin as [[= _ ->]|Hin]; [by vm_compute|]).
    by apply elem_of_nil in Hin. }
  assert (5 < length (Date portfolio_value)) as Hrow by by_compute.
  split; [exact Hq|]. split; [exact Hp|]. split; [exact Hrow|].
  pose proof (frame_values_nonnegative full_history [sample_tx; late_tx]
                (ISO 3) (ISO 9) 5 "AAPL" Hq Hp Hrow) as H.
  cbv zeta in H. destruct H as [H _]. exact H.
Defined.

Lemma value_carried_forward_witness :
  let portfolio_value :=
    calculate_portfolio_value full_history [sample_tx] (ISO 3) (ISO 9) in
  Forall (λ tx, is_Some (parse (buy_date tx))) [sample_tx]
  ∧ date_range 3 9 !! 3%nat = Some 6%Z
  ∧ date_range 3 9 !! 1%nat = Some 4%Z
  ∧ (TotalValue portfolio_value !!! 3%nat == TotalValue portfolio_value !!! 1%nat)%Q.
Proof.
  intros portfolio_value.
  assert (Forall (λ tx, is_Some (parse (buy_date tx))) [sample_tx]) as Hparse
    by (repeat constructor; simpl; eauto).
  assert (date_range 3 9 !! 3%nat = Some 6%Z) as Hd by by_compute.
  assert (date_range 3 9 !! 1%nat = Some 4%Z) as Hd' by by_compute.
  assert (4 ≤ 6)%Z as Hle by lia.
  assert (∀ tx buy, tx ∈ [sample_tx] → parse (buy_date tx) = Some buy →
                    ¬ (4 < buy ≤ 6)%Z) as Hbuy.
  { intros tx buy ->%list_elem_of_singleton [= <-]. lia. }
  assert (∀ tx data t, tx ∈ [sample_tx] →
            full_history (symbol tx) (ISO 3) (ISO 9) = Some data →
            t ∈ data.*1 → ¬ (4 < t ≤ 6)%Z) as Hquiet.
  { intros tx data t _ [= <-] Ht. unfold weekend_history in Ht. simpl in Ht.
    repeat (apply elem_of_cons in Ht as [->|Ht]; [lia|]).
    by apply elem_of_nil in Ht. }
  split; [exact Hparse|]. split; [exact Hd|]. split; [exact Hd'|].
  pose proof (value_carried_forward full_history [sample_tx] 3 9 3 1 6 4 Hparse
                Hd Hd' Hle Hbuy Hquiet) as H.
  cbv zeta in H. destruct H as [H _]. exact H.
Defined.

(** ** Streaks *)

Lemma run_of_ones_app_l l x k n :
  k + n ≤ length l → run_of_ones (l ++ [x]) k n → run_of_ones l k n.
Proof.
  intros Hkn Hrun j Hj. rewrite <- (Hrun j Hj). symmetry. apply lookup_app_l. lia.
Qed.

Lemma run_of_ones_app_r l x k n :
  run_of_ones l k n → run_of_ones (l ++ [x]) k n.
Proof.
  intros Hrun j Hj. specialize (Hrun j Hj).
  rewrite lookup_app_l; [done|]. by apply lookup_lt_Some in Hrun.
Qed.

Lemma run_of_ones_bound l k n : 0 < n → run_of_ones l k n → k + n ≤ length l.
Proof.
  intros Hn Hrun. specialize (Hrun (k + n - 1) ltac:(lia)).
  apply lookup_lt_Some in Hrun. lia.
Qed.

Lemma max_streak_scan (l : list Z) :
  let acc := foldl max_streak_step (0, 0) l in
  acc.2 ≤ acc.1
  ∧ acc.2 ≤ length l
  ∧ run_of_ones l (length l - acc.2) acc.2
  ∧ (acc.2 < length l → l !! (length l - acc.2 - 1) ≠ Some 1%Z)
  ∧ (∃ k, k + acc.1 ≤ length l ∧ run_of_ones l k acc.1)
  ∧ ∀ k n, run_of_ones l k n → n ≤ acc.1.
Proof.
  induction l as [|x l IH] using rev_ind.
  - simpl. split; [lia|]. split; [lia|]. split; [intros j; lia|].
    split; [lia|]. split; [exists 0; split; [lia|intros j; lia]|].
    intros k n Hrun. destruct n; [lia|].
    specialize (Hrun k ltac:(lia)). done.
  - rewrite foldl_app. simpl.
    destruct (foldl max_streak_step (0, 0) l) as [m c]. simpl in IH.
    destruct IH as (Hcm & Hcl & Hsuffix & Hstop & (k0 & Hk0 & Hbest) & Hall).
    rewrite length_app. simpl. unfold max_streak_step. simpl.
    destruct (decide (x = 1%Z)) as [->|Hx]; simpl.
    + split; [lia|]. split; [lia|].
      assert (run_of_ones (l ++ [1%Z]) (length l + 1 - (c + 1)) (c + 1)) as Hnew.
      { intros j Hj. destruct (decide (j < length l)) as [Hlt|Hge].
        - rewrite lookup_app_l by done. apply Hsuffix. lia.
        - assert (j = length l) as -> by lia.
          rewrite lookup_app_r by lia. by rewrite Nat.sub_diag. }
      split; [exact Hnew|]. split.
      { intros Hlt. rewrite lookup_app_l by lia.
        replace (length l + 1 - (c + 1) - 1) with (length l - c - 1) by lia.
        apply Hstop. lia. }
      split.
      { destruct (decide (m ≤ c + 1)).
        - exists (length l + 1 - (c + 1)). rewrite Nat.max_r by done.
          split; [lia|exact Hnew].
        - exists k0. rewrite Nat.max_l by lia. split; [lia|].
          by apply run_of_ones_app_r. }
      intros k n Hrun. destruct (decide (n = 0)) as [->|Hn]; [lia|].
      pose proof (run_of_ones_bound _ k n ltac:(lia) Hrun) as Hb.
      rewrite length_app in Hb. simpl in Hb.
      destruct (decide (k + n ≤ length l)) as [Hin|Hend].
      * pose proof (Hall k n (run_of_ones_app_l _ _ _ _ Hin Hrun)). lia.
      * destruct (decide (n ≤ c + 1)); [lia|]. exfalso.
        apply Hstop; [lia|].
        rewrite <- (lookup_app_l l [1%Z]) by lia. apply Hrun. lia.
    + split; [lia|]. split; [lia|]. split; [intros j; lia|]. split.
      { intros _. replace (length l + 1 - 0 - 1) with (length l) by lia.
        rewrite lookup_app_r by lia. rewrite Nat.sub_diag. simpl. congruence. }
      split; [exists k0; split; [lia|by apply run_of_ones_app_r]|].
      intros k n Hrun. destruct (decide (n = 0)) as [->|Hn]; [lia|].
      pose proof (run_of_ones_bound _ k n ltac:(lia) Hrun) as Hb.
      rewrite length_app in Hb. simpl in Hb.
      destruct (decide (k + n ≤ length l)) as [Hin|Hend].
      * exact (Hall k n (run_of_ones_app_l _ _ _ _ Hin Hrun)).
      * exfalso. specialize (Hrun (length l) ltac:(lia)).
        rewrite lookup_app_r, Nat.sub_diag in Hrun by lia. simpl in Hrun.
        congruence.
Qed.

(** X10.  [calculate_max_streak] returns the length of the longest run of
    consecutive entries equal to 1: some run of that length exists in the
    array, and no run of ones is longer. *)
Theorem calculate_max_streak_longest_run (binary_array : list Z) :
  let longest := calculate_max_streak binary_array in
  (∃ k, k + longest ≤ length binary_array ∧ run_of_ones binary_array k longest)
  ∧ ∀ k n, run_of_ones binary_array k n → n ≤ longest.
Proof.
  intros longest. pose proof (max_streak_scan binary_array) as H.
  simpl in H. tauto.
Qed.

Lemma max_list_snoc (l : list nat) (n : nat) :
  max_list (l ++ [n]) = max_list l `max` n.
Proof. induction l as [|x l IH]; simpl; [lia|]. rewrite IH. lia. Qed.

Lemma sum_list_snoc (l : list nat) (n : nat) :
  sum_list (l ++ [n]) = sum_list l + n.
Proof. induction l as [|x l IH]; simpl; [lia|]. rewrite IH. lia. Qed.

(** The two streak counters walk in step: same current streak, and the
    maximum of the one is the largest of the recorded streaks and the open
    one of the other. *)
Lemma streak_scan_agree (l : list bool) :
  let a := foldl streak_step ([], 0) l in
  let b := foldl max_streak_step (0, 0) ((λ v : bool, if v then 1%Z else 0%Z) <$> l) in
  b.2 = a.2 ∧ b.1 = max_list a.1 `max` a.2
  ∧ Forall (λ n, 0 < n) a.1
  ∧ sum_list a.1 + a.2 = length (filter (λ v : bool, v = true) l).
Proof.
  induction l as [|x l IH] using rev_ind; [by repeat split|].
  rewrite fmap_app, !foldl_app, filter_app, length_app. simpl.
  destruct (foldl streak_step ([], 0) l) as [streaks c].
  destruct (foldl max_streak_step _ _) as [m c']. simpl in IH.
  destruct IH as (-> & -> & Hpos & Hsum).
  unfold streak_step, max_streak_step. simpl. destruct x; simpl.
  - change (length (filter (λ v : bool, v = true) [true])) with 1.
    split; [done|]. split; [lia|]. split; [done|]. lia.
  - change (length (filter (λ v : bool, v = true) [false])) with 0.
    destruct (decide (0 < c)); simpl.
    + rewrite max_list_snoc, sum_list_snoc.
      split; [done|]. split; [lia|].
      split; [apply Forall_app; split; [done|by repeat constructor]|]. lia.
    + split; [lia|]. split; [lia|]. split; [done|]. lia.
Qed.

Lemma streaks_of_spec (l : list bool) :
  max_list (streaks_of l)
  = calculate_max_streak ((λ v : bool, if v then 1%Z else 0%Z) <$> l)
  ∧ Forall (λ n, 0 < n) (streaks_of l)
  ∧ sum_list (streaks_of l) = length (filter (λ v : bool, v = true) l).
Proof.
  pose proof (streak_scan_agree l) as H. simpl in H.
  unfold streaks_of, calculate_max_streak.
  destruct (foldl streak_step ([], 0) l) as [streaks c].
  destruct (foldl max_streak_step _ _) as [m c']. simpl in *.
  destruct H as (-> & -> & Hpos & Hsum).
  destruct (decide (0 < c)).
  - rewrite max_list_snoc, sum_list_snoc.
    split; [lia|]. split; [|lia].
    apply Forall_app; split; [done|by repeat constructor].
  - split; [lia|]. split; [done|lia].
Qed.

(** X11.  The streak counters of the two modules agree: the ['max_streak'] of
    [calculate_streak_metrics] on a boolean array is what
    [calculate_max_streak] returns on the same array written with 1 and 0.
    In particular the longest winning and losing streaks of the detailed
    win/loss analysis equal those of the main report. *)
Theorem calculate_streak_metrics_max_agrees (daily_returns : list Q) :
  (∀ binary_array : list bool,
     max_streak (calculate_streak_metrics binary_array)
     = calculate_max_streak ((λ v : bool, if v then 1%Z else 0%Z) <$> binary_array))
  ∧ max_streak (calculate_streak_metrics (Qltb 0 <$> daily_returns))
    = calculate_max_streak (up_days daily_returns)
  ∧ max_streak (calculate_streak_metrics ((λ r, Qltb r 0) <$> daily_returns))
    = calculate_max_streak (down_days daily_returns).
Proof.
  assert (∀ binary_array : list bool,
     max_streak (calculate_streak_metrics binary_array)
     = calculate_max_streak ((λ v : bool, if v then 1%Z else 0%Z) <$> binary_array))
    as Hagree.
  { intros l. destruct (streaks_of_spec l) as (Hmax & _ & _).
    unfold calculate_streak_metrics.
    destruct (streaks_of l) eqn:E; simpl; [by rewrite <- Hmax|].
    by rewrite <- Hmax. }
  split; [exact Hagree|].
  split; rewrite Hagree; f_equal; unfold up_days, down_days;
    rewrite <- list_fmap_compose; by apply list_fmap_ext.
Qed.

(** X12.  Every streak [calculate_streak_metrics] records is at least one day
    long, and the streaks add up to the number of true entries, so the
    average streak times the number of streaks is the number of true
    entries; without a true entry both results are zero. *)
Theorem calculate_streak_metrics_streaks (binary_array : list bool) :
  let streaks := streaks_of binary_array in
  let wins := length (filter (λ v : bool, v = true) binary_array) in
  Forall (λ n, 0 < n) streaks
  ∧ sum_list streaks = wins
  ∧ (avg_streak (calculate_streak_metrics binary_array)
     * inject_Z (Z.of_nat (length streaks)) == inject_Z (Z.of_nat wins))%Q
  ∧ (wins = 0 →
     calculate_streak_metrics binary_array = {| max_streak := 0; avg_streak := 0 |}).
Proof.
  intros streaks wins.
  destruct (streaks_of_spec binary_array) as (_ & Hpos & Hsum).
  fold streaks in Hpos, Hsum. fold wins in Hsum.
  split; [done|]. split; [done|]. split.
  - unfold calculate_streak_metrics. fold streaks.
    destruct streaks as [|n rest] eqn:E.
    + simpl in *. rewrite <- Hsum. reflexivity.
    + unfold avg_streak, mean. rewrite length_fmap.
      assert (Qsum ((λ n0 : nat, inject_Z (Z.of_nat n0)) <$> n :: rest)
              == inject_Z (Z.of_nat (sum_list (n :: rest))))%Q as ->.
      { clear. generalize (n :: rest). intros l.
        induction l as [|x l IH]; [reflexivity|].
        rewrite fmap_cons, Qsum_cons, IH. simpl sum_list.
        rewrite Nat2Z.inj_add, inject_Z_plus. reflexivity. }
      rewrite Hsum. field.
      change 0%Q with (inject_Z 0). rewrite inject_Z_injective. simpl. lia.
  - intros Hwins. unfold calculate_streak_metrics. fold streaks.
    destruct streaks as [|n rest]; [done|].
    apply Forall_cons in Hpos as [Hn _]. simpl in Hsum. lia.
Qed.

(** ** The maximum drawdown *)

Lemma py_max_ge_r a b : (b <= py_max a b)%Q.
Proof.
  unfold py_max. destruct (Qltb a b) eqn:E; [lra|].
  apply Qltb_ge in E. lra.
Qed.

Lemma py_max_cases a b : py_max a b = a ∨ py_max a b = b.
Proof. unfold py_max. destruct (Qltb a b); auto. Qed.

(** The decline from [vi] down to [vj], as a fraction of [vi]. *)
Lemma decline_le_drawdown (vi vj m : Q) :
  (0 < vi)%Q → (vi <= m)%Q → (0 <= vj)%Q →
  ((vi - vj) / vi <= (m - vj) / m)%Q.
Proof.
  intros Hvi Hm Hvj.
  apply Qle_shift_div_l; [lra|].
  assert ((vi - vj) / vi * m == (vi - vj) * m / vi)%Q as -> by (field; lra).
  apply Qle_shift_div_r; [lra|]. nra.
Qed.

Lemma decline_pos (vj m : Q) : (0 < m)%Q → (vj < m)%Q → (0 < (m - vj) / m)%Q.
Proof.
  intros Hm Hlt. apply Qlt_shift_div_l; [done|]. lra.
Qed.

Lemma decline_le_one (vi vj : Q) :
  (0 < vi)%Q → (0 <= vj)%Q → ((vi - vj) / vi <= 1)%Q.
Proof. intros Hvi Hvj. apply Qle_shift_div_r; [done|]. lra. Qed.

Lemma decline_nonpos (vi vj : Q) :
  (0 < vi)%Q → (vi <= vj)%Q → ((vi - vj) / vi <= 0)%Q.
Proof. intros Hvi Hvj. apply Qle_shift_div_r; [done|]. lra. Qed.

Lemma max_drawdown_scan (v0 : Q) (p : list Q) :
  (p ≠ [] → p !! 0 = Some v0) →
  drawdown_invariant v0 p (foldl max_drawdown_step (v0, 0%Q) p).
Proof.
  induction p as [|x p IH] using rev_ind; intros Hhead.
  - simpl. unfold drawdown_invariant. simpl.
    split; [by intros x ?%elem_of_nil|]. split; [by left|]. split; [lra|].
    split; [intros i j vi vj _ Hi; by rewrite lookup_nil in Hi|].
    split; [intros i j vi vj _ Hi; by rewrite lookup_nil in Hi|]. by left.
  - assert (p ≠ [] → p !! 0 = Some v0) as Hhead'.
    { intros Hp. rewrite <- Hhead by (by destruct p).
      symmetry. apply lookup_app_l. destruct p; [done|simpl; lia]. }
    specialize (IH Hhead'). rewrite foldl_app. simpl.
    destruct (foldl max_drawdown_step (v0, 0%Q) p) as [m d].
    destruct IH as (Hbound & Hmem & Hd & Hdom & Hpos & Hatt). simpl in *.
    set (m' := if Qltb m x then x else m).
    assert (m <= m')%Q as Hmm'.
    { unfold m'. destruct (Qltb m x) eqn:E; [apply Qltb_lt in E|]; lra. }
    assert (x <= m')%Q as Hxm'.
    { unfold m'. destruct (Qltb m x) eqn:E; [|apply Qltb_ge in E]; lra. }
    assert (m' = x ∨ m' ∈ p) as Hm'.
    { unfold m'. destruct (Qltb m x) eqn:E; [by left|].
      destruct Hmem as [[-> ->]|Hin]; [|by right].
      left. specialize (Hhead ltac:(done)). simpl in Hhead. congruence. }
    assert (∀ i vi, (p ++ [x]) !! i = Some vi → (vi <= m')%Q) as Hbound'.
    { intros i vi Hi. apply list_elem_of_lookup_2 in Hi.
      apply elem_of_app in Hi as [Hi|Hi%list_elem_of_singleton].
      - specialize (Hbound _ Hi). lra.
      - by subst. }
    assert (∀ i j vi vj, i ≤ j → (p ++ [x]) !! i = Some vi →
              (p ++ [x]) !! j = Some vj →
              j < length p ∨ (j = length p ∧ vj = x)) as Hsplit.
    { intros i j vi vj Hij Hi Hj.
      pose proof (lookup_lt_Some _ _ _ Hj) as Hlt.
      rewrite length_app in Hlt. simpl in Hlt.
      destruct (decide (j < length p)); [by left|right].
      assert (j = length p) as -> by lia. split; [done|].
      rewrite lookup_app_r, Nat.sub_diag in Hj by lia. simpl in Hj. congruence. }
    unfold max_drawdown_step. simpl. fold m'.
    unfold drawdown_invariant.
    destruct (Qltb 0 m') eqn:Em'; cbn [fst snd].
    + apply Qltb_lt in Em'.
      split.
      { intros y Hy. apply list_elem_of_lookup in Hy as [i Hi]. by apply (Hbound' i). }
      split.
      { right. apply elem_of_app. destruct Hm' as [->|Hin]; [right|by left].
        by apply list_elem_of_singleton. }
      split; [pose proof (py_max_ge_l d ((m' - x) / m')); lra|].
      split.
      { intros i j vi vj Hij Hi Hj Hvi Hvj.
        destruct (Hsplit i j vi vj Hij Hi Hj) as [Hlt|[-> ->]].
        - rewrite lookup_app_l in Hi, Hj by lia.
          pose proof (Hdom i j vi vj Hij Hi Hj Hvi Hvj).
          pose proof (py_max_ge_l d ((m' - x) / m')). lra.
        - pose proof (decline_le_drawdown vi x m' Hvi (Hbound' i vi Hi) Hvj).
          pose proof (py_max_ge_r d ((m' - x) / m')). lra. }
      split.
      { intros i j vi vj Hij Hi Hj Hvi Hlt.
        destruct (Hsplit i j vi vj Hij Hi Hj) as [Hj'|[-> ->]].
        - rewrite lookup_app_l in Hi, Hj by lia.
          pose proof (Hpos i j vi vj Hij Hi Hj Hvi Hlt).
          pose proof (py_max_ge_l d ((m' - x) / m')). lra.
        - pose proof (Hbound' i vi Hi).
          pose proof (decline_pos x m' Em' ltac:(lra)).
          pose proof (py_max_ge_r d ((m' - x) / m')). lra. }
      destruct (py_max_cases d ((m' - x) / m')) as [-> | ->].
      * destruct Hatt as [->|(i & j & vi & vj & Hij & Hi & Hj & Hvi & ->)];
          [by left|right].
        exists i, j, vi, vj. split; [done|].
        split; [rewrite lookup_app_l; [done|by apply lookup_lt_Some in Hi]|].
        split; [rewrite lookup_app_l; [done|by apply lookup_lt_Some in Hj]|].
        done.
      * right. destruct Hm' as [Hx|Hin].
        -- exists (length p), (length p), x, x. rewrite Hx in Em' |- *.
           split; [done|].
           rewrite lookup_app_r, Nat.sub_diag by lia. simpl.
           split; [done|]. split; [done|]. split; [lra|done].
        -- apply list_elem_of_lookup in Hin as [i Hi].
           exists i, (length p), m', x.
           pose proof (lookup_lt_Some _ _ _ Hi).
           split; [lia|]. split; [by rewrite lookup_app_l|].
           split; [by rewrite lookup_app_r, Nat.sub_diag by lia|]. done.
    + apply Qltb_ge in Em'.
      split.
      { intros y Hy. apply list_elem_of_lookup in Hy as [i Hi]. by apply (Hbound' i). }
      split.
      { right. apply elem_of_app. destruct Hm' as [->|Hin]; [right|by left].
        by apply list_elem_of_singleton. }
      split; [done|].
      split.
      { intros i j vi vj Hij Hi Hj Hvi Hvj.
        pose proof (Hbound' i vi Hi). lra. }
      split.
      { intros i j vi vj Hij Hi Hj Hvi Hlt.
        pose proof (Hbound' i vi Hi). lra. }
      destruct Hatt as [->|(i & j & vi & vj & Hij & Hi & Hj & Hvi & ->)];
        [by left|right].
      exists i, j, vi, vj. split; [done|].
      split; [rewrite lookup_app_l; [done|by apply lookup_lt_Some in Hi]|].
      split; [rewrite lookup_app_l; [done|by apply lookup_lt_Some in Hj]|].
      done.
Qed.

(** X13.  The maximum drawdown is the largest decline from a positive value
    of the series to a later value, as a fraction of the earlier value: on a
    series without negative values it bounds every such decline, and it is
    zero or one of these declines. *)
Theorem calculate_max_drawdown_largest_decline (values : list Q) :
  2 ≤ length values →
  Forall (λ v, (0 <= v)%Q) values →
  let max_drawdown := calculate_max_drawdown values in
  (∀ i j vi vj, i ≤ j → values !! i = Some vi → values !! j = Some vj →
     (0 < vi)%Q → ((vi - vj) / vi <= max_drawdown)%Q)
  ∧ (max_drawdown = 0%Q
     ∨ ∃ i j vi vj, i ≤ j ∧ values !! i = Some vi ∧ values !! j = Some vj
         ∧ (0 < vi)%Q ∧ max_drawdown = ((vi - vj) / vi)%Q).
Proof.
  intros Hlen Hnonneg max_drawdown. unfold max_drawdown, calculate_max_drawdown.
  case_decide as Hshort; [lia|].
  destruct (max_drawdown_scan (values !!! 0%nat) values) as (_ & _ & _ & Hdom & _ & Hatt).
  { intros _. apply list_lookup_lookup_total_lt. lia. }
  split; [|exact Hatt].
  intros i j vi vj Hij Hi Hj Hvi. apply (Hdom i j vi vj Hij Hi Hj Hvi).
  rewrite Forall_forall in Hnonneg. apply Hnonneg.
  by apply list_elem_of_lookup_2 in Hj.
Qed.

(** X14.  On a series without negative values the maximum drawdown lies
    between 0 and 1. *)
Theorem calculate_max_drawdown_bounds (values : list Q) :
  Forall (λ v, (0 <= v)%Q) values →
  (0 <= calculate_max_drawdown values <= 1)%Q.
Proof.
  intros Hnonneg. split; [apply calculate_max_drawdown_nonneg|].
  unfold calculate_max_drawdown. case_decide as Hshort; [lra|].
  destruct (max_drawdown_scan (values !!! 0%nat) values)
    as (_ & _ & _ & _ & _ & [->|(i & j & vi & vj & _ & _ & Hj & Hvi & ->)]).
  { intros _. apply list_lookup_lookup_total_lt. lia. }
  - lra.
  - apply decline_le_one; [done|].
    rewrite Forall_forall in Hnonneg. apply Hnonneg.
    by apply list_elem_of_lookup_2 in Hj.
Qed.

(** X15.  The maximum drawdown is zero exactly when no value of the series
    lies below an earlier positive value; on a series of fewer than two
    values it is zero. *)
Theorem calculate_max_drawdown_zero_iff (values : list Q) :
  (length values < 2 → calculate_max_drawdown values = 0%Q)
  ∧ (2 ≤ length values →
     ((calculate_max_drawdown values == 0)%Q
      ↔ ∀ i j vi vj, i ≤ j → values !! i = Some vi → values !! j = Some vj →
                     (0 < vi)%Q → (vi <= vj)%Q)).
Proof.
  unfold calculate_max_drawdown. split.
  { intros Hshort. by case_decide. }
  intros Hlen. case_decide as Hshort; [lia|].
  destruct (max_drawdown_scan (values !!! 0%nat) values)
    as (_ & _ & Hd & _ & Hpos & Hatt).
  { intros _. apply list_lookup_lookup_total_lt. lia. }
  split.
  - intros Hzero i j vi vj Hij Hi Hj Hvi.
    destruct (Qlt_le_dec vj vi) as [Hlt|Hle]; [|done].
    pose proof (Hpos i j vi vj Hij Hi Hj Hvi Hlt). lra.
  - intros Hmono.
    destruct Hatt as [->|(i & j & vi & vj & Hij & Hi & Hj & Hvi & Heq)]; [lra|].
    rewrite Heq in *.
    pose proof (decline_nonpos vi vj Hvi (Hmono i j vi vj Hij Hi Hj Hvi)). lra.
Qed.

(** ** The drawdown metrics *)

Section DrawdownWindow.

Import DrawdownMetrics.

Lemma metrics_step_max_drawdown st row acc :
  peak_value st = acc.1 → max_drawdown st = acc.2 → (0 <= acc.2)%Q →
  let st' := step st row in
  let acc' := max_drawdown_step acc row.2 in
  peak_value st' = acc'.1 ∧ max_drawdown st' = acc'.2 ∧ (0 <= acc'.2)%Q.
Proof.
  intros Hp Hm Hnonneg st' acc'.
  pose proof (max_drawdown_step_nonneg acc row.2 Hnonneg) as Hnonneg'.
  fold acc' in Hnonneg'. split; [|split; [|done]].
  - unfold st', acc', step, max_drawdown_step. simpl. rewrite Hp.
    by destruct (Qltb acc.1 row.2), (Qltb 0 _).
  - unfold st', acc', step, max_drawdown_step. simpl. rewrite Hp, Hm.
    destruct (Qltb 0 (if Qltb acc.1 row.2 then row.2 else acc.1)) eqn:E; simpl.
    + done.
    + destruct (Qltb acc.2 0) eqn:E'; [|done].
      apply Qltb_lt in E'. lra.
Qed.

Lemma metrics_scan_max_drawdown rows st acc :
  peak_value st = acc.1 → max_drawdown st = acc.2 → (0 <= acc.2)%Q →
  max_drawdown (foldl step st rows) = (foldl max_drawdown_step acc (rows.*2)).2.
Proof.
  revert st acc. induction rows as [|row rows IH]; intros st acc Hp Hm Hnonneg.
  - done.
  - simpl.
    destruct (metrics_step_max_drawdown st row acc Hp Hm Hnonneg) as (? & ? & ?).
    by apply IH.
Qed.

(** X16.  The two drawdown calculators agree: the maximum drawdown found by
    the loop of [calculate_drawdown_metrics] is the value
    [calculate_max_drawdown] returns for the same series. *)
Theorem drawdown_metrics_max_agrees (portfolio_values : list Q) :
  max_drawdown (scan portfolio_values) = calculate_max_drawdown portfolio_values.
Proof.
  unfold scan, calculate_max_drawdown.
  rewrite (metrics_scan_max_drawdown _ _ (portfolio_values !!! 0%nat, 0%Q));
    [|done|done|simpl; lra].
  rewrite snd_zip by (rewrite length_seq; lia).
  case_decide as Hshort; [|done].
  destruct portfolio_values as [|v [|? ?]]; [done| |simpl in Hshort; lia].
  simpl. unfold max_drawdown_step. simpl.
  assert (Qltb v v = false) as -> by (apply Qltb_ge; lra).
  destruct (Qltb 0 v) eqn:E; [|done]. simpl.
  unfold py_max.
  assert (Qltb 0 ((v - v) / v) = false) as ->; [|done].
  apply Qltb_ge. apply Qltb_lt in E. apply Qle_shift_div_r; [done|]. lra.
Qed.

Lemma zip_seq_snoc (p : list Q) (x : Q) :
  zip (seq 0 (length (p ++ [x]))) (p ++ [x])
  = zip (seq 0 (length p)) p ++ [(length p, x)].
Proof.
  rewrite length_app. simpl. rewrite seq_app. simpl.
  rewrite zip_with_app by (by rewrite length_seq). done.
Qed.

Lemma metrics_scan_window (v0 : Q) (p : list Q) :
  (p ≠ [] → p !! 0 = Some v0) →
  window_invariant v0 p
    (foldl step
       {| peak_value := v0; peak_idx := 0; current_drawdown := 0;
          max_drawdown := 0; max_drawdown_start_idx := 0;
          max_drawdown_end_idx := 0; drawdowns := [] |}
       (zip (seq 0 (length p)) p)).
Proof.
  induction p as [|x p IH] using rev_ind; intros Hhead.
  - simpl. unfold window_invariant. simpl.
    split; [by left|]. split; [intros j y Hj; by rewrite lookup_nil in Hj|].
    split; [intros j y ? Hj; by rewrite lookup_nil in Hj|].
    split; [lra|]. split; [done|]. by left.
  - assert (p ≠ [] → p !! 0 = Some v0) as Hhead'.
    { intros Hp. rewrite <- Hhead by (by destruct p).
      symmetry. apply lookup_app_l. destruct p; [done|simpl; lia]. }
    specialize (IH Hhead'). rewrite zip_seq_snoc, foldl_app. simpl.
    destruct (foldl step _ (zip (seq 0 (length p)) p)) as [pv pi cd md ms me dds].
    destruct IH as (Hpeak & Hbound & Hfirst & Hmd & Hlen & Hwin). simpl in *.
    assert (∀ j y, (p ++ [x]) !! j = Some y →
              p !! j = Some y ∨ (j = length p ∧ y = x)) as Hsplit.
    { intros j y Hj. pose proof (lookup_lt_Some _ _ _ Hj) as Hlt.
      rewrite length_app in Hlt. simpl in Hlt.
      destruct (decide (j < length p)).
      - left. by rewrite lookup_app_l in Hj.
      - right. assert (j = length p) as -> by lia. split; [done|].
        rewrite lookup_app_r, Nat.sub_diag in Hj by lia. simpl in Hj. congruence. }
    assert (∀ j y, p !! j = Some y → (p ++ [x]) !! j = Some y) as Hkeep.
    { intros j y Hj. rewrite lookup_app_l; [done|by apply lookup_lt_Some in Hj]. }
    assert ((p ++ [x]) !! length p = Some x) as Hlast.
    { by rewrite lookup_app_r, Nat.sub_diag by lia. }
    unfold step, window_invariant. simpl.
    set (new_peak := Qltb pv x).
    set (peak := if new_peak then x else pv).
    set (idx := if new_peak then length p else pi).
    set (current := if Qltb 0 peak then ((peak - x) / peak)%Q else 0%Q).
    assert ((p ++ [x]) !! idx = Some peak) as Hpeak'.
    { unfold idx, peak, new_peak. destruct (Qltb pv x) eqn:E; [done|].
      destruct Hpeak as [(-> & -> & ->)|Hpeak]; [|by apply Hkeep].
      specialize (Hhead ltac:(done)). simpl in *. congruence. }
    assert (pv <= peak)%Q as Hpv.
    { unfold peak, new_peak. destruct (Qltb pv x) eqn:E; [apply Qltb_lt in E|]; lra. }
    assert (x <= peak)%Q as Hx.
    { unfold peak, new_peak. destruct (Qltb pv x) eqn:E; [|apply Qltb_ge in E]; lra. }
    assert (∀ j y, (p ++ [x]) !! j = Some y → (y <= peak)%Q) as Hbound'.
    { intros j y [Hj|[-> ->]]%Hsplit; [|done]. specialize (Hbound j y Hj). lra. }
    assert (∀ j y, j < idx → (p ++ [x]) !! j = Some y → (y < peak)%Q) as Hfirst'.
    { intros j y Hlt Hj. unfold idx, peak, new_peak in *.
      destruct (Qltb pv x) eqn:E.
      - apply Qltb_lt in E. apply Hsplit in Hj as [Hj|[-> ->]]; [|lia].
        specialize (Hbound j y Hj). lra.
      - apply Hsplit in Hj as [Hj|[-> ->]]; [by apply (Hfirst j)|].
        destruct Hpeak as [(-> & _ & ->)|Hpeak]; [simpl in Hlt; lia|].
        apply lookup_lt_Some in Hpeak. lia. }
    assert (idx ≤ length p) as Hidx.
    { unfold idx. destruct new_peak; [done|].
      destruct Hpeak as [(-> & _ & ->)|Hpeak]; [done|].
      apply lookup_lt_Some in Hpeak. lia. }
    split; [by right|]. split; [exact Hbound'|]. split; [exact Hfirst'|].
    split.
    { destruct (Qltb md current) eqn:E; [|done]. apply Qltb_lt in E. lra. }
    split; [rewrite !length_app; simpl; lia|].
    destruct (Qltb md current) eqn:E.
    + right. apply Qltb_lt in E. unfold current in *.
      destruct (Qltb 0 peak) eqn:Epeak; [|lra]. apply Qltb_lt in Epeak.
      exists peak, x. split; [done|]. split; [done|]. split; [done|].
      split; [done|].
      assert (x < peak)%Q as Hdrop.
      { destruct (Qlt_le_dec x peak) as [?|Hge]; [done|].
        assert (x == peak)%Q as Heq by lra.
        assert ((peak - x) / peak <= 0)%Q; [|lra].
        apply Qle_shift_div_r; [done|]. lra. }
      split; [done|]. split; [done|].
      split; [intros j y _ Hj; by apply (Hbound' j)|exact Hfirst'].
    + destruct Hwin as [->|(vs & ve & Hs & He & Hse & Hvs & Hve & -> & Hmax & Hstrict)];
        [by left|right].
      exists vs, ve. split; [by apply Hkeep|]. split; [by apply Hkeep|].
      split; [done|]. split; [done|]. split; [done|]. split; [done|].
      pose proof (lookup_lt_Some _ _ _ He) as Hlt. split.
      * intros j y Hj [Hy|[-> _]]%Hsplit; [by apply (Hmax j)|lia].
      * intros j y Hj [Hy|[-> _]]%Hsplit; [by apply (Hstrict j)|lia].
Qed.

Lemma scan_window (portfolio_values : list Q) :
  window_invariant (portfolio_values !!! 0%nat) portfolio_values
    (scan portfolio_values).
Proof.
  apply metrics_scan_window. intros Hne.
  apply list_lookup_lookup_total_lt. destruct portfolio_values; [done|simpl; lia].
Qed.

(** X17.  When the loop of [calculate_drawdown_metrics] finds a drawdown, its
    window runs from the peak to the trough: the start index is the first
    index holding the largest value up to the end index, that value is
    positive, the value at the end index lies below it, and the maximum
    drawdown is the decline between the two as a fraction of the peak. *)
Theorem drawdown_metrics_window (portfolio_values : list Q) :
  let st := scan portfolio_values in
  let start_idx := max_drawdown_start_idx st in
  let end_idx := max_drawdown_end_idx st in
  let peak := portfolio_values !!! start_idx in
  let trough := portfolio_values !!! end_idx in
  (0 < max_drawdown st)%Q →
  start_idx ≤ end_idx < length portfolio_values
  ∧ (0 < peak)%Q ∧ (trough < peak)%Q
  ∧ max_drawdown st = ((peak - trough) / peak)%Q
  ∧ (∀ j, j ≤ end_idx → (portfolio_values !!! j <= peak)%Q)
  ∧ (∀ j, j < start_idx → (portfolio_values !!! j < peak)%Q).
Proof.
  intros st start_idx end_idx peak trough Hpos.
  destruct (scan_window portfolio_values)
    as (_ & _ & _ & _ & _ & [Hzero|(vs & ve & Hs & He & Hse & Hvs & Hve & Hmd & Hmax & Hstrict)]).
  { fold st in Hzero. rewrite Hzero in Hpos. lra. }
  fold st in Hs, He, Hse, Hmd, Hmax, Hstrict.
  fold start_idx in Hs, Hse, Hstrict. fold end_idx in He, Hse, Hmax.
  pose proof (lookup_lt_Some _ _ _ He) as Hlt.
  assert (peak = vs) as -> by (by apply list_lookup_total_correct).
  assert (trough = ve) as -> by (by apply list_lookup_total_correct).
  split; [lia|]. split; [done|]. split; [done|]. split; [done|]. split.
  - intros j Hj. apply (Hmax j); [done|].
    apply list_lookup_lookup_total_lt. lia.
  - intros j Hj. apply (Hstrict j); [done|].
    apply list_lookup_lookup_total_lt. lia.
Qed.

Lemma recovery_idx_spec (V : list Q) (s e : nat) :
  match recovery_idx V s e with
  | Some r =>
      e < r < length V ∧ (V !!! s <= V !!! r)%Q
      ∧ ∀ i, e < i < r → (V !!! i < V !!! s)%Q
  | None => ∀ i, e < i < length V → (V !!! i < V !!! s)%Q
  end.
Proof.
  unfold recovery_idx.
  destruct (list_find _ _) as [[k r]|] eqn:E; simpl.
  - apply list_find_Some in E as (Hk & Hr & Hfirst).
    apply lookup_seq in Hk as [-> Hk]. split; [lia|]. split; [done|].
    intros i Hi. apply Qnot_le_lt.
    apply (Hfirst (i - (e + 1)) i); [|lia].
    apply lookup_seq. split; lia.
  - apply list_find_None in E. rewrite Forall_forall in E.
    intros i Hi. apply Qnot_le_lt. apply E.
    apply elem_of_seq. lia.
Qed.

(** The entries written after the window (lines 730-746) leave the window
    and recovery entries alone. *)
Lemma drawdown_metrics_window_entries (portfolio_values : list Q) (dates : list Z) k :
  5 ≤ length portfolio_values →
  k ∉ ["平均回撤"; "显著回撤次数(>2%)"; "年化显著回撤频率"] →
  let st := scan portfolio_values in
  let start_idx := max_drawdown_start_idx st in
  let end_idx := max_drawdown_end_idx st in
  calculate_drawdown_metrics portfolio_values dates !! k
  = (if Qltb 0 (max_drawdown st)
        && bool_decide (start_idx < length dates)
        && bool_decide (end_idx < length dates)
     then
       let result : gmap string metric :=
         <["最大回撤持续时间" := DaysStr (dates !!! end_idx - dates !!! start_idx)]>
         (<["最大回撤结束日期" := DateStr (dates !!! end_idx)]>
         (<["最大回撤开始日期" := DateStr (dates !!! start_idx)]> ∅)) in
       match recovery_idx portfolio_values start_idx end_idx with
       | Some r =>
           if decide (r ≠ 0 ∧ r < length dates) then
             <["完整回撤周期" :=
                 DaysStr ((dates !!! end_idx - dates !!! start_idx)
                          + (dates !!! r - dates !!! end_idx))]>
             (<["回撤恢复时间" := DaysStr (dates !!! r - dates !!! end_idx)]>
             (<["回撤恢复日期" := DateStr (dates !!! r)]> result))
           else <["回撤恢复" := Plain (Text "尚未恢复到峰值")]> result
       | None => <["回撤恢复" := Plain (Text "尚未恢复到峰值")]> result
       end
     else ∅) !! k.
Proof.
  intros Hlen Hk st start_idx end_idx.
  rewrite !not_elem_of_cons in Hk. destruct Hk as (H0 & H1 & H2 & _).
  unfold calculate_drawdown_metrics. case_decide as Hshort; [lia|].
  fold st. fold start_idx end_idx.
  destruct (drawdowns st) as [|d dds] eqn:Edd.
  { destruct (scan_window portfolio_values) as (_ & _ & _ & _ & Hl & _).
    fold st in Hl. rewrite Edd in Hl. simpl in Hl. lia. }
  cbv zeta. case_decide; [destruct (Qltb 0 (_ / _))|];
    by rewrite ?lookup_insert_ne by done.
Qed.

(** X18.  What [calculate_drawdown_metrics] reports about the deepest
    drawdown of a series of at least five values with one date per value.
    Without any drawdown it reports neither window nor recovery.  Otherwise
    it reports the dates of the peak and of the trough and the days between
    them, and then either the first date after the trough on which the value
    is back at the peak value or above, with the days from the trough and
    the length of the whole cycle, or the remark that the peak has not been
    recovered, in which case every value after the trough is below the
    peak. *)
Theorem drawdown_metrics_recovery (portfolio_values : list Q) (dates : list Z) :
  5 ≤ length portfolio_values →
  length dates = length portfolio_values →
  let result := calculate_drawdown_metrics portfolio_values dates in
  let st := scan portfolio_values in
  let start_idx := max_drawdown_start_idx st in
  let end_idx := max_drawdown_end_idx st in
  let peak := portfolio_values !!! start_idx in
  let not_recovered := Plain (Text "尚未恢复到峰值") in
  if Qltb 0 (max_drawdown st) then
    result !! "最大回撤开始日期" = Some (DateStr (dates !!! start_idx))
    ∧ result !! "最大回撤结束日期" = Some (DateStr (dates !!! end_idx))
    ∧ result !! "最大回撤持续时间"
      = Some (DaysStr (dates !!! end_idx - dates !!! start_idx))
    ∧ ((∃ r, end_idx < r < length portfolio_values
          ∧ (peak <= portfolio_values !!! r)%Q
          ∧ (∀ i, end_idx < i < r → (portfolio_values !!! i < peak)%Q)
          ∧ result !! "回撤恢复日期" = Some (DateStr (dates !!! r))
          ∧ result !! "回撤恢复时间"
            = Some (DaysStr (dates !!! r - dates !!! end_idx))
          ∧ result !! "完整回撤周期"
            = Some (DaysStr ((dates !!! end_idx - dates !!! start_idx)
                             + (dates !!! r - dates !!! end_idx)))
          ∧ result !! "回撤恢复" = None)
       ∨ ((∀ i, end_idx < i < length portfolio_values →
                (portfolio_values !!! i < peak)%Q)
          ∧ result !! "回撤恢复" = Some not_recovered
          ∧ result !! "回撤恢复日期" = None))
  else
    result !! "最大回撤开始日期" = None
    ∧ result !! "最大回撤结束日期" = None
    ∧ result !! "回撤恢复日期" = None
    ∧ result !! "回撤恢复" = None.
Proof.
  intros Hlen Hdates result st start_idx end_idx peak not_recovered.
  assert (∀ k, k ∉ ["平均回撤"; "显著回撤次数(>2%)"; "年化显著回撤频率"] →
            result !! k = _) as Hresult
    by (intros k Hk; exact (drawdown_metrics_window_entries _ dates k Hlen Hk)).
  cbv zeta in Hresult. fold st in Hresult. fold start_idx end_idx in Hresult.
  destruct (Qltb 0 (max_drawdown st)) eqn:Epos.
  - apply Qltb_lt in Epos.
    destruct (scan_window portfolio_values)
      as (_ & _ & _ & _ & _ & [Hzero|(vs & ve & Hs & He & Hse & _)]).
    { fold st in Hzero. rewrite Hzero in Epos. lra. }
    fold st in Hs, He, Hse. fold start_idx in Hs, Hse. fold end_idx in He, Hse.
    apply lookup_lt_Some in Hs, He.
    rewrite !bool_decide_eq_true_2 in Hresult by lia. simpl in Hresult.
    pose proof (recovery_idx_spec portfolio_values start_idx end_idx) as Hrec.
    destruct (recovery_idx portfolio_values start_idx end_idx) as [r|].
    + destruct Hrec as (Hr & Hback & Hbelow).
      rewrite decide_True in Hresult by lia.
      rewrite !Hresult by fresh_key.
      rewrite ?lookup_insert_ne by done. rewrite !lookup_insert_eq.
      split; [by rewrite ?lookup_insert_ne by done|].
      split; [by rewrite ?lookup_insert_ne, ?lookup_insert_eq by done|].
      split; [done|]. left. exists r.
      split; [done|]. split; [done|]. split; [done|].
      split; [by rewrite ?lookup_insert_ne, ?lookup_insert_eq by done|].
      split; [by rewrite ?lookup_insert_ne, ?lookup_insert_eq by done|].
      split; [done|]. by rewrite ?lookup_insert_ne by done.
    + rewrite !Hresult by fresh_key.
      split; [by rewrite ?lookup_insert_ne, ?lookup_insert_eq by done|].
      split; [by rewrite ?lookup_insert_ne, ?lookup_insert_eq by done|].
      split; [by rewrite ?lookup_insert_ne, ?lookup_insert_eq by done|].
      right. split; [done|].
      split; [by rewrite lookup_insert_eq|by rewrite ?lookup_insert_ne by done].
  - simpl in Hresult. by rewrite !Hresult by fresh_key.
Qed.

End DrawdownWindow.

(** ** Drawdown episodes are well formed *)

Lemma foldl_py_max_ge_init x l : (x <= foldl py_max x l)%Q.
Proof.
  revert x. induction l as [|y l IH]; intros x; simpl; [lra|].
  pose proof (py_max_ge_l x y). pose proof (IH (py_max x y)). lra.
Qed.

Lemma period_depth_ge_start V p s hi :
  s < hi → ((p - V !!! s) / p <= period_depth V p s hi)%Q.
Proof.
  intros Hlt. unfold period_depth.
  replace (hi - s) with (S (hi - s - 1)) by lia. simpl.
  apply foldl_py_max_ge_init.
Qed.

Lemma ordered_snoc (l : list drawdown_period) (d : drawdown_period) :
  (∀ i d1 d2, l !! i = Some d1 → l !! S i = Some d2 → dd_end d1 < dd_start d2) →
  Forall (λ d', dd_end d' < dd_start d) l →
  ∀ i d1 d2, (l ++ [d]) !! i = Some d1 → (l ++ [d]) !! S i = Some d2 →
             dd_end d1 < dd_start d2.
Proof.
  intros Hord Hall i d1 d2 H1 H2.
  pose proof (lookup_lt_Some _ _ _ H2) as Hlt. rewrite length_app in Hlt.
  simpl in Hlt. rewrite lookup_app_l in H1 by lia.
  destruct (decide (S i < length l)).
  - rewrite lookup_app_l in H2 by lia. by apply (Hord i).
  - rewrite lookup_app_r in H2 by lia.
    replace (S i - length l) with 0 in H2 by lia. simpl in H2.
    injection H2 as <-. rewrite Forall_forall in Hall. apply Hall.
    by apply list_elem_of_lookup_2 in H1.
Qed.

Lemma drawdown_step_invariant V k st :
  k < length V →
  episodes_invariant V k st →
  episodes_invariant V (S k) (drawdown_step V st (k, V !!! k)).
Proof.
  intros Hk (Hdone & Hord & Hopen).
  assert (Forall (λ d, well_formed V d ∧ dd_end d < S k) (drawdown_periods st))
    as Hdone'.
  { eapply Forall_impl; [exact Hdone|]. intros d [? ?]. split; [done|lia]. }
  assert (Forall (λ d, dd_end d < k) (drawdown_periods st)) as Hends.
  { eapply Forall_impl; [exact Hdone|]. by intros d [? ?]. }
  unfold drawdown_step. simpl.
  destruct (Qltb (peak st) (V !!! k)) eqn:Enew.
  { split; [done|]. split; [done|]. simpl. by intros s. }
  destruct (Qltb 0 (peak st)) eqn:Epeak.
  2:{ split; [done|]. split; [done|]. intros s Hs.
      destruct (Hopen s Hs) as (Hlt & Hpos & _).
      apply Qltb_ge in Epeak. lra. }
  apply Qltb_lt in Epeak.
  set (current := ((peak st - V !!! k) / peak st)%Q).
  assert (∃ started,
    started = match current_drawdown_start st with
              | Some s => Some s
              | None => if Qltb (2 # 100) current then Some k else None
              end) as [started Hstarted] by eauto.
  assert (∀ s, started = Some s →
            s ≤ k ∧ (2 # 100 < (peak st - V !!! s) / peak st)%Q
            ∧ Forall (λ d, dd_end d < s) (drawdown_periods st)) as Hs.
  { intros s Heq. rewrite Heq in Hstarted.
    destruct (current_drawdown_start st) as [s'|] eqn:Es.
    - injection Hstarted as ->. destruct (Hopen s' eq_refl) as (? & _ & ? & ?).
      split; [lia|done].
    - destruct (Qltb (2 # 100) current) eqn:Ecur; [|done].
      injection Hstarted as ->. apply Qltb_lt in Ecur. split; [lia|done]. }
  assert (match current_drawdown_start st with
          | Some s => Some s
          | None => if Qltb (2 # 100) current then Some k else None
          end = started) as -> by done.
  clear Hstarted. destruct started as [s|].
  - destruct (Hs s eq_refl) as (Hsk & Hdeep & Hbefore).
    destruct (Qltb current (5 # 1000)).
    + split; [|split]; simpl.
      * apply Forall_app. split; [done|]. apply Forall_singleton.
        split; [|simpl; lia]. split; [simpl; lia|]. split; [simpl; lia|]. simpl.
        pose proof (period_depth_ge_start V (peak st) s (k + 1) ltac:(lia)). lra.
      * by apply ordered_snoc.
      * by intros s'.
    + split; [done|]. split; [done|]. simpl. intros s' [= <-].
      split; [lia|]. done.
  - split; [done|]. split; [done|]. simpl. by intros s.
Qed.

Lemma drawdown_scan_invariant V (p : list Q) :
  (∀ j x, p !! j = Some x → j < length V ∧ V !!! j = x) →
  episodes_invariant V (length p)
    (foldl (drawdown_step V)
       {| peak := V !!! 0%nat; drawdowns := [];
          drawdown_periods := []; current_drawdown_start := None |}
       (zip (seq 0 (length p)) p)).
Proof.
  induction p as [|x p IH] using rev_ind; intros Hprefix.
  - simpl. split; [done|]. split; [by intros i d1 d2 H|]. by intros s.
  - rewrite zip_seq_snoc, foldl_app, length_app. simpl.
    replace (length p + 1) with (S (length p)) by lia.
    destruct (Hprefix (length p) x) as [Hlt <-].
    { by rewrite lookup_app_r, Nat.sub_diag by lia. }
    apply drawdown_step_invariant; [done|]. apply IH.
    intros j y Hj. apply Hprefix. rewrite lookup_app_l; [done|].
    by apply lookup_lt_Some in Hj.
Qed.

(** X27.  The drawdown episodes the detailed analysis records are well
    formed: each starts no later than it ends, lies inside the series and
    is deeper than 2%, and each begins after the one before it has ended,
    so no two episodes overlap. *)
Theorem detect_drawdown_periods_well_formed (portfolio_values : list Q) :
  let periods := detect_drawdown_periods portfolio_values in
  Forall (λ d, dd_start d ≤ dd_end d
               ∧ dd_end d < length portfolio_values
               ∧ (2 # 100 < dd_depth d)%Q) periods
  ∧ ∀ i d1 d2, periods !! i = Some d1 → periods !! S i = Some d2 →
               dd_end d1 < dd_start d2.
Proof.
  intros periods. unfold periods, detect_drawdown_periods, drawdown_scan.
  destruct (drawdown_scan_invariant portfolio_values portfolio_values)
    as (Hdone & Hord & Hopen).
  { intros j x Hj. split; [by apply lookup_lt_Some in Hj|].
    by apply list_lookup_total_correct. }
  assert (Forall (well_formed portfolio_values)
            (drawdown_periods
               (foldl (drawdown_step portfolio_values)
                  {| peak := portfolio_values !!! 0%nat; drawdowns := [];
                     drawdown_periods := []; current_drawdown_start := None |}
                  (zip (seq 0 (length portfolio_values)) portfolio_values))))
    as Hwf.
  { eapply Forall_impl; [exact Hdone|]. by intros d [? ?]. }
  destruct (current_drawdown_start _) as [s|] eqn:Es; [|done].
  destruct (Hopen s eq_refl) as (Hlt & Hpos & Hdeep & Hbefore).
  split.
  - apply Forall_app. split; [exact Hwf|]. apply Forall_singleton. simpl.
    split; [lia|]. split; [lia|].
    pose proof (period_depth_ge_start portfolio_values
                  (peak (foldl (drawdown_step portfolio_values)
                     {| peak := portfolio_values !!! 0%nat; drawdowns := [];
                        drawdown_periods := []; current_drawdown_start := None |}
                     (zip (seq 0 (length portfolio_values)) portfolio_values)))
                  s (length portfolio_values) Hlt).
    lra.
  - by apply ordered_snoc.
Qed.

(** ** Win and loss metrics *)

Lemma Qsum_pos l : l ≠ [] → Forall (λ x, (0 < x)%Q) l → (0 < Qsum l)%Q.
Proof.
  induction l as [|x l IH]; [done|]. intros _ [Hx Hl]%Forall_cons.
  rewrite Qsum_cons. destruct l as [|y l'].
  - unfold Qsum. simpl. lra.
  - specialize (IH ltac:(done) Hl). lra.
Qed.

Lemma Qsum_neg l : l ≠ [] → Forall (λ x, (x < 0)%Q) l → (Qsum l < 0)%Q.
Proof.
  induction l as [|x l IH]; [done|]. intros _ [Hx Hl]%Forall_cons.
  rewrite Qsum_cons. destruct l as [|y l'].
  - unfold Qsum. simpl. lra.
  - specialize (IH ltac:(done) Hl). lra.
Qed.

Lemma inject_nat_pos n : 0 < n → (0 < inject_Z (Z.of_nat n))%Q.
Proof.
  intros Hn. change 0%Q with (inject_Z 0). rewrite <- Zlt_Qlt. lia.
Qed.

Lemma mean_pos l : l ≠ [] → Forall (λ x, (0 < x)%Q) l → (0 < mean l)%Q.
Proof.
  intros Hne Hl. unfold mean. apply Qlt_shift_div_l.
  - apply inject_nat_pos. destruct l; [done|simpl; lia].
  - pose proof (Qsum_pos l Hne Hl). lra.
Qed.

Lemma mean_neg l : l ≠ [] → Forall (λ x, (x < 0)%Q) l → (mean l < 0)%Q.
Proof.
  intros Hne Hl. unfold mean. apply Qlt_shift_div_r.
  - apply inject_nat_pos. destruct l; [done|simpl; lia].
  - pose proof (Qsum_neg l Hne Hl). lra.
Qed.

Lemma filter_positive l : Forall (λ x, (0 < x)%Q) (filter (λ r, Qltb 0 r) l).
Proof.
  apply Forall_forall. intros x [Hx _]%list_elem_of_filter.
  apply Qltb_lt. by apply Is_true_true.
Qed.

Lemma filter_negative l : Forall (λ x, (x < 0)%Q) (filter (λ r, Qltb r 0) l).
Proof.
  apply Forall_forall. intros x [Hx _]%list_elem_of_filter.
  apply Qltb_lt. by apply Is_true_true.
Qed.

(** Without a zero among them, the returns split into the positive and the
    negative ones. *)
Lemma returns_split l :
  Forall (λ r, ¬ (r == 0)%Q) l →
  length l = length (filter (λ r, Qltb 0 r) l) + length (filter (λ r, Qltb r 0) l)
  ∧ (Qsum l == Qsum (filter (λ r, Qltb 0 r) l) + Qsum (filter (λ r, Qltb r 0) l))%Q.
Proof.
  induction l as [|x l IH]; intros Hl.
  - split; [done|]. unfold Qsum. simpl. lra.
  - apply Forall_cons in Hl as [Hx Hl]. destruct (IH Hl) as [IHlen IHsum].
    destruct (Qlt_le_dec 0 x) as [Hpos|Hle].
    + rewrite (filter_cons_True (λ r, Is_true (Qltb 0 r)))
        by (by apply Is_true_true, Qltb_lt).
      rewrite (filter_cons_False (λ r, Is_true (Qltb r 0))).
      2:{ intros H%Is_true_true%Qltb_lt. lra. }
      simpl. split; [lia|]. rewrite !Qsum_cons. lra.
    + assert (x < 0)%Q as Hneg.
      { destruct (Qlt_le_dec x 0) as [?|Hge]; [done|]. exfalso. apply Hx. lra. }
      rewrite (filter_cons_False (λ r, Is_true (Qltb 0 r))).
      2:{ intros H%Is_true_true%Qltb_lt. lra. }
      rewrite (filter_cons_True (λ r, Is_true (Qltb r 0)))
        by (by apply Is_true_true, Qltb_lt).
      simpl. split; [lia|]. rewrite !Qsum_cons. lra.
Qed.

Lemma filter_length_le {A} (P : A → Prop) `{!∀ x, Decision (P x)} (l : list A) :
  length (filter P l) ≤ length l.
Proof. apply length_filter. Qed.

(** X19.  On a non-empty return array [calculate_win_loss_metrics] returns,
    with a win rate between 0% and 100%.  The average gain is a positive
    number when some return is positive and "N/A" otherwise; the average
    loss is a negative number when some return is negative and "N/A"
    otherwise, and exactly then the gain/loss ratio is "N/A (无损失)". *)
Theorem win_loss_metrics_entries (daily_returns : list Q) :
  daily_returns ≠ [] →
  let wins := filter (λ r, Qltb 0 r) daily_returns in
  let losses := filter (λ r, Qltb r 0) daily_returns in
  ∃ result win_rate,
    calculate_win_loss_metrics daily_returns = Some result
    ∧ result !! "详细胜率" = Some (Fmt 2 win_rate "%")
    ∧ (0 <= win_rate <= 100)%Q
    ∧ (if decide (wins = []) then result !! "平均收益(盈利日)" = Some (Text "N/A")
       else ∃ avg_gain, result !! "平均收益(盈利日)" = Some (Fmt 4 avg_gain "%")
                        ∧ (0 < avg_gain)%Q)
    ∧ (if decide (losses = [])
       then result !! "平均损失(亏损日)" = Some (Text "N/A")
            ∧ result !! "收益/损失比" = Some (Text "N/A (无损失)")
       else ∃ avg_loss ratio,
              result !! "平均损失(亏损日)" = Some (Fmt 4 avg_loss "%")
              ∧ (avg_loss < 0)%Q
              ∧ result !! "收益/损失比" = Some (Fmt 2 ratio "")
              ∧ (0 <= ratio)%Q).
Proof.
  intros Hne wins losses. unfold calculate_win_loss_metrics.
  fold wins losses.
  case_decide as Hempty; [by destruct daily_returns|].
  eexists _, _. split; [reflexivity|].
  assert (0 < inject_Z (Z.of_nat (length daily_returns)))%Q as Hn
    by (apply inject_nat_pos; lia).
  pose proof (filter_positive daily_returns) as Hwins. fold wins in Hwins.
  pose proof (filter_negative daily_returns) as Hlosses. fold losses in Hlosses.
  split.
  { rewrite lookup_insert_ne by done.
    repeat (case_decide || destruct (negb _));
      by rewrite ?lookup_insert_ne, ?lookup_singleton_eq by done. }
  split.
  { split.
    - apply Qmult_le_0_compat; [|lra]. apply Qle_shift_div_l; [done|].
      rewrite Qmult_0_l. change 0%Q with (inject_Z 0). rewrite <- Zle_Qle. lia.
    - assert (inject_Z (Z.of_nat (length wins))
              / inject_Z (Z.of_nat (length daily_returns)) <= 1)%Q; [|lra].
      apply Qle_shift_div_r; [done|]. rewrite Qmult_1_l, <- Zle_Qle.
      pose proof (filter_length_le (λ r, Is_true (Qltb 0 r)) daily_returns).
      fold wins in H. lia. }
  split.
  { destruct (decide (wins = [])) as [Hw|Hw].
    - rewrite Hw. simpl. rewrite lookup_insert_ne by done.
      destruct (negb _); rewrite lookup_insert_ne by done;
        case_decide; rewrite lookup_insert_ne by done;
        by rewrite lookup_insert_eq.
    - assert (0 < length wins) as Hlen by (destruct wins; [done|simpl; lia]).
      rewrite !(decide_True (P := 0 < length wins)) by done.
      eexists. split.
      + rewrite lookup_insert_ne by done.
        destruct (negb _); rewrite lookup_insert_ne by done;
          case_decide; rewrite lookup_insert_ne by done;
          by rewrite lookup_insert_eq.
      + pose proof (mean_pos wins Hw Hwins). lra. }
  destruct (decide (losses = [])) as [Hl|Hl].
  - rewrite Hl. simpl. split.
    + by rewrite !lookup_insert_ne, lookup_insert_eq by done.
    + by rewrite lookup_insert_ne, lookup_insert_eq by done.
  - assert (0 < length losses) as Hlen by (destruct losses; [done|simpl; lia]).
    rewrite !(decide_True (P := 0 < length losses)) by done.
    pose proof (mean_neg losses Hl Hlosses) as Hmean.
    assert (Qeq_bool (mean losses * 100) 0 = false) as ->.
    { apply not_true_iff_false. intros H%Qeq_bool_iff. lra. }
    cbn [negb]. eexists _, _.
    split; [by rewrite !lookup_insert_ne, lookup_insert_eq by done|].
    split; [lra|].
    split; [by rewrite lookup_insert_ne, lookup_insert_eq by done|].
    apply Qabs_nonneg.
Qed.

(** X20.  When no daily return is exactly zero, the expected daily return
    that [calculate_win_loss_metrics] reports is the mean daily return, the
    number reported as average daily return by [calculate_indicators]. *)
Theorem win_loss_expectancy_is_mean (daily_returns : list Q) :
  daily_returns ≠ [] →
  Forall (λ r, ¬ (r == 0)%Q) daily_returns →
  ∃ result expectancy,
    calculate_win_loss_metrics daily_returns = Some result
    ∧ result !! "每日期望收益" = Some (Fmt 4 expectancy "%")
    ∧ (expectancy == mean daily_returns * 100)%Q.
Proof.
  intros Hne Hnonzero. unfold calculate_win_loss_metrics.
  case_decide as Hempty; [by destruct daily_returns|].
  eexists _, _. split; [reflexivity|]. split; [by rewrite lookup_insert_eq|].
  destruct (returns_split daily_returns Hnonzero) as [Hlen Hsum].
  set (wins := filter (λ r, Qltb 0 r) daily_returns) in *.
  set (losses := filter (λ r, Qltb r 0) daily_returns) in *.
  assert (0 < inject_Z (Z.of_nat (length daily_returns)))%Q as Hn
    by (apply inject_nat_pos; lia).
  unfold mean at 3. rewrite Hsum.
  assert (inject_Z (Z.of_nat (length daily_returns))
          == inject_Z (Z.of_nat (length wins)) + inject_Z (Z.of_nat (length losses)))%Q
    as Hcount by (rewrite Hlen, Nat2Z.inj_add, inject_Z_plus; reflexivity).
  destruct (decide (0 < length wins)) as [Hw|Hw];
    destruct (decide (0 < length losses)) as [Hl|Hl].
  - pose proof (inject_nat_pos _ Hw). pose proof (inject_nat_pos _ Hl).
    unfold mean. rewrite Hcount in *. field. lra.
  - assert (losses = []) as Hnil by (destruct losses; [done|simpl in Hl; lia]).
    rewrite Hnil in *. simpl in *. pose proof (inject_nat_pos _ Hw).
    unfold mean. unfold Qsum at 3. simpl.
    rewrite Hcount in *. field. lra.
  - assert (wins = []) as Hnil by (destruct wins; [done|simpl in Hw; lia]).
    rewrite Hnil in *. simpl in *. pose proof (inject_nat_pos _ Hl).
    unfold mean. unfold Qsum at 2. simpl.
    rewrite Hcount in *. field. lra.
  - lia.
Qed.

(** ** The concentration coefficient *)

Ltac inject_norm :=
  rewrite ?Nat2Z.inj_succ, ?Nat2Z.inj_add in *; unfold Z.succ in *;
  rewrite ?inject_Z_plus in *;
  change (inject_Z (Z.of_nat 1)) with 1%Q in *;
  change (inject_Z (Z.of_nat 0)) with 0%Q in *;
  change (inject_Z 1) with 1%Q in *;
  change (inject_Z 0) with 0%Q in *.

Global Instance Qle_transitive : Transitive Qle.
Proof. intros x y z. apply Qle_trans. Qed.

Global Instance Qle_total : Total Qle.
Proof. intros x y. destruct (Qlt_le_dec x y); [left|right]; lra. Qed.

Lemma rank_sum_cons k x l :
  (rank_sum k (x :: l) == inject_Z (Z.of_nat (k + 1)) * x + rank_sum (S k) l)%Q.
Proof.
  unfold rank_sum. rewrite imap_cons, Qsum_cons.
  replace (k + 0 + 1) with (k + 1) by lia.
  assert (imap ((λ i weight, (inject_Z (Z.of_nat (k + i + 1)) * weight)%Q) ∘ S) l
          = imap (λ i weight, (inject_Z (Z.of_nat (S k + i + 1)) * weight)%Q) l) as ->.
  { apply imap_ext. intros i y _. simpl. do 3 f_equal. lia. }
  reflexivity.
Qed.

Lemma rank_sum_shift k l :
  (rank_sum (S k) l == rank_sum k l + Qsum l)%Q.
Proof.
  revert k. induction l as [|x l IH]; intros k.
  - unfold rank_sum, Qsum. simpl. change (inject_Z (Z.of_nat 0)) with 0%Q. lra.
  - rewrite !rank_sum_cons, IH, (IH k), Qsum_cons.
    replace (S k + 1) with (S (k + 1)) by lia.
    rewrite Nat2Z.inj_succ. unfold Z.succ. rewrite inject_Z_plus. change (inject_Z 1) with 1%Q. lra.
Qed.

Lemma Qsum_ge_first x l :
  Forall (Qle x) l → (inject_Z (Z.of_nat (length l)) * x <= Qsum l)%Q.
Proof.
  induction l as [|y l IH]; intros Hl.
  - unfold Qsum. simpl. change (inject_Z (Z.of_nat 0)) with 0%Q. lra.
  - apply Forall_cons in Hl as [Hy Hl]. specialize (IH Hl).
    rewrite Qsum_cons. simpl length. rewrite Nat2Z.inj_succ. unfold Z.succ.
    rewrite inject_Z_plus. change (inject_Z 1) with 1%Q. lra.
Qed.

(** On weights in ascending order the ranks weigh at least as much as the
    middle rank would. *)
Lemma rank_sum_sorted l :
  StronglySorted Qle l →
  (inject_Z (Z.of_nat (length l + 1)) * Qsum l <= 2 * rank_sum 0 l)%Q.
Proof.
  induction 1 as [|x l Hsorted IH Hx].
  - unfold rank_sum, Qsum. simpl. change (inject_Z (Z.of_nat 0)) with 0%Q. lra.
  - rewrite rank_sum_cons, rank_sum_shift, Qsum_cons. simpl length.
    pose proof (Qsum_ge_first x l Hx) as Hfirst.
    replace (S (length l) + 1) with (S (length l + 1)) by lia.
    inject_norm. nra.
Qed.

Lemma rank_sum_le l :
  Forall (λ x, (0 <= x)%Q) l →
  ∀ k, (rank_sum k l <= inject_Z (Z.of_nat (k + length l)) * Qsum l)%Q.
Proof.
  induction l as [|x l IH]; intros Hl k.
  - unfold rank_sum, Qsum. simpl. change (inject_Z (Z.of_nat 0)) with 0%Q. lra.
  - apply Forall_cons in Hl as [Hx Hl]. specialize (IH Hl (S k)).
    pose proof (Qsum_nonneg l Hl) as Hsum.
    rewrite rank_sum_cons, Qsum_cons. simpl length.
    replace (k + S (length l)) with (S k + length l) by lia.
    assert (inject_Z (Z.of_nat (k + 1)) <= inject_Z (Z.of_nat (S k + length l)))%Q
      by (rewrite <- Zle_Qle; lia).
    nra.
Qed.

Lemma rank_sum_equal w l :
  Forall (λ x, (x == w)%Q) l →
  (2 * rank_sum 0 l
   == inject_Z (Z.of_nat (length l)) * inject_Z (Z.of_nat (length l + 1)) * w)%Q.
Proof.
  induction l as [|x l IH]; intros Hl.
  - unfold rank_sum, Qsum. simpl. change (inject_Z (Z.of_nat 0)) with 0%Q. lra.
  - apply Forall_cons in Hl as [Hx Hl]. specialize (IH Hl).
    rewrite rank_sum_cons, rank_sum_shift. simpl length.
    assert (Qsum l == inject_Z (Z.of_nat (length l)) * w)%Q as Hsum.
    { clear IH. induction l as [|y l IH']; [unfold Qsum; simpl; change (inject_Z (Z.of_nat 0)) with 0%Q; lra|].
      apply Forall_cons in Hl as [Hy Hl]. rewrite Qsum_cons, (IH' Hl), Hy.
      simpl length. rewrite Nat2Z.inj_succ. unfold Z.succ.
      rewrite inject_Z_plus. change (inject_Z 1) with 1%Q. lra. }
    rewrite Hsum, Hx.
    replace (S (length l) + 1) with (S (length l + 1)) by lia.
    inject_norm. nra.
Qed.

(** The weights as the function ranks them: divided by 100 and sorted. *)
Lemma gini_weights (weights : list Q) :
  let sorted := merge_sort Qle ((λ w, (w / 100)%Q) <$> weights) in
  length sorted = length weights
  ∧ StronglySorted Qle sorted
  ∧ (Qsum sorted == Qsum weights / 100)%Q
  ∧ (∀ P : Q → Prop, Forall P ((λ w, (w / 100)%Q) <$> weights) → Forall P sorted).
Proof.
  intros sorted.
  pose proof (merge_sort_Permutation Qle ((λ w, (w / 100)%Q) <$> weights)) as Hperm.
  fold sorted in Hperm.
  split; [by rewrite Hperm, length_fmap|].
  split; [apply StronglySorted_merge_sort; apply _|].
  split.
  - rewrite (Qsum_perm _ _ Hperm). clear.
    induction weights as [|w l IH]; [reflexivity|].
    rewrite fmap_cons, !Qsum_cons, IH. field.
  - intros P HP. by rewrite Hperm.
Qed.

Lemma calculate_gini_coefficient_unfold (weights : list Q) :
  2 ≤ length weights →
  let sorted := merge_sort Qle ((λ w, (w / 100)%Q) <$> weights) in
  calculate_gini_coefficient weights
  = (1 - 2 * (rank_sum 0 sorted
              / (inject_Z (Z.of_nat (length sorted)) * Qsum sorted)))%Q.
Proof.
  intros Hlen sorted. unfold calculate_gini_coefficient. fold sorted.
  destruct (gini_weights weights) as (Hl & _). fold sorted in Hl.
  case_decide; [lia|]. done.
Qed.

(** X21.  For two or more non-negative weights that do not all vanish, the
    coefficient [calculate_gini_coefficient] returns is never positive: it
    lies between -1 and -1/n, where n is the number of weights. *)
Theorem calculate_gini_coefficient_bounds (weights : list Q) :
  2 ≤ length weights →
  Forall (λ w, (0 <= w)%Q) weights →
  (0 < Qsum weights)%Q →
  let n := inject_Z (Z.of_nat (length weights)) in
  (-1 <= calculate_gini_coefficient weights <= - (1 / n))%Q.
Proof.
  intros Hlen Hnonneg Hsum n.
  rewrite calculate_gini_coefficient_unfold by done.
  destruct (gini_weights weights) as (Hl & Hsorted & Hs & Hall).
  set (sorted := merge_sort Qle ((λ w, (w / 100)%Q) <$> weights)) in *.
  assert (Forall (λ x, (0 <= x)%Q) sorted) as Hnn.
  { apply Hall, Forall_fmap. eapply Forall_impl; [exact Hnonneg|].
    intros w Hw. cbn beta in *. apply Qle_shift_div_l; lra. }
  rewrite Hl. fold n.
  assert (0 < n)%Q as Hn by (apply inject_nat_pos; lia).
  assert (0 < Qsum sorted)%Q as Hpos by (rewrite Hs; apply Qlt_shift_div_l; lra).
  pose proof (rank_sum_sorted sorted Hsorted) as Hlow.
  pose proof (rank_sum_le sorted Hnn 0) as Hhigh.
  rewrite Hl in Hlow, Hhigh. simpl in Hhigh. fold n in Hhigh.
  rewrite Nat2Z.inj_add, inject_Z_plus in Hlow. fold n in Hlow.
  change (inject_Z (Z.of_nat 1)) with 1%Q in Hlow.
  assert (0 < n * Qsum sorted)%Q as Hden by nra.
  split.
  - assert (rank_sum 0 sorted / (n * Qsum sorted) <= 1)%Q; [|lra].
    apply Qle_shift_div_r; [done|]. lra.
  - assert ((n + 1) / (2 * n) <= rank_sum 0 sorted / (n * Qsum sorted))%Q as H.
    { apply Qle_shift_div_l; [done|].
      assert ((n + 1) / (2 * n) * (n * Qsum sorted) == (n + 1) * Qsum sorted / 2)%Q
        as -> by (field; lra).
      apply Qle_shift_div_r; [lra|]. lra. }
    assert (1 - 2 * ((n + 1) / (2 * n)) == - (1 / n))%Q as Heq by (field; lra).
    lra.
Qed.

(** X22.  For two or more equal positive weights the coefficient is exactly
    -1/n: an evenly split portfolio of two holdings is reported at -0.50. *)
Theorem calculate_gini_coefficient_even (weights : list Q) (w : Q) :
  2 ≤ length weights →
  (0 < w)%Q →
  Forall (λ x, (x == w)%Q) weights →
  let n := inject_Z (Z.of_nat (length weights)) in
  (calculate_gini_coefficient weights == - (1 / n))%Q.
Proof.
  intros Hlen Hw Hequal n.
  rewrite calculate_gini_coefficient_unfold by done.
  destruct (gini_weights weights) as (Hl & _ & Hs & Hall).
  set (sorted := merge_sort Qle ((λ w, (w / 100)%Q) <$> weights)) in *.
  assert (Forall (λ x, (x == w / 100)%Q) sorted) as Heq.
  { apply Hall, Forall_fmap. eapply Forall_impl; [exact Hequal|].
    intros x Hx. cbn beta. unfold Qdiv. apply Qmult_comp; [exact Hx|reflexivity]. }
  pose proof (rank_sum_equal _ _ Heq) as Hrank.
  assert (Qsum sorted == n * (w / 100))%Q as Hsum.
  { unfold n. rewrite <- Hl. clear -Heq.
    induction sorted as [|y l IH]; [unfold Qsum; simpl; change (inject_Z (Z.of_nat 0)) with 0%Q; lra|].
    apply Forall_cons in Heq as [Hy Heq]. rewrite Qsum_cons, (IH Heq), Hy.
    simpl length. rewrite Nat2Z.inj_succ. unfold Z.succ.
    rewrite inject_Z_plus. change (inject_Z 1) with 1%Q. lra. }
  rewrite Hl in *. fold n in Hrank |- *.
  rewrite Nat2Z.inj_add, inject_Z_plus in Hrank. fold n in Hrank.
  change (inject_Z (Z.of_nat 1)) with 1%Q in Hrank.
  assert (0 < n)%Q as Hn by (apply inject_nat_pos; lia).
  assert (0 < w / 100)%Q as Ht by (apply Qlt_shift_div_l; lra).
  clear Hs. revert Hrank Hsum Ht. generalize (w / 100)%Q. intros t Hrank Hsum Ht.
  assert (rank_sum 0 sorted == (1 # 2) * (n * (n + 1) * t))%Q as -> by lra.
  rewrite Hsum. field. lra.
Qed.

(** ** The weights of the holdings *)

Section Weights.

Variable yf_download : string → date_string → date_string → option prices.
Variable np_log : Q → Q.

Lemma calculate_portfolio_value_consistent transactions start_date end_date :
  let portfolio_value :=
    calculate_portfolio_value yf_download transactions start_date end_date in
  consistent (length (Date portfolio_value)) (TotalValue portfolio_value)
             (symbol_columns portfolio_value).
Proof.
  unfold calculate_portfolio_value, aggregate.
  destruct (parse start_date) as [s|]; [destruct (parse end_date) as [e|]|].
  - simpl.
    destruct (value_transactions _ _ _ _) as [pv|] eqn:E; simpl.
    + rewrite length_fmap.
      eapply (value_transactions_consistent (length (date_range s e))); [|exact E].
      apply zero_table_consistent. intros sym col.
      apply zero_columns_lookup. intros ? ?. by rewrite lookup_empty.
    + apply (zero_table_consistent 1). intros sym col.
      apply (zero_columns_lookup 1). intros ? ?. by rewrite lookup_empty.
  - simpl. apply (zero_table_consistent 1). intros sym col.
    apply (zero_columns_lookup 1). intros ? ?. by rewrite lookup_empty.
  - simpl. apply (zero_table_consistent 1). intros sym col.
    apply (zero_columns_lookup 1). intros ? ?. by rewrite lookup_empty.
Qed.

Lemma Qsum_scale (c : Q) (l : list Q) :
  (Qsum ((λ v, (v / c * 100)%Q) <$> l) == Qsum l / c * 100)%Q.
Proof.
  induction l as [|x l IH]; [reflexivity|].
  rewrite fmap_cons, !Qsum_cons, IH. unfold Qdiv. ring.
Qed.

Lemma Qsum_fmap_Qeq {A} (f g : A → Q) (l : list A) :
  Forall (λ x, (f x == g x)%Q) l → (Qsum (f <$> l) == Qsum (g <$> l))%Q.
Proof.
  induction 1 as [|x l Hx _ IH]; [reflexivity|].
  rewrite !fmap_cons, !Qsum_cons, IH, Hx. reflexivity.
Qed.

(** The latest values of the holdings add up to the final portfolio value,
    once that is positive. *)
Lemma latest_values_total (df : frame) :
  consistent (length (Date df)) (TotalValue df) (symbol_columns df) →
  (0 < final_value (TotalValue df))%Q →
  let latest_values := (λ col : list Q, default 0%Q (last col)) <$> symbol_columns df in
  (Qsum (map_to_list latest_values).*2 == final_value (TotalValue df))%Q
  ∧ latest_values ≠ ∅.
Proof.
  intros (Hlen & Hcols & Htotal) Hpos latest_values.
  unfold final_value in *.
  destruct (last (TotalValue df)) as [v|] eqn:Hlast; [|lra].
  assert (Qltb v 0 = false) as Hv.
  { destruct (Qltb v 0) eqn:E; [lra|done]. }
  rewrite Hv in *.
  rewrite last_lookup in Hlast.
  set (rows := length (Date df)) in *. rewrite Hlen in Hlast.
  assert (0 < rows) as Hrows.
  { apply lookup_lt_Some in Hlast. lia. }
  specialize (Htotal (pred rows) ltac:(lia)).
  rewrite (list_lookup_total_correct _ _ _ Hlast) in Htotal.
  assert (Qsum (map_to_list latest_values).*2
          == symbol_total (symbol_columns df) (pred rows))%Q as Hsum.
  { unfold latest_values, symbol_total.
    rewrite map_to_list_fmap, <- !list_fmap_compose.
    apply Qsum_fmap_Qeq, Forall_forall. intros [sym col] Hin. simpl.
    apply elem_of_map_to_list in Hin. specialize (Hcols _ _ Hin).
    rewrite last_lookup, Hcols.
    rewrite (list_lookup_lookup_total_lt col (pred rows)) by lia. reflexivity. }
  split; [by rewrite Hsum, <- Htotal|].
  intros Hempty. rewrite Hempty, map_to_list_empty in Hsum.
  unfold Qsum in Hsum. simpl in Hsum. lra.
Qed.

(** X23.  For a frame produced by the valuation whose final value is
    positive, the report lists a weight for every ticker column, each the
    share of the ticker's last value in the final portfolio value, and the
    weights add up to 100%. *)
Theorem weights_sum_to_100 transactions start_date end_date
    (indicators : gmap string value) :
  let df := calculate_portfolio_value yf_download transactions start_date end_date in
  let fv := final_value (TotalValue df) in
  let weights :=
    (λ col : list Q, (default 0%Q (last col) / fv * 100)%Q) <$> symbol_columns df in
  (0 < fv)%Q →
  portfolio_analysis np_log df fv indicators !! "股票权重"
  = Some (Group ((λ w, Fmt 2 w "%") <$> weights))
  ∧ (Qsum (map_to_list weights).*2 == 100)%Q.
Proof.
  intros df fv weights Hpos.
  destruct (latest_values_total df
              (calculate_portfolio_value_consistent transactions start_date end_date)
              Hpos) as [Hsum Hne].
  fold fv in Hsum.
  assert (weights
          = (λ v, (v / fv * 100)%Q)
              <$> ((λ col : list Q, default 0%Q (last col)) <$> symbol_columns df))
    as Hweights by (unfold weights; by rewrite <- map_fmap_compose).
  split.
  - unfold portfolio_analysis.
    rewrite (proj2 (Qltb_lt _ _) Hpos), bool_decide_eq_true_2 by done. simpl.
    rewrite <- Hweights.
    destruct (max_contributor _); case_decide;
      by rewrite !lookup_insert_ne, lookup_insert_eq by done.
  - rewrite Hweights, map_to_list_fmap, <- list_fmap_compose.
    change (snd ∘ prod_map id (λ v : Q, (v / fv * 100)%Q))
      with ((λ v : Q, (v / fv * 100)%Q) ∘ (snd : string * Q → Q)).
    rewrite list_fmap_compose, Qsum_scale, Hsum. field. lra.
Qed.

End Weights.

(** ** The time-weighted return *)

Lemma foldl_Qmult_comp (l : list Q) (c d : Q) :
  (c == d)%Q → (foldl Qmult c l == foldl Qmult d l)%Q.
Proof.
  revert c d. induction l as [|z l IH]; intros c d Hcd; simpl; [done|].
  apply IH. by rewrite Hcd.
Qed.

Lemma foldl_Qmult_scale (l : list Q) (a b : Q) :
  (foldl Qmult (a * b) l == a * foldl Qmult b l)%Q.
Proof.
  revert b. induction l as [|y l IH]; intros b; simpl; [reflexivity|].
  rewrite <- IH. apply foldl_Qmult_comp. ring.
Qed.

Lemma np_prod_cons x l : (np_prod (x :: l) == x * np_prod l)%Q.
Proof.
  unfold np_prod. simpl. rewrite <- foldl_Qmult_scale.
  apply foldl_Qmult_comp. ring.
Qed.

Lemma spec_daily_returns_telescope (a : Q) (W : list Q) :
  (0 < a)%Q → Forall (λ v, (0 < v)%Q) W →
  length (spec_daily_returns (a :: W)) = length W
  ∧ (np_prod ((λ r, (1 + r)%Q) <$> spec_daily_returns (a :: W))
     == default a (last W) / a)%Q.
Proof.
  revert a. induction W as [|b W IH]; intros a Ha HW.
  - simpl. split; [done|]. unfold np_prod. simpl. field. lra.
  - apply Forall_cons in HW as [Hb HW].
    change (spec_daily_returns (a :: b :: W)) with
      (if Qltb 0 a then ((b - a) / a)%Q :: spec_daily_returns (b :: W)
       else spec_daily_returns (b :: W)).
    rewrite (proj2 (Qltb_lt _ _) Ha).
    destruct (IH b Hb HW) as [IHlen IHprod].
    split; [cbn [length]; by rewrite IHlen|].
    rewrite fmap_cons, np_prod_cons, IHprod.
    assert (default a (last (b :: W)) = default b (last W)) as ->.
    { rewrite last_cons. by destruct (last W). }
    field. lra.
Qed.

(** X24.  On a series of two or more values that are all positive, every
    adjacent pair yields a daily return, and the time-weighted return that
    compounds them is the simple return from the first value to the last. *)
Theorem time_weighted_return_telescopes (total_values : list Q) :
  2 ≤ length total_values →
  Forall (λ v, (0 < v)%Q) total_values →
  let first := total_values !!! 0%nat in
  let final := total_values !!! (length total_values - 1)%nat in
  length (daily_returns total_values) = length total_values - 1
  ∧ ∃ twr, time_weighted_return (daily_returns total_values) = Fmt 2 twr "%"
           ∧ (twr == (final - first) / first * 100)%Q.
Proof.
  intros Hlen Hpos first final.
  rewrite daily_returns_by_index, <- spec_daily_returns_by_index.
  destruct total_values as [|a W]; [simpl in Hlen; lia|].
  apply Forall_cons in Hpos as [Ha HW].
  destruct (spec_daily_returns_telescope a W Ha HW) as [Hl Hprod].
  split; [rewrite Hl; simpl; lia|].
  unfold time_weighted_return. rewrite Hl.
  rewrite decide_True by (simpl in Hlen; lia).
  eexists. split; [reflexivity|]. rewrite Hprod.
  assert (default a (last W) = final) as ->.
  { unfold final. replace (length (a :: W) - 1) with (length W) by (simpl; lia).
    clear. revert a. induction W as [|b W IH]; intros a; [done|].
    rewrite last_cons. specialize (IH b). simpl in *.
    destruct (last W); [done|]. exact IH. }
  change first with a. field. lra.
Qed.

(** ** From the valuation to the report *)

Section Pipeline.

Variable yf_download : string → date_string → date_string → option prices.
Variable float_pow : Q → Q → Q.
Variable np_sqrt : Q → Q.
Variable np_log : Q → Q.

(** X25.  A request that cannot give two rows gets the one-entry report:
    when the start date, the end date or a buy date is malformed (the
    valuation falls back to its one-row frame), or when the end date is not
    after the start date, the indicators computed from the valuation are
    just the remark that there are not enough data points. *)
Theorem short_range_report transactions start_date end_date :
  parse start_date = None ∨ parse end_date = None
  ∨ Exists (λ tx, parse (buy_date tx) = None) transactions
  ∨ (∃ s e, start_date = ISO s ∧ end_date = ISO e ∧ (e ≤ s)%Z) →
  calculate_indicators float_pow np_sqrt np_log
    (calculate_portfolio_value yf_download transactions start_date end_date)
    transactions
  = Some {[ "信息" := Text "数据点不足，无法计算有意义的指标" ]}.
Proof.
  intros Hshort. apply calculate_indicators_short.
  destruct (calculate_portfolio_value_cases yf_download transactions
              start_date end_date) as [[-> _]|(s & e & -> & -> & Hall & ->)].
  - simpl. lia.
  - destruct Hshort as [?|[?|[Hbad|(s' & e' & [= <-] & [= <-] & Hle)]]]; try done.
    + apply Exists_exists in Hbad as (tx & Htx & Hnone).
      rewrite Forall_forall in Hall. destruct (Hall tx Htx). congruence.
    + rewrite length_fmap. unfold date_range. rewrite length_fmap, length_seq. lia.
Qed.

(** X26.  In every report computed from at least two rows the total return
    is a number of at least -100%; it is exactly -100% when the last total
    is zero or negative, and it is positive exactly when the final value
    exceeds the initial investment. *)
Theorem total_return_bounds df txs r :
  2 ≤ length (Date df) →
  calculate_indicators float_pow np_sqrt np_log df txs = Some r →
  ∃ total_return,
    r !! "总收益率" = Some (Fmt 2 total_return "%")
    ∧ (-100 <= total_return)%Q
    ∧ ((total_return == -100)%Q ↔
       match last (TotalValue df) with
       | Some v => (v <= 0)%Q
       | None => True
       end)
    ∧ ((0 < total_return)%Q ↔
       (initial_investment txs < final_value (TotalValue df))%Q).
Proof.
  intros Hrows Hr.
  destruct (calculate_indicators_entries _ _ _ _ _ _ Hrows Hr)
    as (dates & _ & Htotal & _).
  rewrite total_return_entry_numeric in Htotal.
  eexists. split; [exact Htotal|].
  pose proof (initial_investment_pos txs) as Hinit.
  unfold total_return. set (init := initial_investment txs) in *.
  assert (0 <= final_value (TotalValue df))%Q as Hfv.
  { unfold final_value. destruct (last _) as [v|]; [|lra].
    destruct (Qltb v 0) eqn:E; [lra|]. by apply Qltb_ge in E. }
  assert ((final_value (TotalValue df) == 0)%Q ↔
          match last (TotalValue df) with
          | Some v => (v <= 0)%Q
          | None => True
          end) as Hzero.
  { unfold final_value. destruct (last _) as [v|]; [|done].
    destruct (Qltb v 0) eqn:E.
    - apply Qltb_lt in E. split; [lra|done].
    - apply Qltb_ge in E. split; lra. }
  set (fv := final_value (TotalValue df)) in *.
  assert ((fv - init) / init * 100 == (fv / init) * 100 - 100)%Q as ->
    by (field; lra).
  assert (0 <= fv / init)%Q as Hratio by (apply Qle_shift_div_l; lra).
  split; [lra|]. split.
  - rewrite <- Hzero. split.
    + intros H. assert (fv / init == 0)%Q as H0 by lra.
      assert (fv == fv / init * init)%Q as -> by (field; lra).
      rewrite H0. ring.
    + intros H. rewrite H. field. lra.
  - split.
    + intros H. assert (1 < fv / init)%Q as H1 by lra.
      assert (fv == fv / init * init)%Q as -> by (field; lra). nra.
    + intros H. assert (1 < fv / init)%Q; [|lra].
      apply Qlt_shift_div_l; lra.
Qed.

End Pipeline.

Section EndpointProperties.

Import App.

Variable yf_download : string → date_string → date_string → option prices.
Variable float_pow : Q → Q → Q.
Variable np_sqrt : Q → Q.
Variable np_log : Q → Q.
Variable today : Z.
Variable str_e : string.






End EndpointProperties.

(** ** The properties on the sample inputs *)

Lemma calculate_max_drawdown_largest_decline_witness :
  2 ≤ length dip_series
  ∧ Forall (λ v, (0 <= v)%Q) dip_series
  ∧ ((100 - 70) / 100 <= calculate_max_drawdown dip_series)%Q.
Proof.
  assert (2 ≤ length dip_series) as Hlen by (simpl; lia).
  assert (Forall (λ v, (0 <= v)%Q) dip_series) as Hnonneg
    by (repeat constructor; by vm_compute).
  split; [exact Hlen|]. split; [exact Hnonneg|].
  pose proof (calculate_max_drawdown_largest_decline dip_series Hlen Hnonneg) as H.
  cbv zeta in H. destruct H as [H _].
  apply (H 0 1 100%Q 70%Q); [lia|reflexivity|reflexivity|reflexivity].
Defined.

Lemma calculate_max_drawdown_bounds_witness :
  Forall (λ v, (0 <= v)%Q) dip_series
  ∧ (0 <= calculate_max_drawdown dip_series <= 1)%Q.
Proof.
  assert (Forall (λ v, (0 <= v)%Q) dip_series) as Hnonneg
    by (repeat constructor; by vm_compute).
  split; [exact Hnonneg|].
  exact (calculate_max_drawdown_bounds dip_series Hnonneg).
Defined.

Lemma drawdown_metrics_window_witness :
  let st := DrawdownMetrics.scan dip_series in
  (0 < DrawdownMetrics.max_drawdown st)%Q
  ∧ DrawdownMetrics.max_drawdown_start_idx st
    ≤ DrawdownMetrics.max_drawdown_end_idx st < length dip_series.
Proof.
  intros st.
  assert (0 < DrawdownMetrics.max_drawdown st)%Q as Hpos by (by vm_compute).
  split; [exact Hpos|].
  pose proof (drawdown_metrics_window dip_series) as H.
  cbv zeta in H. destruct (H Hpos) as [H' _]. exact H'.
Defined.

Lemma drawdown_metrics_recovery_witness :
  let dates := [0; 1; 2; 3; 4]%Z in
  5 ≤ length dip_series
  ∧ length dates = length dip_series
  ∧ calculate_drawdown_metrics dip_series dates !! "最大回撤结束日期"
    = Some (DateStr 1).
Proof.
  intros dates.
  assert (5 ≤ length dip_series) as Hlen by (simpl; lia).
  assert (length dates = length dip_series) as Hdates by reflexivity.
  split; [exact Hlen|]. split; [exact Hdates|].
  pose proof (drawdown_metrics_recovery dip_series dates Hlen Hdates) as H.
  cbv zeta in H.
  assert (Qltb 0 (DrawdownMetrics.max_drawdown (DrawdownMetrics.scan dip_series))
          = true) as Hpos by (by vm_compute).
  rewrite Hpos in H. destruct H as (_ & H & _). rewrite H.
  by vm_compute.
Defined.

Lemma win_loss_metrics_entries_witness :
  let daily_returns := [1 # 10; - (1 # 20)]%Q in
  daily_returns ≠ []
  ∧ ∃ result win_rate,
      calculate_win_loss_metrics daily_returns = Some result
      ∧ result !! "详细胜率" = Some (Fmt 2 win_rate "%")
      ∧ (0 <= win_rate <= 100)%Q.
Proof.
  intros daily_returns.
  assert (daily_returns ≠ []) as Hne by done.
  split; [exact Hne|].
  destruct (win_loss_metrics_entries daily_returns Hne)
    as (result & win_rate & Hresult & Hrate & Hbounds & _).
  by exists result, win_rate.
Defined.

Lemma win_loss_expectancy_is_mean_witness :
  let daily_returns := [1 # 10; - (1 # 20)]%Q in
  daily_returns ≠ []
  ∧ Forall (λ r, ¬ (r == 0)%Q) daily_returns
  ∧ ∃ result expectancy,
      calculate_win_loss_metrics daily_returns = Some result
      ∧ result !! "每日期望收益" = Some (Fmt 4 expectancy "%")
      ∧ (expectancy == mean daily_returns * 100)%Q.
Proof.
  intros daily_returns.
  assert (daily_returns ≠ []) as Hne by done.
  assert (Forall (λ r, ¬ (r == 0)%Q) daily_returns) as Hnonzero
    by (repeat constructor; by vm_compute).
  split; [exact Hne|]. split; [exact Hnonzero|].
  exact (win_loss_expectancy_is_mean daily_returns Hne Hnonzero).
Defined.

Lemma calculate_gini_coefficient_bounds_witness :
  let weights := [60; 40]%Q in
  2 ≤ length weights
  ∧ Forall (λ w, (0 <= w)%Q) weights
  ∧ (0 < Qsum weights)%Q
  ∧ (-1 <= calculate_gini_coefficient weights <= - (1 / 2))%Q.
Proof.
  intros weights.
  assert (2 ≤ length weights) as Hlen by (simpl; lia).
  assert (Forall (λ w, (0 <= w)%Q) weights) as Hnonneg
    by (repeat constructor; by vm_compute).
  assert (0 < Qsum weights)%Q as Hsum by (by vm_compute).
  split; [exact Hlen|]. split; [exact Hnonneg|]. split; [exact Hsum|].
  exact (calculate_gini_coefficient_bounds weights Hlen Hnonneg Hsum).
Defined.

Lemma calculate_gini_coefficient_even_witness :
  let weights := [50; 50]%Q in
  2 ≤ length weights
  ∧ (0 < 50)%Q
  ∧ Forall (λ x, (x == 50)%Q) weights
  ∧ (calculate_gini_coefficient weights == - (1 / 2))%Q.
Proof.
  intros weights.
  assert (2 ≤ length weights) as Hlen by (simpl; lia).
  assert (0 < 50)%Q as Hw by reflexivity.
  assert (Forall (λ x, (x == 50)%Q) weights) as Hequal
    by (repeat constructor; by vm_compute).
  split; [exact Hlen|]. split; [exact Hw|]. split; [exact Hequal|].
  exact (calculate_gini_coefficient_even weights 50 Hlen Hw Hequal).
Defined.

Lemma weights_sum_to_100_witness :
  let df := calculate_portfolio_value full_history [sample_tx] (ISO 3) (ISO 9) in
  let fv := final_value (TotalValue df) in
  (0 < fv)%Q
  ∧ (Qsum (map_to_list
             ((λ col : list Q, (default 0%Q (last col) / fv * 100)%Q)
                <$> symbol_columns df)).*2 == 100)%Q.
Proof.
  intros df fv.
  assert (0 < fv)%Q as Hpos by (by vm_compute).
  split; [exact Hpos|].
  pose proof (weights_sum_to_100 full_history id [sample_tx] (ISO 3) (ISO 9) ∅) as H.
  cbv zeta in H. destruct (H Hpos) as [_ H']. exact H'.
Defined.

Lemma time_weighted_return_telescopes_witness :
  let total_values := [100; 110; 121]%Q in
  2 ≤ length total_values
  ∧ Forall (λ v, (0 < v)%Q) total_values
  ∧ length (daily_returns total_values) = 2.
Proof.
  intros total_values.
  assert (2 ≤ length total_values) as Hlen by (simpl; lia).
  assert (Forall (λ v, (0 < v)%Q) total_values) as Hpos
    by (repeat constructor; by vm_compute).
  split; [exact Hlen|]. split; [exact Hpos|].
  pose proof (time_weighted_return_telescopes total_values Hlen Hpos) as H.
  cbv zeta in H. destruct H as [H _]. exact H.
Defined.

Lemma short_range_report_witness :
  let start_date := Malformed "yesterday" in
  (parse start_date = None ∨ parse (ISO 3) = None
   ∨ Exists (λ tx, parse (buy_date tx) = None) [sample_tx]
   ∨ (∃ s e, start_date = ISO s ∧ ISO 3 = ISO e ∧ (e ≤ s)%Z))
  ∧ calculate_indicators (λ _ _, 1%Q) id id
      (calculate_portfolio_value full_history [sample_tx] start_date (ISO 3))
      [sample_tx]
    = Some {[ "信息" := Text "数据点不足，无法计算有意义的指标" ]}.
Proof.
  intros start_date.
  assert (parse start_date = None ∨ parse (ISO 3) = None
          ∨ Exists (λ tx, parse (buy_date tx) = None) [sample_tx]
          ∨ (∃ s e, start_date = ISO s ∧ ISO 3 = ISO e ∧ (e ≤ s)%Z)) as Hshort
    by (by left).
  split; [exact Hshort|].
  exact (short_range_report full_history (λ _ _, 1%Q) id id [sample_tx]
           start_date (ISO 3) Hshort).
Defined.

Lemma total_return_bounds_witness :
  let df := sample_frame [100; 120]%Q in
  let report := calculate_indicators (λ _ _, 1%Q) id id df [sample_tx] in
  2 ≤ length (Date df)
  ∧ is_Some report
  ∧ ∃ total_return,
      report ≫= (.!! "总收益率") = Some (Fmt 2 total_return "%")
      ∧ (-100 <= total_return)%Q.
Proof.
  intros df report.
  assert (is_Some report) as [r Hr] by report_returned.
  assert (2 ≤ length (Date df)) as Hrows by (simpl; lia).
  split; [exact Hrows|]. split; [by exists r|].
  destruct (total_return_bounds (λ _ _, 1%Q) id id df [sample_tx] r Hrows Hr)
    as (total_return & Hentry & Hbound & _).
  exists total_return. rewrite Hr. split; [exact Hentry|exact Hbound].
Defined.

Section EndpointSamples.

Import App.



End EndpointSamples.

(** ** A flat series has no report *)

Lemma filter_all {A} (P : A → Prop) `{!∀ x, Decision (P x)} (l : list A) :
  Forall P l → filter P l = l.
Proof.
  induction 1 as [|x l Hx _ IH]; [done|].
  by rewrite filter_cons_True, IH.
Qed.

Lemma filter_none {A} (P : A → Prop) `{!∀ x, Decision (P x)} (l : list A) :
  Forall (λ x, ¬ P x) l → filter P l = [].
Proof.
  induction 1 as [|x l Hx _ IH]; [done|].
  by rewrite filter_cons_False.
Qed.

Lemma Qsum_Qeq_zeros (l : list Q) : Forall (λ x, (x == 0)%Q) l → (Qsum l == 0)%Q.
Proof.
  induction 1 as [|x l Hx _ IH]; [reflexivity|].
  rewrite Qsum_cons, Hx, IH. reflexivity.
Qed.

Lemma sample_variance_flat (l : list Q) :
  Forall (λ x, (x == 0)%Q) l → (sample_variance l == 0)%Q.
Proof.
  intros Hl. unfold sample_variance.
  assert (mean l == 0)%Q as Hmean.
  { unfold mean. rewrite (Qsum_Qeq_zeros l Hl). unfold Qdiv. ring. }
  assert (Qsum ((λ x, (x - mean l) * (x - mean l))%Q <$> l) == 0)%Q as ->.
  { apply Qsum_Qeq_zeros, Forall_fmap. eapply Forall_impl; [exact Hl|].
    intros x Hx. change ((x - mean l) * (x - mean l) == 0)%Q.
    assert (x - mean l == 0)%Q as H0 by (cbn beta in Hx; lra). rewrite H0. ring. }
  unfold Qdiv. ring.
Qed.

(** The daily returns of a flat positive series: one per adjacent pair, all
    zero. *)
Lemma daily_returns_flat (n : nat) (v : Q) :
  (0 < v)%Q →
  length (daily_returns (replicate n v)) = n - 1
  ∧ Forall (λ r, (r == 0)%Q) (daily_returns (replicate n v)).
Proof.
  intros Hv. rewrite daily_returns_by_index. unfold returns_by_index.
  rewrite length_replicate.
  rewrite (filter_all (λ i, Is_true (Qltb 0 (replicate n v !!! i)))).
  2:{ apply Forall_forall. intros i Hi%elem_of_seq.
      rewrite lookup_total_replicate_2 by lia.
      by apply Is_true_true, Qltb_lt. }
  split; [by rewrite length_fmap, length_seq|].
  apply Forall_fmap, Forall_forall. intros i Hi%elem_of_seq.
  unfold compose. cbn beta.
  rewrite !lookup_total_replicate_2 by lia. unfold Qdiv. ring.
Qed.

Lemma rolling_windows_flat (returns : list Q) (window : nat) :
  Forall (λ r, (r == 0)%Q) returns →
  Forall (Forall (λ r, (r == 0)%Q)) (rolling_windows returns window).
Proof.
  intros Hflat. unfold rolling_windows. apply Forall_fmap, Forall_forall.
  intros k _. unfold compose. cbn beta. by apply Forall_take, Forall_drop.
Qed.

Section FlatSeries.

Variable float_pow : Q → Q → Q.
Variable np_sqrt : Q → Q.
Variable np_log : Q → Q.

(** The square root of zero is not positive. *)
Hypothesis np_sqrt_zero : ∀ x, (x == 0)%Q → (np_sqrt x <= 0)%Q.

(** With no movement in any window, [rolling_std[rolling_std > 0]] is empty
    and [idxmin] raises. *)
Lemma calculate_rolling_metrics_flat (daily_returns : list Q) (window : nat) :
  window ≤ length daily_returns →
  Forall (λ r, (r == 0)%Q) daily_returns →
  calculate_rolling_metrics np_sqrt daily_returns window = None.
Proof.
  intros Hlen Hflat. unfold calculate_rolling_metrics.
  rewrite decide_False by lia. cbv zeta.
  rewrite (filter_none (λ x, Is_true (Qltb 0 x))); [done|].
  apply Forall_fmap, Forall_forall. intros w Hw. unfold compose. cbn beta.
  pose proof (rolling_windows_flat daily_returns window Hflat) as Hwindows.
  rewrite Forall_forall in Hwindows. specialize (Hwindows w Hw).
  intros Hpos%Is_true_true%Qltb_lt.
  pose proof (np_sqrt_zero _ (sample_variance_flat w Hwindows)).
  unfold std in Hpos. lra.
Qed.

Lemma add_rolling_flat_raises (daily_returns : list Q)
    (indicators : gmap string value) :
  20 ≤ length daily_returns →
  Forall (λ r, (r == 0)%Q) daily_returns →
  add_rolling np_sqrt daily_returns indicators = None.
Proof.
  intros Hlen Hflat. unfold add_rolling.
  rewrite decide_True by done.
  rewrite (calculate_rolling_metrics_flat daily_returns 20 Hlen Hflat). done.
Qed.

(** A frame whose totals stay at one positive value over 21 rows or more
    gets no report: [calculate_indicators] raises. *)
Lemma calculate_indicators_flat df txs (n : nat) (v : Q) :
  TotalValue df = replicate n v → 21 ≤ n → (0 < v)%Q →
  2 ≤ length (Date df) →
  calculate_indicators float_pow np_sqrt np_log df txs = None.
Proof.
  intros Htotal Hn Hv Hrows. unfold calculate_indicators.
  rewrite decide_False by lia.
  destruct (mapM parse (Date df)) as [dates|]; [|done].
  cbn [mbind option_bind]. cbv zeta. rewrite Htotal.
  destruct (daily_returns_flat n v Hv) as [Hlen Hflat].
  unfold risk_indicators. rewrite decide_True by lia. cbv zeta.
  assert (20 ≤ length (daily_returns (replicate n v))) as H20 by lia.
  rewrite (add_rolling_flat_raises _ _ H20 Hflat). done.
Qed.

End FlatSeries.

Lemma flat_frame_totals :
  TotalValue flat_frame = replicate 22 100%Q
  ∧ length (Date flat_frame) = 22
  ∧ size (symbol_columns flat_frame) = 1.
Proof. repeat split; vm_compute; reflexivity. Qed.

(** C9, on a holding whose price never moves.  One share, bought at 100 and
    quoted at 100 on each of 22 days, is a single-transaction portfolio with
    a positive final value.  Its 21 daily returns are all zero, so the
    rolling deviation is zero in every window, the selection
    [rolling_std[rolling_std > 0]] is empty and [idxmin] raises in
    [calculate_rolling_metrics]: [calculate_indicators] is left before its
    portfolio block and returns no report, hence neither a Gini coefficient
    nor a diversity score, and the endpoint answers with the error entry in
    place of the indicators.  The portfolio block alone writes 1.00 and 0.00
    for this frame, as it does in every report that is returned for a single
    holding with a positive final value. *)
Theorem single_holding_flat_series_unreported :
  size (symbol_columns flat_frame) = 1
  ∧ (0 < final_value (TotalValue flat_frame))%Q
  ∧ (∀ float_pow np_sqrt np_log,
       (∀ x, (x == 0)%Q → (np_sqrt x <= 0)%Q) →
       calculate_indicators float_pow np_sqrt np_log flat_frame [sample_tx] = None)
  ∧ calculate_indicators (λ _ _, 1%Q) id id flat_frame [sample_tx] = None
  ∧ (∀ float_pow np_sqrt np_log today str_e,
       (∀ x, (x == 0)%Q → (np_sqrt x <= 0)%Q) →
       App.calculate_portfolio_values flat_market float_pow np_sqrt np_log
         today str_e
         {| App.transactions := [sample_tx];
            App.start_date := Some (ISO 0);
            App.end_date := Some (ISO 21) |}
       = Some {| App.portfolio_value := flat_frame;
                 App.indicators := {[ "计算错误" := Text str_e ]} |})
  ∧ (∀ np_log indicators,
       let analysis :=
         portfolio_analysis np_log flat_frame
           (final_value (TotalValue flat_frame)) indicators in
       analysis !! "投资集中度(基尼系数)" = Some (Text "1.00 (单一投资)")
       ∧ analysis !! "投资多样性(熵值)" = Some (Text "0.00 (单一投资)"))
  ∧ (∀ float_pow np_sqrt np_log df txs r,
       2 ≤ length (Date df) →
       calculate_indicators float_pow np_sqrt np_log df txs = Some r →
       size (symbol_columns df) = 1 →
       (0 < final_value (TotalValue df))%Q →
       r !! "投资集中度(基尼系数)" = Some (Text "1.00 (单一投资)")
       ∧ r !! "投资多样性(熵值)" = Some (Text "0.00 (单一投资)"))
  ∧ (calculate_indicators (λ _ _, 1%Q) id id (sample_frame [100; 120]%Q) [sample_tx]
       ≫= (.!! "投资集中度(基尼系数)")
     = Some (Text "1.00 (单一投资)"))
  ∧ ∀ np_log w,
      calculate_gini_coefficient [w] = 1%Q
      ∧ calculate_diversity_score np_log [w] = 0%Q.
Proof.
  destruct flat_frame_totals as (Htotal & Hrows & Hsize).
  assert (0 < final_value (TotalValue flat_frame))%Q as Hfinal
    by (rewrite Htotal; by vm_compute).
  assert (∀ float_pow np_sqrt np_log txs,
            (∀ x, (x == 0)%Q → (np_sqrt x <= 0)%Q) →
            calculate_indicators float_pow np_sqrt np_log flat_frame txs = None)
    as Hraises.
  { intros float_pow np_sqrt np_log txs Hsqrt.
    apply (calculate_indicators_flat float_pow np_sqrt np_log Hsqrt
             flat_frame txs 22 100%Q Htotal); [lia|reflexivity|lia]. }
  split; [exact Hsize|]. split; [exact Hfinal|].
  split; [intros; by apply Hraises|].
  split; [apply Hraises; intros x Hx; unfold id; lra|].
  split.
  { intros float_pow np_sqrt np_log today str_e Hsqrt.
    unfold App.calculate_portfolio_values, App.request_start, App.request_end.
    cbn [App.start_date App.end_date App.transactions App.given default
         mbind option_bind].
    fold flat_frame. by rewrite Hraises. }
  split; [intros np_log indicators; by apply portfolio_analysis_single|].
  split.
  { intros float_pow np_sqrt np_log df txs r Hdf Hr Hone Hpos.
    destruct (single_holding_concentration_reported float_pow np_sqrt np_log
                df txs r Hdf Hr Hone Hpos) as (Hg & Hd & _).
    by split. }
  split.
  { assert (is_Some (calculate_indicators (λ _ _, 1%Q) id id
                       (sample_frame [100; 120]%Q) [sample_tx]))
      as [r Hr] by report_returned.
    rewrite Hr. cbn [mbind option_bind].
    apply (single_holding_concentration_reported (λ _ _, 1%Q) id id
             (sample_frame [100; 120]%Q) [sample_tx] r);
      [simpl; lia | exact Hr | vm_compute; reflexivity | vm_compute; reflexivity]. }
  intros np_log w.
  split; [apply calculate_gini_coefficient_single
         |apply calculate_diversity_score_single].
Qed.

(** C10, on a flat series.  The floor holds as stated: the initial
    investment is [1.0] whenever the cost basis is zero or negative, so it is
    always positive, the guard of the total-return division always holds and
    the "N/A" branch of the total return is never taken; in every report
    that is returned for a frame of at least two rows the total return is a
    number printed as a percentage, also for a portfolio without cost.  But
    a frame of at least two rows need not get a report: on the flat frame of
    22 rows the total return is written first and then [idxmin] raises in
    [calculate_rolling_metrics], for every transaction list, so the report
    and its total-return entry are lost. *)
Theorem flat_series_total_return_unreported :
  2 ≤ length (Date flat_frame)
  ∧ (∀ float_pow np_sqrt np_log txs,
       (∀ x, (x == 0)%Q → (np_sqrt x <= 0)%Q) →
       calculate_indicators float_pow np_sqrt np_log flat_frame txs = None)
  ∧ calculate_indicators (λ _ _, 1%Q) id id flat_frame [] = None
  ∧ (∀ txs,
       ((cost_basis txs <= 0)%Q → initial_investment txs = 1%Q)
       ∧ (0 < initial_investment txs)%Q
       ∧ ∀ fv, total_return_entry (initial_investment txs) fv
               = Fmt 2 (total_return (initial_investment txs) fv) "%")
  ∧ (∀ float_pow np_sqrt np_log df txs r,
       2 ≤ length (Date df) →
       calculate_indicators float_pow np_sqrt np_log df txs = Some r →
       r !! "总收益率"
       = Some (Fmt 2 (total_return (initial_investment txs)
                                   (final_value (TotalValue df))) "%"))
  ∧ (cost_basis [] <= 0)%Q
  ∧ initial_investment [] = 1%Q
  ∧ calculate_indicators (λ _ _, 1%Q) id id (sample_frame [100; 120]%Q) []
      ≫= (.!! "总收益率")
    = Some (Fmt 2 (total_return (initial_investment [])
                                (final_value [100; 120]%Q)) "%").
Proof.
  destruct flat_frame_totals as (Htotal & Hrows & _).
  assert (∀ float_pow np_sqrt np_log txs,
            (∀ x, (x == 0)%Q → (np_sqrt x <= 0)%Q) →
            calculate_indicators float_pow np_sqrt np_log flat_frame txs = None)
    as Hraises.
  { intros float_pow np_sqrt np_log txs Hsqrt.
    apply (calculate_indicators_flat float_pow np_sqrt np_log Hsqrt
             flat_frame txs 22 100%Q Htotal); [lia|reflexivity|lia]. }
  split; [lia|]. split; [exact Hraises|].
  split; [apply Hraises; intros x Hx; unfold id; lra|].
  split.
  { intros txs. split; [apply initial_investment_floor|].
    split; [apply initial_investment_pos|].
    intros fv. apply total_return_entry_numeric. }
  split.
  { intros float_pow np_sqrt np_log df txs r Hdf Hr.
    by destruct (total_return_entry_reported float_pow np_sqrt np_log df txs r
                   Hdf Hr) as (_ & _ & _ & Hentry). }
  split; [by vm_compute|]. split; [reflexivity|].
  assert (is_Some (calculate_indicators (λ _ _, 1%Q) id id
                     (sample_frame [100; 120]%Q) []))
    as [r Hr] by report_returned.
  rewrite Hr. cbn [mbind option_bind].
  apply (total_return_entry_reported (λ _ _, 1%Q) id id
           (sample_frame [100; 120]%Q) [] r); [simpl; lia | exact Hr].
Qed.

(** A fetched index that repeats day 3.  The price read for that day is a
    [Series], the update of the row is refused and the row stays at zero; the
    rows of days 4 and 5 resolve to day 4, which the index holds once. *)
Lemma repeated_index_date_refused :
  let repeated (sym : string) (start_date end_date : date_string) :=
    Some [ (3%Z, 100%Q); (3%Z, 101%Q); (4%Z, 102%Q) ] in
  loc_Close [ (3%Z, 100%Q); (3%Z, 101%Q); (4%Z, 102%Q) ] 3
    = Some (Series [100; 101]%Q)
  ∧ TotalValue (calculate_portfolio_value repeated [sample_tx] (ISO 3) (ISO 5))
    = [0; 1 * 102; 1 * 102]%Q.
Proof. split; vm_compute; reflexivity. Qed.
